(** * FingerReach: the reaching environment of pybullet_fingers

    A shallow embedding of
    [python/pybullet_fingers/gym_wrapper/envs/finger_reach.py].

    - Python floats are IEEE 754 binary64 numbers: they are modelled by Rocq's
      primitive [float], whose operations are the same correctly rounded
      binary64 operations.  Python integers are [Z].
    - The numeric entries of the [smoothing_params] dictionary are stored as
      floats; an integer entry such as [num_episodes = 10] is the float
      [10.0], which is what Python converts it to in [num_episodes *
      stop_after].
    - numpy vectors are lists of floats, with numpy's element-wise operations.
    - Exceptions are a [result] type; methods run in a state-and-exception
      monad over the environment object, which owns the driver.
    - The robot driver (SimFinger / RealFinger), the space scaling helpers and
      the wall clock are collaborators outside this file: they are the
      operations of the [Backend] class. *)

From Stdlib Require Import ZArith Lia Floats Bool.
#[local] Set Warnings "-inexact-float".
From stdpp Require Import gmap strings list.

Local Open Scope Z_scope.

(** ** Python exceptions and results *)

Inductive exn : Type :=
  | AssertionError
  | ZeroDivisionError
  | ValueError
  | OverflowError
  | TypeError
  | KeyError (key : string)
  | AttributeError (attr : string)
  | DriverFault.

Inductive result (A : Type) : Type :=
  | Ok (a : A)
  | Raise (e : exn).

Arguments Ok {A} a.
Arguments Raise {A} e.

Definition result_bind {A B} (r : result A) (k : A -> result B) : result B :=
  match r with
  | Ok a => k a
  | Raise e => Raise e
  end.

(** [x is None]. *)
Definition is_none {A} (x : option A) : bool :=
  match x with
  | None => true
  | Some _ => false
  end.

Declare Scope py_scope.
Delimit Scope py_scope with py.

Notation "'let?' x ':=' r 'in' k" := (result_bind r (fun x => k))
  (at level 10, x name, r at level 100, k at level 200) : py_scope.

(** ** Python numbers on binary64 *)

Module PyFloat.

(** [float(n)] for a Python integer: the nearest binary64 number, ties to
    even.  An integer too large for a double gives an infinity here; the
    callers that Python makes raise [OverflowError] test for it. *)
Definition float_of_Z (n : Z) : float :=
  SF2Prim (binary_normalize prec emax n 0 false).

Definition float_of_int (n : Z) : result float :=
  let f := float_of_Z n in
  if is_infinity f then Raise OverflowError else Ok f.

(** The integer part of a finite binary64 number [m * 2^e], towards zero. *)
Definition SFtrunc (s : bool) (m : positive) (e : Z) : Z :=
  cond_Zopp s (Z.shiftl (Zpos m) e).

(** [int(x)] for a float: truncation; NaN and the infinities raise. *)
Definition int_of_float (x : float) : result Z :=
  match Prim2SF x with
  | S754_nan => Raise ValueError
  | S754_infinity _ => Raise OverflowError
  | S754_zero _ => Ok 0
  | S754_finite s m e => Ok (SFtrunc s m e)
  end.

(** The nearest integer to [m * 2^e], ties to the even one. *)
Definition SFround_half_even (s : bool) (m : positive) (e : Z) : Z :=
  let a :=
    match e with
    | Zneg k =>
        let q := Z.shiftr (Zpos m) (Zpos k) in
        let r := Z.land (Zpos m) (Z.ones (Zpos k)) in
        match r ?= Z.shiftl 1 (Zpos k - 1) with
        | Lt => q
        | Gt => q + 1
        | Eq => if Z.even q then q else q + 1
        end
    | _ => Z.shiftl (Zpos m) e
    end in
  cond_Zopp s a.

(** [round(x)] with one argument: an integer, half to even. *)
Definition round (x : float) : result Z :=
  match Prim2SF x with
  | S754_nan => Raise ValueError
  | S754_infinity _ => Raise OverflowError
  | S754_zero _ => Ok 0
  | S754_finite s m e => Ok (SFround_half_even s m e)
  end.

(** [a / b] on Python floats raises on a zero divisor. *)
Definition truediv (a b : float) : result float :=
  if (b =? 0)%float then Raise ZeroDivisionError else Ok (a / b)%float.

(** [x] is neither NaN nor infinite. *)
Definition finite (x : float) : bool := (abs x <? infinity)%float.

(** The two zeros, [0.0] and [-0.0]; Python's [x == 0] holds of both. *)
Definition zero_like (x : float) : Prop := x = 0%float \/ x = (-0)%float.

(** [0 <= x] on the specification of binary64: a zero, a positive number or
    [+infinity]. *)
Definition SFnonneg (x : spec_float) : bool := SFleb (S754_zero false) x.

(** Fused multiply-add on the specification of binary64: [x * y + z] with
    the exact product and one rounding, to nearest, ties to even. *)
Definition SFfma (x y z : spec_float) : spec_float :=
  match x, y with
  | S754_nan, _ | _, S754_nan => S754_nan
  | S754_infinity _, S754_zero _ | S754_zero _, S754_infinity _ => S754_nan
  | S754_infinity sx, S754_infinity sy
  | S754_infinity sx, S754_finite sy _ _
  | S754_finite sx _ _, S754_infinity sy =>
      match z with
      | S754_nan => S754_nan
      | S754_infinity sz => if Bool.eqb (xorb sx sy) sz then z else S754_nan
      | _ => S754_infinity (xorb sx sy)
      end
  | S754_zero sx, S754_zero sy
  | S754_zero sx, S754_finite sy _ _
  | S754_finite sx _ _, S754_zero sy =>
      match z with
      | S754_zero sz => if Bool.eqb (xorb sx sy) sz then z else S754_zero false
      | _ => z
      end
  | S754_finite sx mx ex, S754_finite sy my ey =>
      let s := xorb sx sy in
      let m := (mx * my)%positive in
      let e := ex + ey in
      match z with
      | S754_nan => S754_nan
      | S754_infinity _ => z
      | S754_zero _ => binary_round prec emax s m e
      | S754_finite sz mz ez =>
          let e' := Z.min e ez in
          binary_normalize prec emax
            (cond_Zopp s (Zpos (fst (shl_align m e e')))
             + cond_Zopp sz (Zpos (fst (shl_align mz ez e'))))
            e' false
      end
  end.

Definition fma (x y z : float) : float :=
  SF2Prim (SFfma (Prim2SF x) (Prim2SF y) (Prim2SF z)).

End PyFloat.

(** ** numpy vectors *)

Module Np.

Definition vec := list float.

(** [c * v] for a scalar [c]. *)
Definition scale (c : float) (v : vec) : vec := map (fun x => (c * x)%float) v.

(** Element-wise binary operation with numpy's broadcasting of one-element
    vectors; other length mismatches raise [ValueError]. *)
Definition broadcast (op : float -> float -> float) (a b : vec) : result vec :=
  if (length a =? length b)%nat then Ok (zip_with op a b)
  else match a, b with
       | [x], _ => Ok (map (op x) b)
       | _, [y] => Ok (map (fun x => op x y) a)
       | _, _ => Raise ValueError
       end.

Definition add : vec -> vec -> result vec := broadcast PrimFloat.add.
Definition subtract : vec -> vec -> result vec := broadcast PrimFloat.sub.

(** [np.concatenate] of a sequence of vectors; the empty sequence raises. *)
Definition concatenate (vs : list vec) : result vec :=
  match vs with
  | [] => Raise ValueError
  | _ => Ok (concat vs)
  end.

(** [x.dot(x)], as [np.linalg.norm] computes it for the short vectors of this
    environment (3 or 9 values): the products are accumulated from the left
    with fused multiply-adds, so that each step rounds [x * x + acc] once. *)
Definition sum_squares (v : vec) : float :=
  fold_left (fun acc x => PyFloat.fma x x acc) v 0%float.

(** [np.linalg.norm] of a vector: [sqrt(x.dot(x))]. *)

Definition linalg_norm (v : vec) : float := sqrt (sum_squares v).

(** A Python slice [l[a:b]] with non-negative bounds. *)
Definition slice (l : vec) (ab : Z * Z) : vec :=
  take (Z.to_nat (snd ab - fst ab)) (drop (Z.to_nat (fst ab)) l).

End Np.

(** ** The collaborators of the environment *)

(** What the environment asks of the world around it.  [R] is the state of
    the robot driver.  A driver call returns its result, or the exception it
    raised, together with the driver's new state. *)
Class Backend (R : Type) : Type := {
  (** [SimFinger(...)], or [RealFinger(...)] when [use_real_robot] holds. *)
  finger_new : forall (use_real_robot enable_visualization : bool)
                 (finger_type sampling_strategy finger_config_suffix : string),
      result R;
  set_action : Np.vec -> string -> R -> result unit * R;
  step_robot : bool -> R -> result unit * R;
  (** [finger.observation.position] and [finger.observation.velocity]. *)
  observation_position : R -> Np.vec;
  observation_velocity : R -> Np.vec;
  forward_kinematics : Np.vec -> list Np.vec;
  reset_finger : R -> result Np.vec * R;
  sample_random_joint_positions_for_reaching : R -> result Np.vec * R;
  reset_goal_markers : list Np.vec -> R -> result unit * R;
  display_goal : R -> result unit * R;
  connect_to_simulation : bool -> R -> result unit * R;
  (** [utils.unscale(action, unscaled_action_space)] and
      [utils.scale(observation, unscaled_observation_space)] for the spaces
      that [FingerSpaces] builds for a number of fingers. *)
  unscale_action : Z -> Np.vec -> Np.vec;
  scale_observation : Z -> Np.vec -> Np.vec;
  (** [datetime.datetime.now()], in seconds. *)
  datetime_now : R -> Z;
}.

(** What the environment did to the outside, in order: the calls it made to
    the driver and to the data logger, and what it printed.  The log is an
    instrument of the model. *)
Inductive event : Type :=
  | EvSetAction (action : Np.vec) (mode : string)
  | EvStepRobot (wait_for_observation : bool)
  | EvResetFinger
  | EvSampleJointPositions
  | EvResetGoalMarkers (goal : list Np.vec)
  | EvDisplayGoal
  | EvConnect (enable_visualization : bool)
  | EvLoggerAppend (joint_positions end_effector_position : Np.vec)
  | EvLoggerNewEpisode (target_joint_config : Np.vec) (goal : list Np.vec)
  | EvSleepUntil (time : Z)
  | EvPrint (episode : Z) (smoothing : float).

(** [smoothing_stop_episode] is an integer, or [math.inf] in test mode. *)
Inductive stop_episode : Type :=
  | StopAt (episode : Z)
  | StopNever.

Definition before_stop (count : Z) (stop : stop_episode) : bool :=
  match stop with
  | StopAt e => count <? e
  | StopNever => true
  end.

(** ** The environment object *)

Record FingerReach (R : Type) : Type := mkFingerReach {
  num_fingers : Z;
  steps_per_control : Z;
  smoothing_start_episode : Z;
  smoothing_alpha : float;
  smoothing_increase_step : float;
  smoothing_stop_episode : stop_episode;
  smoothed_action : option Np.vec;
  episode_count : Z;
  observations_keys : list string;
  observations_sizes : list Z;
  velocity_cost_factor : float;
  next_start_time : option Z;
  (** The attribute [goal] does not exist before the first [reset]. *)
  goal : option (list Np.vec);
  finger : R;
  trace : list event;
}.

Arguments mkFingerReach {R}.
Arguments num_fingers {R}.
Arguments steps_per_control {R}.
Arguments smoothing_start_episode {R}.
Arguments smoothing_alpha {R}.
Arguments smoothing_increase_step {R}.
Arguments smoothing_stop_episode {R}.
Arguments smoothed_action {R}.
Arguments episode_count {R}.
Arguments observations_keys {R}.
Arguments observations_sizes {R}.
Arguments velocity_cost_factor {R}.
Arguments next_start_time {R}.
Arguments goal {R}.
Arguments finger {R}.
Arguments trace {R}.

Section Setters.
Context {R : Type}.
Implicit Type self : FingerReach R.

Definition set_smoothing_alpha (v : float) self : FingerReach R :=
  mkFingerReach (num_fingers self) (steps_per_control self)
    (smoothing_start_episode self) v (smoothing_increase_step self)
    (smoothing_stop_episode self) (smoothed_action self) (episode_count self)
    (observations_keys self) (observations_sizes self)
    (velocity_cost_factor self) (next_start_time self) (goal self)
    (finger self) (trace self).

Definition set_smoothed_action (v : option Np.vec) self : FingerReach R :=
  mkFingerReach (num_fingers self) (steps_per_control self)
    (smoothing_start_episode self) (smoothing_alpha self)
    (smoothing_increase_step self) (smoothing_stop_episode self) v
    (episode_count self) (observations_keys self) (observations_sizes self)
    (velocity_cost_factor self) (next_start_time self) (goal self)
    (finger self) (trace self).

Definition set_episode_count (v : Z) self : FingerReach R :=
  mkFingerReach (num_fingers self) (steps_per_control self)
    (smoothing_start_episode self) (smoothing_alpha self)
    (smoothing_increase_step self) (smoothing_stop_episode self)
    (smoothed_action self) v (observations_keys self)
    (observations_sizes self) (velocity_cost_factor self)
    (next_start_time self) (goal self) (finger self) (trace self).

Definition set_next_start_time (v : option Z) self : FingerReach R :=
  mkFingerReach (num_fingers self) (steps_per_control self)
    (smoothing_start_episode self) (smoothing_alpha self)
    (smoothing_increase_step self) (smoothing_stop_episode self)
    (smoothed_action self) (episode_count self) (observations_keys self)
    (observations_sizes self) (velocity_cost_factor self) v (goal self)
    (finger self) (trace self).

Definition set_goal (v : option (list Np.vec)) self : FingerReach R :=
  mkFingerReach (num_fingers self) (steps_per_control self)
    (smoothing_start_episode self) (smoothing_alpha self)
    (smoothing_increase_step self) (smoothing_stop_episode self)
    (smoothed_action self) (episode_count self) (observations_keys self)
    (observations_sizes self) (velocity_cost_factor self)
    (next_start_time self) v (finger self) (trace self).

Definition set_finger (v : R) self : FingerReach R :=
  mkFingerReach (num_fingers self) (steps_per_control self)
    (smoothing_start_episode self) (smoothing_alpha self)
    (smoothing_increase_step self) (smoothing_stop_episode self)
    (smoothed_action self) (episode_count self) (observations_keys self)
    (observations_sizes self) (velocity_cost_factor self)
    (next_start_time self) (goal self) v (trace self).

(** Appends an event to the log. *)
Definition emit (ev : event) self : FingerReach R :=
  mkFingerReach (num_fingers self) (steps_per_control self)
    (smoothing_start_episode self) (smoothing_alpha self)
    (smoothing_increase_step self) (smoothing_stop_episode self)
    (smoothed_action self) (episode_count self) (observations_keys self)
    (observations_sizes self) (velocity_cost_factor self)
    (next_start_time self) (goal self) (finger self) (trace self ++ [ev]).

End Setters.

(** ** Methods: state and exceptions *)

(** A method body: from the object to a result or an exception, and the
    object as the body left it. *)
Definition M (R A : Type) : Type := FingerReach R -> result A * FingerReach R.

Definition ret {R A} (a : A) : M R A := fun self => (Ok a, self).

Definition bind {R A B} (m : M R A) (k : A -> M R B) : M R B :=
  fun self =>
    match m self with
    | (Ok a, self') => k a self'
    | (Raise e, self') => (Raise e, self')
    end.

Definition raise {R A} (e : exn) : M R A := fun self => (Raise e, self).

(** A pure computation that may raise. *)
Definition lift {R A} (r : result A) : M R A := fun self => (r, self).

(** Reads the object. *)
Definition gets {R A} (f : FingerReach R -> A) : M R A :=
  fun self => (Ok (f self), self).

(** Updates the object. *)
Definition modify {R} (f : FingerReach R -> FingerReach R) : M R unit :=
  fun self => (Ok tt, f self).

(** [try: m except Exception: pass]. *)
Definition try_pass {R} (m : M R unit) : M R unit :=
  fun self => (Ok tt, snd (m self)).

(** Reads an attribute that may not have been assigned yet. *)
Definition getattr {R A} (name : string) (f : FingerReach R -> option A) : M R A :=
  fun self =>
    match f self with
    | Some a => (Ok a, self)
    | None => (Raise (AttributeError name), self)
    end.

(** A call to the driver, logged as [ev]. *)
Definition driver_call {R A} (ev : event) (op : R -> result A * R) : M R A :=
  fun self =>
    let '(r, finger') := op (finger self) in
    (r, set_finger finger' (emit ev self)).

Notation "'let*' x ':=' m 'in' k" := (bind m (fun x => k))
  (at level 10, x name, m at level 100, k at level 200) : py_scope.
Notation "m ';;' k" := (bind m (fun _ => k))
  (at level 100, k at level 200, right associativity) : py_scope.

Local Open Scope py_scope.

(** ** The index map of the observation vector *)

(** Modelled from the spec: [FingerSpaces.key_to_index], which is not part of
    the sources at hand.  The spec builds it from cumulative offsets: each
    observation key is mapped to the contiguous index range that its values
    take in the flat observation vector, in the order of the keys. *)
Fixpoint key_to_index_from (start : Z) (keys : list string) (sizes : list Z)
    (acc : gmap string (Z * Z)) : gmap string (Z * Z) :=
  match keys, sizes with
  | k :: keys', n :: sizes' =>
      key_to_index_from (start + n) keys' sizes' (<[k := (start, start + n)]> acc)
  | _, _ => acc
  end.

Definition key_to_index (keys : list string) (sizes : list Z) : gmap string (Z * Z) :=
  key_to_index_from 0 keys sizes ∅.

(** Modelled from the spec: [utils.compute_distance], which is not part of the
    sources at hand.  The spec has it return the Euclidean distance between
    the end-effector position(s) and the goal: the norm of their
    difference, all coordinates taken together. *)
Definition compute_distance (a b : list Np.vec) : result float :=
  let? d := Np.subtract (concat a) (concat b) in
  Ok (Np.linalg_norm d).

(** The dictionary that [_get_observation] fills. *)
Definition observation_dict (end_effector_position joint_positions
    joint_velocities end_effector_to_goal goal_position action : Np.vec)
    : gmap string Np.vec :=
  <["action_joint_positions" := action]>
  (<["goal_position" := goal_position]>
  (<["end_effector_to_goal" := end_effector_to_goal]>
  (<["joint_velocities" := joint_velocities]>
  (<["joint_positions" := joint_positions]>
  (<["end_effector_position" := end_effector_position]> ∅))))).

(** The flat observation: the values of the configured keys, in order. *)
Fixpoint flatten_observation (dict : gmap string Np.vec) (keys : list string)
    : result Np.vec :=
  match keys with
  | [] => Ok []
  | key :: keys' =>
      match dict !! key with
      | None => Raise (KeyError key)
      | Some v =>
          let? rest := flatten_observation dict keys' in
          Ok (v ++ rest)
      end
  end.

Section Environment.
Context {R : Type} `{Backend R}.

(** [update_smoothing]: the ramp of the smoothing coefficient, run at every
    reset. *)
Definition update_smoothing : M R unit :=
  let* start := gets smoothing_start_episode in
  let* count := gets episode_count in
  let* stop := gets smoothing_stop_episode in
  (if (start <=? count) && before_stop count stop
   then
     let* alpha := gets smoothing_alpha in
     let* increase := gets smoothing_increase_step in
     modify (set_smoothing_alpha (alpha + increase)%float)
   else ret tt) ;;
  let* count := gets episode_count in
  let* alpha := gets smoothing_alpha in
  modify (emit (EvPrint count alpha)).

(** [_get_observation]. *)
Definition _get_observation (action : Np.vec) (log_observation : bool)
    : M R Np.vec :=
  let* position := gets (fun self => observation_position (finger self)) in
  let tip_positions := forward_kinematics position in
  let* end_effector_position := lift (Np.concatenate tip_positions) in
  let* joint_positions := gets (fun self => observation_position (finger self)) in
  let* joint_velocities := gets (fun self => observation_velocity (finger self)) in
  let* goal := getattr "goal" goal in
  let* flat_goals := lift (Np.concatenate goal) in
  let* end_effector_to_goal := lift (Np.subtract flat_goals end_effector_position) in
  let dict :=
    observation_dict end_effector_position joint_positions joint_velocities
      end_effector_to_goal flat_goals action in
  (if log_observation
   then modify (emit (EvLoggerAppend joint_positions end_effector_position))
   else ret tt) ;;
  let* keys := gets observations_keys in
  lift (flatten_observation dict keys).

(** [_compute_reward]; [observation] is [None] when the control loop of
    [step] did not run. *)
Definition _compute_reward (observation : option Np.vec) (goal : list Np.vec)
    : M R (float * bool) :=
  let* keys := gets observations_keys in
  let* sizes := gets observations_sizes in
  let index := key_to_index keys sizes in
  let* joint_positions_index :=
    lift (match index !! "joint_positions" with
          | Some i => Ok i
          | None => Raise (KeyError "joint_positions")
          end) in
  let* joint_positions :=
    lift (match observation with
          | Some o => Ok (Np.slice o joint_positions_index)
          | None => Raise TypeError
          end) in
  let end_effector_positions := forward_kinematics joint_positions in
  let* joint_velocities_index :=
    lift (match index !! "joint_velocities" with
          | Some i => Ok i
          | None => Raise (KeyError "joint_velocities")
          end) in
  let* joint_velocities :=
    lift (match observation with
          | Some o => Ok (Np.slice o joint_velocities_index)
          | None => Raise TypeError
          end) in
  let velocity := Np.linalg_norm joint_velocities in
  let* distance_to_goal := lift (compute_distance end_effector_positions goal) in
  let* factor := gets velocity_cost_factor in
  let reward := (- distance_to_goal - factor * velocity)%float in
  let done := false in
  let* steps := gets steps_per_control in
  ret ((reward * PyFloat.float_of_Z steps)%float, done).

(** The control loop of [step]: [for _ in range(steps_per_control)]. *)
Fixpoint control_loop (n : nat) (observation : option Np.vec)
    : M R (option Np.vec) :=
  match n with
  | O => ret observation
  | S n' =>
      let* action := getattr "smoothed_action" smoothed_action in
      driver_call (EvSetAction action "position") (set_action action "position") ;;
      driver_call (EvStepRobot (is_none observation))
        (step_robot (is_none observation)) ;;
      let* observation' :=
        match observation with
        | None =>
            let* action := getattr "smoothed_action" smoothed_action in
            let* o := _get_observation action true in
            ret (Some o)
        | Some _ => ret observation
        end in
      control_loop n' observation'
  end.

(** [step]: returns the scaled observation, the reward, [done] and
    [info['is_success']]. *)
Definition step (action : Np.vec) : M R (Np.vec * float * bool * float) :=
  let* fingers := gets num_fingers in
  let unscaled_action := unscale_action fingers action in
  let* previous := gets smoothed_action in
  (match previous with
   | None => modify (set_smoothed_action (Some unscaled_action))
   | Some _ => ret tt
   end) ;;
  let* alpha := gets smoothing_alpha in
  let* smoothed := getattr "smoothed_action" smoothed_action in
  let* smoothed' :=
    lift (Np.add (Np.scale alpha smoothed)
                 (Np.scale (1 - alpha)%float unscaled_action)) in
  modify (set_smoothed_action (Some smoothed')) ;;
  let* steps := gets steps_per_control in
  let* observation := control_loop (Z.to_nat steps) None in
  let* goal := getattr "goal" goal in
  let* rd := _compute_reward observation goal in
  let '(reward, done) := rd in
  let is_success := if done then 1%float else 0%float in
  let* o := lift (match observation with
                  | Some o => Ok o
                  | None => Raise TypeError
                  end) in
  ret (scale_observation fingers o, reward, done, is_success).

(** The first block of [reset] (lines 280-291): with synchronisation on, the
    robot is frozen where it is and the episode waits for its start time. *)
Definition wait_for_start_time : M R unit :=
  let* start_time := gets next_start_time in
  match start_time with
  | Some t =>
      try_pass
        (let* position := gets (fun self => observation_position (finger self)) in
         driver_call (EvSetAction position "position") (set_action position "position") ;;
         driver_call (EvStepRobot true) (step_robot true)) ;;
      modify (emit (EvSleepUntil t)) ;;
      modify (set_next_start_time (Some (t + 4)))
  | None => ret tt
  end.

(** [reset]. *)
Definition reset : M R Np.vec :=
  wait_for_start_time ;;
  update_smoothing ;;
  let* count := gets episode_count in
  modify (set_episode_count (count + 1)) ;;
  modify (set_smoothed_action None) ;;
  let* action := driver_call EvResetFinger reset_finger in
  let* target_joint_config :=
    driver_call EvSampleJointPositions sample_random_joint_positions_for_reaching in
  modify (set_goal (Some (forward_kinematics target_joint_config))) ;;
  let* goal := getattr "goal" goal in
  modify (emit (EvLoggerNewEpisode target_joint_config goal)) ;;
  driver_call (EvResetGoalMarkers goal) (reset_goal_markers goal) ;;
  let* fingers := gets num_fingers in
  let* o := _get_observation action false in
  ret (scale_observation fingers o).

(** [render]. *)
Definition render : M R unit :=
  driver_call (EvConnect true) (connect_to_simulation true).

(** *** The constructor *)

Definition simulation_rate_s : float := 0.004%float.

(** Lines 73-76: the number of driver steps per environment step, and the
    assertion that the control rate is a multiple of the simulation rate. *)
Definition init_steps_per_control (control_rate_s : float) : result Z :=
  let? ratio := PyFloat.truediv control_rate_s simulation_rate_s in
  let? steps := PyFloat.round ratio in
  let? fsteps := PyFloat.float_of_int steps in
  if (abs (control_rate_s - fsteps * simulation_rate_s) <=? 0.000001)%float
  then Ok steps
  else Raise AssertionError.

(** [smoothing_params[key]]. *)
Definition getitem (smoothing_params : gmap string float) (key : string)
    : result float :=
  match smoothing_params !! key with
  | Some v => Ok v
  | None => Raise (KeyError key)
  end.

(** The smoothing schedule that the constructor stores. *)
Record smoothing : Type := mkSmoothing {
  sm_start_episode : Z;
  sm_alpha : float;
  sm_increase_step : float;
  sm_stop_episode : stop_episode;
}.

(** Lines 78-95. *)
Definition init_smoothing (smoothing_params : gmap string float)
    : result smoothing :=
  if bool_decide (is_Some (smoothing_params !! "is_test"))
  then
    let? final_alpha := getitem smoothing_params "final_alpha" in
    Ok (mkSmoothing 0 final_alpha 0%float StopNever)
  else
    let? num_episodes := getitem smoothing_params "num_episodes" in
    let? stop_after := getitem smoothing_params "stop_after" in
    let? stop := PyFloat.int_of_float (num_episodes * stop_after)%float in
    let? num_episodes := getitem smoothing_params "num_episodes" in
    let? start_after := getitem smoothing_params "start_after" in
    let? start := PyFloat.int_of_float (num_episodes * start_after)%float in
    let num_smoothing_increase_steps := stop - start in
    let? final_alpha := getitem smoothing_params "final_alpha" in
    let? fsteps := PyFloat.float_of_int num_smoothing_increase_steps in
    let? increase := PyFloat.truediv final_alpha fsteps in
    Ok (mkSmoothing start 0%float increase (StopAt stop)).

(** [datetime(now.year, now.month, now.day, now.hour, now.minute + 1)], with
    times in seconds: the start of the next minute; the constructor of
    [datetime] rejects minute 60. *)
Definition next_minute (now : Z) : result Z :=
  if (now / 60) mod 60 + 1 <=? 59
  then Ok ((now / 60) * 60 + 60)
  else Raise ValueError.

(** The object as [__init__] has built it when it reaches its last
    statement, the call of [reset] (lines 66-156).  [self.seed()] and the
    gym bookkeeping leave no mark on the state modelled here. *)
Definition before_reset (control_rate_s : float) (enable_visualization : bool)
    (finger_type : string) (smoothing_params : gmap string float)
    (velocity_cost_factor : float) (sampling_strategy : string)
    (use_real_robot : bool) (finger_config_suffix : string)
    (synchronize : bool) : result (FingerReach R) :=
  let fingers := if bool_decide (finger_type = "single") then 1 else 3 in
  let? steps := init_steps_per_control control_rate_s in
  let? sm := init_smoothing smoothing_params in
  let keys :=
    ["joint_positions"; "joint_velocities"; "goal_position";
     "action_joint_positions"] in
  let sizes := [3 * fingers; 3 * fingers; 3 * fingers; 3 * fingers] in
  let? driver :=
    finger_new use_real_robot enable_visualization finger_type
      sampling_strategy finger_config_suffix in
  let self :=
    mkFingerReach fingers steps (sm_start_episode sm) (sm_alpha sm)
      (sm_increase_step sm) (sm_stop_episode sm) None 0 keys sizes
      velocity_cost_factor None None driver [] in
  match
    (driver_call EvDisplayGoal display_goal ;;
     if synchronize
     then
       let* now := gets (fun self => datetime_now (finger self)) in
       let* start := lift (next_minute now) in
       modify (set_next_start_time (Some start))
     else modify (set_next_start_time None)) self
  with
  | (Ok _, self') => Ok self'
  | (Raise e, _) => Raise e
  end.

(** [FingerReach(...)]: [__init__], whose last statement is [self.reset()]. *)
Definition __init__ (control_rate_s : float) (enable_visualization : bool)
    (finger_type : string) (smoothing_params : gmap string float)
    (velocity_cost_factor : float) (sampling_strategy : string)
    (use_real_robot : bool) (finger_config_suffix : string)
    (synchronize : bool) : result (FingerReach R) :=
  let? self :=
    before_reset control_rate_s enable_visualization finger_type
      smoothing_params velocity_cost_factor sampling_strategy use_real_robot
      finger_config_suffix synchronize in
  match reset self with
  | (Ok _, self') => Ok self'
  | (Raise e, _) => Raise e
  end.

End Environment.

(** ** A reference driver

    A small deterministic driver to run the environment on: the joints reach
    the commanded position within one tick, the tip of a finger sits at the
    coordinates given by its three joint values, and the goal sampler walks
    through a fixed list of joint configurations.  Actions and observations
    are not rescaled. *)

Module Kinematic.

Record robot : Type := mkRobot {
  position : Np.vec;
  velocity : Np.vec;
  command : Np.vec;
  samples : list Np.vec;
  clock : Z;
}.

Definition zeros (n : nat) : Np.vec := repeat 0%float n.

(** One tip position (three coordinates) per finger. *)
Fixpoint tips (fuel : nat) (q : Np.vec) : list Np.vec :=
  match fuel, q with
  | S fuel', _ :: _ => take 3 q :: tips fuel' (drop 3 q)
  | _, _ => []
  end.

Definition new (use_real_robot enable_visualization : bool)
    (finger_type sampling_strategy finger_config_suffix : string)
    : result robot :=
  let joints := if bool_decide (finger_type = "single") then 3%nat else 9%nat in
  Ok (mkRobot (zeros joints) (zeros joints) (zeros joints)
        [take joints [0.1; 0.2; 0.3; 0.4; 0.5; 0.6; 0.7; 0.8; 0.9]%float;
         take joints [0.5; -0.5; 0.25; 0.5; -0.5; 0.25; 0.5; -0.5; 0.25]%float]
        1700000000).

Definition do_set_action (action : Np.vec) (mode : string) (r : robot)
    : result unit * robot :=
  (Ok tt, mkRobot (position r) (velocity r) action (samples r) (clock r)).

Definition do_step_robot (wait : bool) (r : robot) : result unit * robot :=
  (Ok tt,
   mkRobot (command r) (zip_with PrimFloat.sub (command r) (position r))
     (command r) (samples r) (clock r)).

Definition do_reset_finger (r : robot) : result Np.vec * robot :=
  let home := zeros (length (position r)) in
  (Ok home, mkRobot home home home (samples r) (clock r)).

Definition do_sample (r : robot) : result Np.vec * robot :=
  match samples r with
  | [] => (Raise DriverFault, r)
  | q :: rest =>
      (Ok q, mkRobot (position r) (velocity r) (command r) (rest ++ [q]) (clock r))
  end.

Definition no_effect {A} (a : A) (r : robot) : result A * robot := (Ok a, r).

End Kinematic.

#[export] Instance kinematic_backend : Backend Kinematic.robot := {
  finger_new := Kinematic.new;
  set_action := Kinematic.do_set_action;
  step_robot := Kinematic.do_step_robot;
  observation_position := Kinematic.position;
  observation_velocity := Kinematic.velocity;
  forward_kinematics := fun q => Kinematic.tips (length q) q;
  reset_finger := Kinematic.do_reset_finger;
  sample_random_joint_positions_for_reaching := Kinematic.do_sample;
  reset_goal_markers := fun _ => Kinematic.no_effect tt;
  display_goal := Kinematic.no_effect tt;
  connect_to_simulation := fun _ => Kinematic.no_effect tt;
  unscale_action := fun _ action => action;
  scale_observation := fun _ observation => observation;
  datetime_now := Kinematic.clock;
}.

(** The smoothing parameters of a training run and of a test run. *)
Definition training_params (num_episodes start_after stop_after final_alpha : float)
    : gmap string float :=
  <["num_episodes" := num_episodes]>
  (<["start_after" := start_after]>
  (<["stop_after" := stop_after]>
  (<["final_alpha" := final_alpha]> ∅))).

Definition test_params (final_alpha : float) : gmap string float :=
  <["is_test" := 1%float]> (<["final_alpha" := final_alpha]> ∅).

(** An environment on the reference driver with the default arguments. *)
Definition make (control_rate_s : float) (finger_type : string)
    (smoothing_params : gmap string float) : result (FingerReach Kinematic.robot) :=
  __init__ control_rate_s false finger_type smoothing_params 0%float
    "separated" false "0" false.

(** Runs a method on a constructed environment. *)
Definition run {R A} (env : result (FingerReach R)) (m : M R A)
    : result (A * FingerReach R) :=
  let? self := env in
  match m self with
  | (Ok a, self') => Ok (a, self')
  | (Raise e, _) => Raise e
  end.


(** ** Notions used by the statements *)

(** The smoothing coefficient after [k] additions of the increment to the
    initial coefficient 0. *)
Definition ramp (increase : float) (k : nat) : float :=
  Nat.iter k (fun alpha => (alpha + increase)%float) 0%float.

(** The number of episodes [j] with [0 <= j < count] that lie on the ramp
    [start <= j < stop]. *)
Definition ramp_steps (start stop count : Z) : nat :=
  Z.to_nat (Z.min count stop - Z.max 0 start).

(** The driver commands in a log, in order. *)
Definition commands (t : list event) : list (Np.vec * string) :=
  omap (fun ev => match ev with
                  | EvSetAction action mode => Some (action, mode)
                  | _ => None
                  end) t.

(** The ticks in a log: the arguments of the calls of [step_robot]. *)
Definition ticks (t : list event) : list bool :=
  omap (fun ev => match ev with
                  | EvStepRobot wait => Some wait
                  | _ => None
                  end) t.

(** The observations handed to the data logger in a log. *)
Definition logged_observations (t : list event) : list (Np.vec * Np.vec) :=
  omap (fun ev => match ev with
                  | EvLoggerAppend q x => Some (q, x)
                  | _ => None
                  end) t.

(** The weighted average of [step], component by component. *)
Definition average (alpha previous raw : float) : float :=
  (alpha * previous + (1 - alpha) * raw)%float.

Section Notions.
Context {R : Type} `{Backend R}.

(** Partial correctness of a method body: if it returns, the result and the
    final object satisfy [Q]. *)
Definition wp {A} (m : M R A) (Q : A -> FingerReach R -> Prop)
    (self : FingerReach R) : Prop :=
  match m self with
  | (Ok a, self') => Q a self'
  | (Raise _, _) => True
  end.

(** [m] keeps the relation [P] between the object before and after, whether
    it returns or raises. *)
Definition preserves {A} (P : FingerReach R -> FingerReach R -> Prop)
    (m : M R A) : Prop :=
  forall self, P self (snd (m self)).

(** [self'] has the same [f] as [self]. *)
Definition keeps {X} (f : FingerReach R -> X) (self self' : FingerReach R)
    : Prop :=
  f self' = f self.

(** The fields that no method assigns after construction. *)
Definition configuration (self : FingerReach R) :=
  (num_fingers self, steps_per_control self, smoothing_start_episode self,
   smoothing_increase_step self, smoothing_stop_episode self,
   observations_keys self, observations_sizes self,
   velocity_cost_factor self).

(** The episode about to start lies on the ramp: the test of
    [update_smoothing]. *)
Definition on_ramp (self : FingerReach R) : bool :=
  (smoothing_start_episode self <=? episode_count self)
  && before_stop (episode_count self) (smoothing_stop_episode self).

(** The coefficient that the next [reset] leaves. *)
Definition next_alpha (self : FingerReach R) : float :=
  if on_ramp self
  then (smoothing_alpha self + smoothing_increase_step self)%float
  else smoothing_alpha self.

(** The observation layout that the constructor sets up. *)
Definition standard_layout (self : FingerReach R) : Prop :=
  observations_keys self =
    ["joint_positions"; "joint_velocities"; "goal_position";
     "action_joint_positions"]
  /\ observations_sizes self =
    [3 * num_fingers self; 3 * num_fingers self; 3 * num_fingers self;
     3 * num_fingers self].

(** The fields that a reset assigns once and the rest of it leaves alone. *)
Definition smoothing_state (self : FingerReach R) :=
  (configuration self, smoothing_alpha self, episode_count self,
   smoothed_action self).

(** What the sampler, the clock and the episodes decide, and no [step]
    changes. *)
Definition episode_state (self : FingerReach R) :=
  (configuration self, smoothing_alpha self, episode_count self,
   next_start_time self, goal self).

(** The events of one more tick of the control loop once the observation
    has been taken. *)
Definition later_tick (action : Np.vec) : list event :=
  [EvSetAction action "position"; EvStepRobot false].

(** The driver right after the first tick of a [step] that commands
    [action]. *)
Definition first_tick (action : Np.vec) (driver : R) : R :=
  snd (step_robot true (snd (set_action action "position" driver))).

(** The ramp that the constructor computes from the smoothing parameters of
    a training run: the first episode of the ramp, the episode at which it
    stops, and the increase per episode. *)
Definition training_schedule (smoothing_params : gmap string float)
    (start stop : Z) (increase : float) : Prop :=
  smoothing_params !! "is_test" = None
  /\ exists num_episodes start_after stop_after final_alpha,
      smoothing_params !! "num_episodes" = Some num_episodes
      /\ smoothing_params !! "start_after" = Some start_after
      /\ smoothing_params !! "stop_after" = Some stop_after
      /\ smoothing_params !! "final_alpha" = Some final_alpha
      /\ PyFloat.int_of_float (num_episodes * start_after)%float = Ok start
      /\ PyFloat.int_of_float (num_episodes * stop_after)%float = Ok stop
      /\ PyFloat.truediv final_alpha (PyFloat.float_of_Z (stop - start))
           = Ok increase.

(** The coefficient is where the ramp puts it for the episode count. *)
Definition on_schedule (start stop : Z) (increase : float)
    (self : FingerReach R) : Prop :=
  smoothing_start_episode self = start
  /\ smoothing_stop_episode self = StopAt stop
  /\ smoothing_increase_step self = increase
  /\ 0 <= episode_count self
  /\ smoothing_alpha self
     = ramp increase (ramp_steps start stop (episode_count self)).

(** What a [step] that returns has done: [sa] is the smoothed action it
    commanded, [driver1] the driver right after the first tick, [o] the
    observation taken there, and [ip], [iv] the index ranges of the joint
    positions and velocities in [o]. *)
Definition step_outcome (self : FingerReach R) (action : Np.vec)
    (res : Np.vec * float * bool * float) (self' : FingerReach R)
    (sa : Np.vec) (driver1 : R) (g : list Np.vec) (o : Np.vec)
    (ip iv : Z * Z) (dist : float) : Prop :=
  let u := unscale_action (num_fingers self) action in
  exists driver0 ee flat e2g,
    Np.add (Np.scale (smoothing_alpha self) (default u (smoothed_action self)))
           (Np.scale (1 - smoothing_alpha self)%float u) = Ok sa
    /\ 0 < steps_per_control self
    /\ set_action sa "position" (finger self) = (Ok tt, driver0)
    /\ step_robot true driver0 = (Ok tt, driver1)
    /\ goal self = Some g
    /\ Np.concatenate (forward_kinematics (observation_position driver1)) = Ok ee
    /\ Np.concatenate g = Ok flat
    /\ Np.subtract flat ee = Ok e2g
    /\ flatten_observation
         (observation_dict ee (observation_position driver1)
            (observation_velocity driver1) e2g flat sa)
         (observations_keys self) = Ok o
    /\ key_to_index (observations_keys self) (observations_sizes self)
         !! "joint_positions" = Some ip
    /\ key_to_index (observations_keys self) (observations_sizes self)
         !! "joint_velocities" = Some iv
    /\ compute_distance (forward_kinematics (Np.slice o ip)) g = Ok dist
    /\ res =
         (scale_observation (num_fingers self) o,
          ((- dist - velocity_cost_factor self * Np.linalg_norm (Np.slice o iv))
           * PyFloat.float_of_Z (steps_per_control self))%float,
          false, 0%float)
    /\ trace self' =
         trace self
         ++ [EvSetAction sa "position"; EvStepRobot true;
             EvLoggerAppend (observation_position driver1) ee]
         ++ concat (repeat (later_tick sa)
                      (Z.to_nat (steps_per_control self) - 1))
    /\ episode_state self' = episode_state self
    /\ smoothed_action self' = Some sa.

(** The environments that a program can hold: built by the constructor with
    the given smoothing parameters, then used through [reset], [step] and
    [render], whether those calls return or raise. *)
Inductive reachable (smoothing_params : gmap string float)
    : FingerReach R -> Prop :=
  | reach_init control_rate_s enable_visualization finger_type
      velocity_cost_factor sampling_strategy use_real_robot
      finger_config_suffix synchronize self :
      __init__ control_rate_s enable_visualization finger_type
        smoothing_params velocity_cost_factor sampling_strategy
        use_real_robot finger_config_suffix synchronize = Ok self ->
      reachable smoothing_params self
  | reach_reset self :
      reachable smoothing_params self ->
      reachable smoothing_params (snd (reset self))
  | reach_step action self :
      reachable smoothing_params self ->
      reachable smoothing_params (snd (step action self))
  | reach_render self :
      reachable smoothing_params self ->
      reachable smoothing_params (snd (render self)).

End Notions.

(** ** Notions for the further properties *)

(** A driver out of order: built, reset and sampled as the reference driver,
    but every command and every tick raises, and its clock shows [now]. *)
Definition faulty_backend (now : Z) : Backend Kinematic.robot := {|
  finger_new := Kinematic.new;
  set_action := fun _ _ r => (Raise DriverFault, r);
  step_robot := fun _ r => (Raise DriverFault, r);
  observation_position := Kinematic.position;
  observation_velocity := Kinematic.velocity;
  forward_kinematics := fun q => Kinematic.tips (length q) q;
  reset_finger := Kinematic.do_reset_finger;
  sample_random_joint_positions_for_reaching := Kinematic.do_sample;
  reset_goal_markers := fun _ => Kinematic.no_effect tt;
  display_goal := Kinematic.no_effect tt;
  connect_to_simulation := fun _ => Kinematic.no_effect tt;
  unscale_action := fun _ action => action;
  scale_observation := fun _ observation => observation;
  datetime_now := fun _ => now;
|}.

(** Not above zero: NaN, a zero, or a negative number. *)
Definition SFnot_positive (x : spec_float) : bool :=
  match x with
  | S754_nan | S754_zero _ => true
  | S754_infinity s | S754_finite s _ _ => s
  end.

(** Not below zero: NaN, a zero, or a positive number. *)
Definition SFnot_negative (x : spec_float) : bool :=
  match x with
  | S754_nan | S754_zero _ => true
  | S754_infinity s | S754_finite s _ _ => negb s
  end.

Section MoreNotions.
Context {R : Type} `{Backend R}.

(** The driver after one more tick of the control loop of a [step] that
    commands [action]. *)
Definition later_tick_driver (action : Np.vec) (driver : R) : R :=
  snd (step_robot false (snd (set_action action "position" driver))).

(** The log of [self'] continues the log of [self]. *)
Definition extends (self self' : FingerReach R) : Prop :=
  exists rest, trace self' = trace self ++ rest.

(** A goal that is defined stays defined. *)
Definition goal_stays (self self' : FingerReach R) : Prop :=
  is_Some (goal self) -> is_Some (goal self').

End MoreNotions.

(** * Facts about binary64 arithmetic

    The operations of the primitive floats are specified by the functions of
    [SpecFloat] on sign, mantissa and exponent; the facts below are proved
    on that specification. *)

Import PyFloat.

(** ** Digits and shifts *)

Lemma digits2_bounds m :
  2 ^ (Zpos (digits2_pos m) - 1) <= Zpos m < 2 ^ Zpos (digits2_pos m).
Proof.
  induction m as [m IH|m IH|]; simpl digits2_pos.
  - rewrite Pos2Z.inj_succ.
    replace (Z.succ (Zpos (digits2_pos m)) - 1) with (Z.succ (Zpos (digits2_pos m) - 1)) by lia.
    rewrite !Z.pow_succ_r by lia. lia.
  - rewrite Pos2Z.inj_succ.
    replace (Z.succ (Zpos (digits2_pos m)) - 1) with (Z.succ (Zpos (digits2_pos m) - 1)) by lia.
    rewrite !Z.pow_succ_r by lia. lia.
  - simpl. lia.
Qed.

Lemma digits2_mono m n :
  Zpos m <= Zpos n -> Zpos (digits2_pos m) <= Zpos (digits2_pos n).
Proof.
  intros Hle.
  destruct (digits2_bounds m) as [Hm _], (digits2_bounds n) as [_ Hn].
  destruct (Z_lt_le_dec (Zpos (digits2_pos n)) (Zpos (digits2_pos m))) as [Hlt|]; [|assumption].
  exfalso.
  assert (2 ^ Zpos (digits2_pos n) <= 2 ^ (Zpos (digits2_pos m) - 1))
    by (apply Z.pow_le_mono_r; lia).
  lia.
Qed.

Lemma shr_1_m mrs : 0 <= shr_m mrs -> shr_m (shr_1 mrs) = shr_m mrs / 2.
Proof.
  destruct mrs as [m r s]; cbn [shr_m]. intros Hm.
  destruct m as [|[p|p|]|p]; cbn [shr_1 shr_m]; try lia; try reflexivity.
  - apply Z.div_unique with 1; lia.
  - apply Z.div_unique with 0; lia.
Qed.

Lemma iter_shr_m p : forall mrs,
  0 <= shr_m mrs ->
  shr_m (SpecFloat.iter_pos shr_1 p mrs) = shr_m mrs / 2 ^ Zpos p.
Proof.
  assert (Hnn : forall q mrs, 0 <= shr_m mrs ->
            shr_m (SpecFloat.iter_pos shr_1 q mrs) = shr_m mrs / 2 ^ Zpos q ->
            0 <= shr_m (SpecFloat.iter_pos shr_1 q mrs)).
  { intros q mrs H0 ->. apply Z.div_pos; [assumption|]. apply Z.pow_pos_nonneg; lia. }
  induction p as [p IH|p IH|]; intros mrs Hm; simpl SpecFloat.iter_pos.
  - assert (H1 : 0 <= shr_m (shr_1 mrs)).
    { rewrite shr_1_m by assumption. apply Z.div_pos; lia. }
    rewrite IH by (apply Hnn; [assumption|apply IH; assumption]).
    rewrite IH by assumption. rewrite shr_1_m by assumption.
    rewrite !Z.div_div by (try apply Z.pow_pos_nonneg; lia).
    f_equal. replace (Zpos p~1) with (1 + Zpos p + Zpos p) by lia.
    rewrite !Z.pow_add_r by lia. rewrite Z.pow_1_r. ring.
  - rewrite IH by (apply Hnn; [assumption|apply IH; assumption]).
    rewrite IH by assumption.
    rewrite !Z.div_div by (try apply Z.pow_pos_nonneg; lia).
    f_equal. replace (Zpos p~0) with (Zpos p + Zpos p) by lia.
    rewrite !Z.pow_add_r by lia. ring.
  - rewrite shr_1_m by assumption. reflexivity.
Qed.

(** What [shr] does to a non-negative mantissa. *)
Lemma shr_spec mrs e n :
  0 <= shr_m mrs ->
  let '(mrs', e') := shr mrs e n in
  e' = e + Z.max 0 n /\ shr_m mrs' = shr_m mrs / 2 ^ (Z.max 0 n) /\
  (n <= 0 -> mrs' = mrs).
Proof.
  intros Hm. destruct n as [|p|p]; simpl shr.
  - repeat split; [lia|]. simpl. now rewrite Z.div_1_r.
  - rewrite Z.max_r by lia. repeat split; [apply iter_shr_m; assumption|lia].
  - repeat split; [lia|]. simpl. now rewrite Z.div_1_r.
Qed.

Lemma fexp_spec e : SpecFloat.fexp prec emax e = Z.max (e - 53) (-1074).
Proof. reflexivity. Qed.

Lemma shr_fexp_pos m e l :
  0 < m -> -1074 <= e ->
  let '(mrs, e') := shr_fexp prec emax m e l in
  0 < shr_m mrs /\ e <= e' /\ SpecFloat.fexp prec emax (Zdigits2 m + e) <= e' /\
  shr_m mrs = m / 2 ^ (e' - e).
Proof.
  intros Hm He. unfold shr_fexp.
  set (n := SpecFloat.fexp prec emax (Zdigits2 m + e) - e).
  pose proof (shr_spec (shr_record_of_loc m l) e n) as Hs.
  assert (Hrec : shr_m (shr_record_of_loc m l) = m)
    by (destruct l as [|[]]; reflexivity).
  rewrite Hrec in Hs. specialize (Hs ltac:(lia)).
  destruct (shr (shr_record_of_loc m l) e n) as [mrs e'].
  destruct Hs as (He' & Hmrs & _).
  assert (Hn : n = Z.max (Zdigits2 m - 53) (-1074 - e)).
  { unfold n. rewrite fexp_spec. lia. }
  destruct m as [|p|p]; try lia. simpl Zdigits2 in *.
  pose proof (digits2_bounds p) as [Hlo Hhi].
  clearbody n.
  replace (e' - e) with (Z.max 0 n) by lia.
  rewrite fexp_spec.
  repeat split; try assumption; try lia.
  rewrite Hmrs.
  apply Z.div_str_pos. split; [apply Z.pow_pos_nonneg; lia|].
  apply Z.le_trans with (2 ^ (Zpos (digits2_pos p) - 1)); [|assumption].
  apply Z.pow_le_mono_r; lia.
Qed.

Lemma round_nearest_even_ge m l : m <= round_nearest_even m l.
Proof. destruct l as [|[]]; simpl; try lia. destruct (Z.even m); lia. Qed.

(** Rounding a positive number that is at least the valid float [x] gives a
    float that is at least [x]. *)
Lemma binary_round_aux_ge mx ex z ez l :
  bounded prec emax mx ex = true ->
  -1074 <= ez <= ex ->
  Zpos mx * 2 ^ (ex - ez) <= z ->
  SFleb (S754_finite false mx ex) (binary_round_aux prec emax false z ez l) = true
  /\ SFleb (S754_zero false) (binary_round_aux prec emax false z ez l) = true.
Proof.
  intros Hb Hez Hz.
  assert (Hzpos : 0 < z).
  { apply Z.lt_le_trans with (Zpos mx * 2 ^ (ex - ez)); [|assumption].
    apply Z.mul_pos_pos; [lia|apply Z.pow_pos_nonneg; lia]. }
  unfold bounded, canonical_mantissa in Hb.
  apply andb_prop in Hb as [Hcan _]. apply Z.eqb_eq in Hcan.
  rewrite fexp_spec in Hcan.
  unfold binary_round_aux.
  pose proof (shr_fexp_pos z ez l Hzpos ltac:(lia)) as H1.
  destruct (shr_fexp prec emax z ez l) as [mrs1 e1].
  destruct H1 as (Hm1 & He1 & Hf1 & Hv1).
  set (m1r := round_nearest_even (shr_m mrs1) (loc_of_shr_record mrs1)).
  assert (Hm1r : shr_m mrs1 <= m1r) by apply round_nearest_even_ge.
  pose proof (shr_fexp_pos m1r e1 loc_Exact ltac:(lia) ltac:(lia)) as H2.
  destruct (shr_fexp prec emax m1r e1 loc_Exact) as [mrs2 e2].
  destruct H2 as (Hm2 & He2 & _ & Hv2).
  (* the exponent of the result is at least that of [x] *)
  assert (Hex : ex <= e1).
  { destruct z as [|pz|pz]; try lia. simpl Zdigits2 in Hf1.
    rewrite fexp_spec in Hf1.
    pose proof (digits2_bounds mx) as [Hlo _].
    pose proof (digits2_bounds pz) as [_ Hhi].
    assert (Hd : Zpos (digits2_pos mx) + ex <= Zpos (digits2_pos pz) + ez).
    { destruct (Z_lt_le_dec (Zpos (digits2_pos pz) + ez) (Zpos (digits2_pos mx) + ex)) as [Hlt|]; [|assumption].
      exfalso.
      assert (2 ^ Zpos (digits2_pos pz) <= 2 ^ (Zpos (digits2_pos mx) - 1 + (ex - ez)))
        by (apply Z.pow_le_mono_r; lia).
      rewrite Z.pow_add_r in H by lia.
      assert (2 ^ (Zpos (digits2_pos mx) - 1) * 2 ^ (ex - ez) <= Zpos mx * 2 ^ (ex - ez))
        by (apply Z.mul_le_mono_nonneg_r; [apply Z.pow_nonneg|]; lia).
      lia. }
    lia. }
  destruct (shr_m mrs2) as [|m2|m2] eqn:Em2; try lia.
  destruct (e2 <=? emax - prec); [|split; reflexivity].
  split; [|reflexivity].
  unfold SFleb, SFcompare.
  destruct (Z.compare_spec ex e2) as [Heq|Hlt|Hgt]; try reflexivity; try lia.
  assert (He12 : e2 - e1 = 0) by lia. assert (He1x : e1 = ex) by lia.
  rewrite He12, Z.pow_0_r, Z.div_1_r in Hv2.
  assert (Hle : Zpos mx <= Zpos m2).
  { rewrite Hv2. apply Z.le_trans with (shr_m mrs1); [|assumption].
    rewrite Hv1, He1x. apply Z.div_le_lower_bound; [apply Z.pow_pos_nonneg; lia|lia]. }
  destruct (Pos.compare_cont Eq mx m2) eqn:Ecmp; try reflexivity.
  change (Pos.compare_cont Eq mx m2) with (mx ?= m2)%positive in Ecmp.
  apply Pos.compare_gt_iff in Ecmp. lia.
Qed.


Lemma iter_xO m d : Zpos (Pos.iter xO m d) = Zpos m * 2 ^ Zpos d.
Proof.
  induction d as [|d IH] using Pos.peano_ind.
  - simpl. lia.
  - rewrite Pos.iter_succ, Pos2Z.inj_xO, IH, Pos2Z.inj_succ, Z.pow_succ_r by lia. ring.
Qed.

Lemma shl_align_spec m e e' :
  let '(m', e'') := shl_align m e e' in
  e'' = Z.min e e' /\ Zpos m' = Zpos m * 2 ^ (e - e'').
Proof.
  unfold shl_align. destruct (e' - e) as [|d|d] eqn:E.
  - split; [lia|]. rewrite Z.sub_diag. simpl. lia.
  - split; [lia|]. rewrite Z.sub_diag. simpl. lia.
  - split; [lia|]. rewrite iter_xO. f_equal. f_equal. lia.
Qed.

Lemma binary_round_ge mx ex z ez :
  bounded prec emax mx ex = true ->
  -1074 <= ez <= ex ->
  Zpos mx * 2 ^ (ex - ez) <= Zpos z ->
  SFleb (S754_finite false mx ex) (binary_round prec emax false z ez) = true
  /\ SFleb (S754_zero false) (binary_round prec emax false z ez) = true.
Proof.
  intros Hb Hez Hz. unfold binary_round.
  pose proof (shl_align_spec z ez (SpecFloat.fexp prec emax (Zpos (digits2_pos z) + ez))) as Hs.
  destruct (shl_align z ez _) as [mz e1]. destruct Hs as [He1 Hmz].
  assert (-1074 <= SpecFloat.fexp prec emax (Zpos (digits2_pos z) + ez))
    by (unfold SpecFloat.fexp; change (SpecFloat.emin prec emax) with (-1074); lia).
  apply binary_round_aux_ge; [assumption|lia|].
  rewrite Hmz.
  replace (ex - e1) with ((ex - ez) + (ez - e1)) by lia.
  rewrite Z.pow_add_r by lia.
  rewrite Z.mul_assoc. apply Z.mul_le_mono_nonneg_r; [apply Z.pow_nonneg; lia|assumption].
Qed.

Lemma bounded_emin m e : bounded prec emax m e = true -> -1074 <= e.
Proof.
  unfold bounded, canonical_mantissa. intros Hb.
  apply andb_prop in Hb as [Hcan _]. apply Z.eqb_eq in Hcan.
  unfold SpecFloat.fexp in Hcan. change (SpecFloat.emin prec emax) with (-1074) in Hcan. lia.
Qed.

Lemma SFleb_refl_finite s m e : SFleb (S754_finite s m e) (S754_finite s m e) = true.
Proof.
  unfold SFleb, SFcompare. rewrite Z.compare_refl.
  change (Pos.compare_cont Eq m m) with (m ?= m)%positive. rewrite Pos.compare_refl.
  destruct s; reflexivity.
Qed.

(** Adding a non-negative number to a non-negative number does not make it
    smaller, and the sum is non-negative. *)
Lemma SFadd_nonneg x y :
  valid_binary x = true -> valid_binary y = true ->
  SFnonneg x = true -> SFnonneg y = true ->
  SFleb x (SF64add x y) = true /\ SFnonneg (SF64add x y) = true.
Proof.
  intros Vx Vy Hx Hy.
  destruct x as [sx|[]| |[] mx ex]; try discriminate Hx;
  destruct y as [sy|[]| |[] my ey]; try discriminate Hy;
  try (destruct sx; try destruct sy; split; reflexivity);
  try (split; reflexivity).
  - destruct sy; split; try reflexivity; apply SFleb_refl_finite.
  - simpl in Vx, Vy. unfold SF64add, SFadd.
    pose proof (bounded_emin _ _ Vx). pose proof (bounded_emin _ _ Vy).
    set (ez := Z.min ex ey).
    pose proof (shl_align_spec mx ex ez) as Hsx.
    pose proof (shl_align_spec my ey ez) as Hsy.
    destruct (shl_align mx ex ez) as [mx' ex'], (shl_align my ey ez) as [my' ey'].
    destruct Hsx as [Hex' Hmx'], Hsy as [Hey' Hmy'].
    cbn [fst cond_Zopp]. change (Zpos mx' + Zpos my') with (Zpos (mx' + my')).
    cbn [binary_normalize].
    apply binary_round_ge; [assumption|unfold ez; lia|].
    rewrite Pos2Z.inj_add, Hmx'. replace ex' with ez by (unfold ez; lia). lia.
Qed.

(** The same on the primitive floats. *)
Lemma add_nonneg (a b : float) :
  (0 <=? a)%float = true -> (0 <=? b)%float = true ->
  (a <=? a + b)%float = true /\ (0 <=? a + b)%float = true.
Proof.
  rewrite !FloatAxioms.leb_spec, FloatAxioms.add_spec.
  change (Prim2SF 0) with (S754_zero false).
  intros Ha Hb. apply SFadd_nonneg; auto using Prim2SF_valid.
Qed.

(** *** Comparisons *)

Lemma SFcompare_antisym x y :
  SFcompare y x = option_map CompOpp (SFcompare x y).
Proof.
  destruct x as [sx|sx| |sx mx ex], y as [sy|sy| |sy my ey];
    try reflexivity;
    try (destruct sx; try destruct sy; reflexivity).
  unfold SFcompare.
  rewrite (Z.compare_antisym ex ey).
  change (Pos.compare_cont Eq my mx) with (my ?= mx)%positive.
  change (Pos.compare_cont Eq mx my) with (mx ?= my)%positive.
  rewrite (Pos.compare_antisym mx my).
  destruct sx, sy; cbn [option_map]; try reflexivity;
    destruct (ex ?= ey); cbn [CompOpp]; try reflexivity;
    destruct (mx ?= my)%positive; reflexivity.
Qed.

Lemma ltb_not_leb (x y : float) :
  (x <? y)%float = true -> (y <=? x)%float = false.
Proof.
  rewrite FloatAxioms.ltb_spec, FloatAxioms.leb_spec. unfold SFltb, SFleb.
  rewrite (SFcompare_antisym (Prim2SF x) (Prim2SF y)).
  destruct (SFcompare (Prim2SF x) (Prim2SF y)) as [[]|]; simpl; congruence.
Qed.

(** Equal floats are the same float, or two zeros. *)
Lemma SFeqb_true x y :
  SFeqb x y = true ->
  x = y \/ exists s s', x = S754_zero s /\ y = S754_zero s'.
Proof.
  unfold SFeqb.
  destruct x as [sx|sx| |sx mx ex], y as [sy|sy| |sy my ey]; simpl;
    try discriminate; try (destruct sx; discriminate);
    try (destruct sy; discriminate).
  - intros _. right. eauto.
  - destruct sx, sy; try discriminate; intros _; left; reflexivity.
  - destruct sx, sy; try discriminate;
      destruct (Z.compare_spec ex ey) as [->| |]; try discriminate;
      change (Pos.compare_cont Eq mx my) with (mx ?= my)%positive;
      destruct (Pos.compare_spec mx my) as [->| |]; try discriminate;
      intros _; left; reflexivity.
Qed.

Lemma Prim2SF_zero_like x s : Prim2SF x = S754_zero s -> zero_like x.
Proof.
  intros E. rewrite <- (SF2Prim_Prim2SF x), E.
  destruct s; [right|left]; reflexivity.
Qed.

Lemma eqb_zero (x : float) : (x =? 0)%float = true -> zero_like x.
Proof.
  rewrite FloatAxioms.eqb_spec. change (Prim2SF 0) with (S754_zero false).
  intros E. apply SFeqb_true in E as [E|(s & s' & E & _)];
    eapply Prim2SF_zero_like; eassumption.
Qed.

Lemma zero_like_eqb x : zero_like x -> (x =? 0)%float = true.
Proof. intros [->| ->]; reflexivity. Qed.

(** A finite float is a zero or a number [m * 2^e]. *)
Lemma finite_cases x :
  finite x = true ->
  (exists s, Prim2SF x = S754_zero s) \/
  (exists s m e, Prim2SF x = S754_finite s m e /\ bounded prec emax m e = true).
Proof.
  unfold finite. rewrite FloatAxioms.ltb_spec, FloatAxioms.abs_spec.
  change (Prim2SF infinity) with (S754_infinity false).
  pose proof (Prim2SF_valid x) as V.
  destruct (Prim2SF x) as [s|s| |s m e]; try discriminate; eauto 6.
Qed.

Lemma mul_zero_finite x z : finite x = true -> zero_like z -> zero_like (x * z).
Proof.
  intros Hx Hz.
  assert (exists s, Prim2SF z = S754_zero s) as [sz Ez]
    by (destruct Hz as [->| ->]; eexists; reflexivity).
  apply finite_cases in Hx as [(s & E)|(s & m & e & E & _)];
    eapply Prim2SF_zero_like; rewrite FloatAxioms.mul_spec, E, Ez; reflexivity.
Qed.

Lemma zero_mul_finite x z : finite x = true -> zero_like z -> zero_like (z * x).
Proof.
  intros Hx Hz.
  assert (exists s, Prim2SF z = S754_zero s) as [sz Ez]
    by (destruct Hz as [->| ->]; eexists; reflexivity).
  apply finite_cases in Hx as [(s & E)|(s & m & e & E & _)];
    eapply Prim2SF_zero_like; rewrite FloatAxioms.mul_spec, E, Ez; reflexivity.
Qed.

(** A finite float minus itself is [+0]. *)
Lemma sub_diag_finite x : finite x = true -> (x - x)%float = 0%float.
Proof.
  intros Hx. apply Prim2SF_inj. rewrite FloatAxioms.sub_spec.
  change (Prim2SF 0) with (S754_zero false).
  apply finite_cases in Hx as [(s & E)|(s & m & e & E & _)]; rewrite E.
  - destruct s; reflexivity.
  - unfold SF64sub, SFsub. rewrite Z.sub_diag. reflexivity.
Qed.




(** ** Integers that are floats *)

(** The number of digits is determined by the bounds. *)
Lemma digits2_unique m d :
  2 ^ (d - 1) <= Zpos m < 2 ^ d -> Zpos (digits2_pos m) = d.
Proof.
  intros [Hlo Hhi]. destruct (digits2_bounds m) as [Hlo' Hhi'].
  assert (0 < d).
  { destruct d as [|d|d]; [simpl in Hhi; lia|lia|].
    rewrite Z.pow_neg_r in Hhi by lia. lia. }
  destruct (Z.lt_trichotomy (Zpos (digits2_pos m)) d) as [Hlt|[Heq|Hgt]];
    [exfalso|assumption|exfalso].
  - assert (2 ^ Zpos (digits2_pos m) <= 2 ^ (d - 1)) by (apply Z.pow_le_mono_r; lia). lia.
  - assert (2 ^ d <= 2 ^ (Zpos (digits2_pos m) - 1)) by (apply Z.pow_le_mono_r; lia). lia.
Qed.

Lemma shr_1_even z :
  0 < z -> shr_1 (Build_shr_record (2 * z) false false) = Build_shr_record z false false.
Proof. destruct z; intros; try lia. reflexivity. Qed.

Lemma iter_shr_exact p : forall z,
  0 < z ->
  SpecFloat.iter_pos shr_1 p (Build_shr_record (z * 2 ^ Zpos p) false false)
  = Build_shr_record z false false.
Proof.
  induction p as [p IH|p IH|]; intros z Hz; cbn [SpecFloat.iter_pos].
  - replace (z * 2 ^ Zpos p~1) with (2 * ((z * 2 ^ Zpos p) * 2 ^ Zpos p)).
    2:{ replace (Zpos p~1) with (1 + Zpos p + Zpos p) by lia.
        rewrite !Z.pow_add_r by lia. rewrite Z.pow_1_r. ring. }
    rewrite shr_1_even by (repeat apply Z.mul_pos_pos; try apply Z.pow_pos_nonneg; lia).
    rewrite IH by (apply Z.mul_pos_pos; [|apply Z.pow_pos_nonneg]; lia).
    now apply IH.
  - replace (z * 2 ^ Zpos p~0) with ((z * 2 ^ Zpos p) * 2 ^ Zpos p).
    2:{ replace (Zpos p~0) with (Zpos p + Zpos p) by lia.
        rewrite !Z.pow_add_r by lia. ring. }
    rewrite IH by (apply Z.mul_pos_pos; [|apply Z.pow_pos_nonneg]; lia).
    now apply IH.
  - replace (z * 2 ^ 1) with (2 * z) by lia. now apply shr_1_even.
Qed.

(** Rounding a number that already has the canonical form of a binary64
    float gives that float. *)
Lemma binary_round_aux_canonical s m e :
  bounded prec emax m e = true ->
  binary_round_aux prec emax s (Zpos m) e loc_Exact = S754_finite s m e.
Proof.
  intros Hb. unfold bounded, canonical_mantissa in Hb.
  apply andb_prop in Hb as [Hcan Hmax]. apply Z.eqb_eq in Hcan.
  unfold binary_round_aux, shr_fexp. cbn [Zdigits2 shr_record_of_loc].
  rewrite Hcan, Z.sub_diag. cbn [shr shr_m loc_of_shr_record round_nearest_even Zdigits2].
  rewrite Hcan, Z.sub_diag. cbn [shr shr_m]. now rewrite Hmax.
Qed.

(** An integer [m * 2^e] with [e >= 0] in canonical form converts to the
    float [m * 2^e]. *)
Lemma binary_normalize_integer s m e :
  bounded prec emax m e = true -> 0 <= e ->
  binary_normalize prec emax (cond_Zopp s (Zpos m * 2 ^ e)) 0 false
  = S754_finite s m e.
Proof.
  intros Hb He.
  pose proof Hb as Hb'. unfold bounded, canonical_mantissa in Hb'.
  apply andb_prop in Hb' as [Hcan Hmax]. apply Z.eqb_eq in Hcan.
  unfold SpecFloat.fexp in Hcan. change (SpecFloat.emin prec emax) with (-1074) in Hcan.
  change prec with 53 in Hcan.
  assert (Hz : exists z, Zpos z = Zpos m * 2 ^ e).
  { assert (0 < Zpos m * 2 ^ e) by (apply Z.mul_pos_pos; [|apply Z.pow_pos_nonneg]; lia).
    destruct (Zpos m * 2 ^ e) as [|z|z]; try lia. now exists z. }
  destruct Hz as [z Hz]. rewrite <- Hz.
  assert (Hdz : Zpos (digits2_pos z) = 53 + e).
  { apply digits2_unique. rewrite Hz. destruct (digits2_bounds m) as [Hlo Hhi].
    replace (Zpos (digits2_pos m)) with 53 in * by lia.
    replace (53 + e - 1) with (52 + e) by lia. rewrite !Z.pow_add_r by lia.
    split.
    - apply Z.mul_le_mono_nonneg_r; [apply Z.pow_nonneg|]; lia.
    - apply Z.mul_lt_mono_pos_r; [apply Z.pow_pos_nonneg|]; lia. }
  assert (Hround : binary_round prec emax s z 0 = S754_finite s m e).
  { unfold binary_round. rewrite Hdz.
    replace (SpecFloat.fexp prec emax (53 + e + 0)) with e
      by (unfold SpecFloat.fexp; change (SpecFloat.emin prec emax) with (-1074);
          change prec with 53; lia).
    pose proof (shl_align_spec z 0 e) as Hs.
    destruct (shl_align z 0 e) as [mz ez]. destruct Hs as [Hez Hmz].
    rewrite Z.min_l in Hez by lia. subst ez. rewrite Z.sub_diag, Z.mul_1_r in Hmz.
    injection Hmz as ->.
    unfold binary_round_aux, shr_fexp. cbn [Zdigits2 shr_record_of_loc].
    rewrite Hdz.
    replace (SpecFloat.fexp prec emax (53 + e + 0) - 0) with e
      by (unfold SpecFloat.fexp; change (SpecFloat.emin prec emax) with (-1074);
          change prec with 53; lia).
    assert (Hshr : shr (Build_shr_record (Zpos z) false false) 0 e
                   = (Build_shr_record (Zpos m) false false, e)).
    { destruct e as [|p|p]; [| |lia].
      - cbn [shr]. rewrite Hz. rewrite Z.pow_0_r, Z.mul_1_r. reflexivity.
      - cbn [shr]. rewrite Hz. rewrite iter_shr_exact by lia. reflexivity. }
    rewrite Hshr. cbn [shr_m loc_of_shr_record round_nearest_even].
    cbn [Zdigits2 shr_record_of_loc].
    replace (SpecFloat.fexp prec emax (Zpos (digits2_pos m) + e) - e) with 0
      by (unfold SpecFloat.fexp; change (SpecFloat.emin prec emax) with (-1074);
          change prec with 53; lia).
    cbn [shr shr_m]. now rewrite Hmax. }
  destruct s; cbn [cond_Zopp binary_normalize Z.opp]; exact Hround.
Qed.

(** A positive integer below [2^53] converts to a float exactly. *)
Lemma binary_round_small s a :
  Zpos a < 2 ^ 53 ->
  exists m e,
    binary_round prec emax s a 0 = S754_finite s m e
    /\ bounded prec emax m e = true.
Proof.
  intros Ha. destruct (digits2_bounds a) as [Hlo Hhi].
  set (d := Zpos (digits2_pos a)) in *.
  assert (Hd : 1 <= d <= 53).
  { split; [unfold d; lia|].
    destruct (Z_lt_le_dec 53 d) as [Hgt|]; [|assumption]. exfalso.
    assert (2 ^ 53 <= 2 ^ (d - 1)) by (apply Z.pow_le_mono_r; lia). lia. }
  unfold binary_round. fold d.
  replace (SpecFloat.fexp prec emax (d + 0)) with (d - 53)
    by (unfold SpecFloat.fexp; change (SpecFloat.emin prec emax) with (-1074);
        change prec with 53; lia).
  pose proof (shl_align_spec a 0 (d - 53)) as Hs.
  destruct (shl_align a 0 (d - 53)) as [mz ez]. destruct Hs as [Hez Hmz].
  rewrite Z.min_r in Hez by lia. subst ez.
  replace (0 - (d - 53)) with (53 - d) in Hmz by lia.
  assert (Hdz : Zpos (digits2_pos mz) = 53).
  { apply digits2_unique. rewrite Hmz. split.
    - replace (53 - 1) with ((d - 1) + (53 - d)) by lia. rewrite Z.pow_add_r by lia.
      apply Z.mul_le_mono_nonneg_r; [apply Z.pow_nonneg; lia|assumption].
    - replace 53 with (d + (53 - d)) at 2 by lia. rewrite Z.pow_add_r by lia.
      apply Z.mul_lt_mono_pos_r; [apply Z.pow_pos_nonneg; lia|assumption]. }
  assert (Hb : bounded prec emax mz (d - 53) = true).
  { unfold bounded, canonical_mantissa. rewrite Hdz.
    apply andb_true_intro. split.
    - apply Z.eqb_eq. unfold SpecFloat.fexp.
      change (SpecFloat.emin prec emax) with (-1074). change prec with 53. lia.
    - apply Z.leb_le. change (emax - prec) with 971. lia. }
  exists mz, (d - 53). split; [|exact Hb].
  now apply binary_round_aux_canonical.
Qed.

(** A valid zero or finite specification is the specification of a finite
    float. *)
Lemma finite_SF2Prim X :
  valid_binary X = true ->
  match X with S754_zero _ | S754_finite _ _ _ => True | _ => False end ->
  finite (SF2Prim X) = true.
Proof.
  intros V HX. unfold finite.
  rewrite FloatAxioms.ltb_spec, FloatAxioms.abs_spec, Prim2SF_SF2Prim by exact V.
  destruct X; try contradiction; reflexivity.
Qed.

Lemma finite_not_infinity x : finite x = true -> is_infinity x = false.
Proof.
  unfold finite, is_infinity.
  rewrite FloatAxioms.ltb_spec, FloatAxioms.eqb_spec. unfold SFltb, SFeqb.
  destruct (SFcompare (Prim2SF (abs x)) (Prim2SF infinity)) as [[]|];
    congruence.
Qed.

(** [float(round(x))] does not overflow: the rounded value of a float is a
    float. *)
Lemma round_converts x n : round x = Ok n -> finite (float_of_Z n) = true.
Proof.
  unfold round, float_of_Z. pose proof (Prim2SF_valid x) as V.
  destruct (Prim2SF x) as [s|s| |s m e]; try discriminate; intros [= <-].
  - reflexivity.
  - cbn [valid_binary] in V. unfold SFround_half_even.
    assert (Hm : Zpos m < 2 ^ 53).
    { pose proof V as V'. unfold bounded, canonical_mantissa in V'.
      apply andb_prop in V' as [Hcan _]. apply Z.eqb_eq in Hcan.
      rewrite fexp_spec in Hcan. destruct (digits2_bounds m) as [_ Hhi].
      apply Z.lt_le_trans with (2 ^ Zpos (digits2_pos m)); [assumption|].
      apply Z.pow_le_mono_r; lia. }
    assert (Hsmall : forall a, 0 <= a < 2 ^ 53 ->
              finite (SF2Prim (binary_normalize prec emax (cond_Zopp s a) 0 false))
              = true).
    { intros [|a|a] Ha; try lia.
      - destruct s; reflexivity.
      - destruct (binary_round_small s a ltac:(lia)) as (m' & e' & E & Hb).
        replace (binary_normalize prec emax (cond_Zopp s (Zpos a)) 0 false)
          with (binary_round prec emax s a 0) by (destruct s; reflexivity).
        rewrite E. now apply finite_SF2Prim. }
    destruct e as [|p|k].
    + rewrite Z.shiftl_0_r. apply Hsmall. lia.
    + rewrite Z.shiftl_mul_pow2 by lia.
      rewrite binary_normalize_integer by (assumption || lia).
      now apply finite_SF2Prim.
    + apply Hsmall.
      assert (Hq : 0 <= Z.shiftr (Zpos m) (Zpos k) < 2 ^ 52).
      { rewrite Z.shiftr_div_pow2 by lia. split.
        - apply Z.div_pos; [lia|apply Z.pow_pos_nonneg; lia].
        - apply Z.div_lt_upper_bound; [apply Z.pow_pos_nonneg; lia|].
          apply Z.lt_le_trans with (2 ^ 1 * 2 ^ 52); [simpl; lia|].
          apply Z.mul_le_mono_nonneg_r; [lia|].
          apply Z.pow_le_mono_r; lia. }
      change (2 ^ 53) with (2 * 2 ^ 52).
      destruct (_ ?= _); [destruct (Z.even _)| |]; lia.
Qed.

(** ** Conversions between floats and integers *)

Lemma float_of_int_0 : float_of_int 0 = Ok 0%float.
Proof. reflexivity. Qed.

Lemma truediv_zero a z : zero_like z -> truediv a z = Raise ZeroDivisionError.
Proof. intros Hz. unfold truediv. now rewrite (zero_like_eqb z Hz). Qed.



(** A repeat count that passes the assertion of the constructor converts to
    a finite float. *)
Lemma init_steps_per_control_finite c n :
  init_steps_per_control c = Ok n -> finite (float_of_Z n) = true.
Proof.
  unfold init_steps_per_control, float_of_int.
  destruct (truediv c simulation_rate_s) as [q|]; [|discriminate]. cbn [result_bind].
  destruct (round q) as [k|]; [|discriminate]. cbn [result_bind].
  destruct (is_infinity (float_of_Z k)) eqn:Einf; [discriminate|]. cbn [result_bind].
  destruct (abs (c - float_of_Z k * simulation_rate_s) <=? 1e-06)%float eqn:Eleb;
    [|discriminate].
  intros [= <-]. revert Einf Eleb.
  unfold finite, is_infinity.
  rewrite FloatAxioms.eqb_spec, FloatAxioms.leb_spec, FloatAxioms.ltb_spec,
    !FloatAxioms.abs_spec, FloatAxioms.sub_spec, FloatAxioms.mul_spec.
  change (Prim2SF infinity) with (S754_infinity false).
  destruct (Prim2SF (float_of_Z k)) as [s|s| |s m e]; try reflexivity.
  - destruct s; discriminate.
  - intros _. destruct (Prim2SF simulation_rate_s), (Prim2SF c); discriminate.
Qed.

(** * Reasoning about method bodies *)

Section Rules.
Context {R : Type}.
Implicit Types self : FingerReach R.

Lemma wp_ok {A} (m : M R A) Q self a self' :
  wp m Q self -> m self = (Ok a, self') -> Q a self'.
Proof. unfold wp. intros Hwp E. now rewrite E in Hwp. Qed.

Lemma wp_ret {A} (a : A) (Q : A -> FingerReach R -> Prop) self :
  Q a self -> wp (ret a) Q self.
Proof. trivial. Qed.

Lemma wp_bind {A B} (m : M R A) (k : A -> M R B) Q self :
  wp m (fun a self' => wp (k a) Q self') self -> wp (bind m k) Q self.
Proof. unfold wp, bind. destruct (m self) as [[a|e] self']; trivial. Qed.

Lemma wp_gets {A} (f : FingerReach R -> A) (Q : A -> FingerReach R -> Prop) self :
  Q (f self) self -> wp (gets f) Q self.
Proof. trivial. Qed.

Lemma wp_modify (f : FingerReach R -> FingerReach R) (Q : unit -> FingerReach R -> Prop) self :
  Q tt (f self) -> wp (modify f) Q self.
Proof. trivial. Qed.

Lemma wp_lift {A} (r : result A) (Q : A -> FingerReach R -> Prop) self :
  (forall a, r = Ok a -> Q a self) -> wp (lift r) Q self.
Proof. unfold wp, lift. destruct r; auto. Qed.

Lemma wp_getattr {A} name (f : FingerReach R -> option A) (Q : A -> FingerReach R -> Prop) self :
  (forall a, f self = Some a -> Q a self) -> wp (getattr name f) Q self.
Proof. unfold wp, getattr. destruct (f self); auto. Qed.

Lemma wp_driver_call {A} ev (op : R -> result A * R) (Q : A -> FingerReach R -> Prop) self :
  (forall a driver, op (finger self) = (Ok a, driver) ->
     Q a (set_finger driver (emit ev self))) ->
  wp (driver_call ev op) Q self.
Proof.
  unfold wp, driver_call. destruct (op (finger self)) as [[a|e] driver]; auto.
Qed.

Lemma wp_consequence {A} (m : M R A) (Q Q' : A -> FingerReach R -> Prop) self :
  wp m Q self -> (forall a self', Q a self' -> Q' a self') -> wp m Q' self.
Proof. unfold wp. destruct (m self) as [[a|e] self']; auto. Qed.

(** A method that returned went through both halves of a [bind]. *)
Lemma bind_ok_inv {A B} (m : M R A) (k : A -> M R B) self b self'' :
  bind m k self = (Ok b, self'') ->
  exists a self', m self = (Ok a, self') /\ k a self' = (Ok b, self'').
Proof.
  unfold bind. destruct (m self) as [[a|e] self']; [eauto|discriminate].
Qed.

(** *** Fields that a body leaves alone *)

Section Keeps.
Context {X : Type} (f : FingerReach R -> X).

Lemma keeps_ret {A} (a : A) : preserves (keeps f) (ret a).
Proof. intros self. reflexivity. Qed.

Lemma keeps_raise {A} e : preserves (keeps f) (@raise R A e).
Proof. intros self. reflexivity. Qed.

Lemma keeps_lift {A} (r : result A) : preserves (keeps f) (lift r).
Proof. intros self. reflexivity. Qed.

Lemma keeps_gets {A} (g : FingerReach R -> A) : preserves (keeps f) (gets g).
Proof. intros self. reflexivity. Qed.

Lemma keeps_getattr {A} name (g : FingerReach R -> option A) :
  preserves (keeps f) (getattr name g).
Proof. intros self. unfold getattr. destruct (g self); reflexivity. Qed.

Lemma keeps_modify (g : FingerReach R -> FingerReach R) :
  (forall self, f (g self) = f self) -> preserves (keeps f) (modify g).
Proof. intros Hg self. apply Hg. Qed.

Lemma keeps_driver_call {A} ev (op : R -> result A * R) :
  (forall self driver, f (set_finger driver (emit ev self)) = f self) ->
  preserves (keeps f) (driver_call ev op).
Proof.
  intros Hf self. unfold driver_call.
  destruct (op (finger self)) as [r driver]. apply Hf.
Qed.

Lemma keeps_bind {A B} (m : M R A) (k : A -> M R B) :
  preserves (keeps f) m -> (forall a, preserves (keeps f) (k a)) ->
  preserves (keeps f) (bind m k).
Proof.
  intros Hm Hk self. unfold bind. specialize (Hm self).
  destruct (m self) as [[a|e] self']; cbn [snd] in *.
  - unfold keeps in *. rewrite <- Hm. apply Hk.
  - exact Hm.
Qed.

Lemma keeps_try_pass (m : M R unit) :
  preserves (keeps f) m -> preserves (keeps f) (try_pass m).
Proof. intros Hm self. apply Hm. Qed.

End Keeps.

End Rules.

(** Walks through a method body with the rules above. *)
Ltac keeps_step :=
  lazymatch goal with
  | |- preserves _ (bind _ _) => apply keeps_bind; [|intros ?]
  | |- preserves _ (ret _) => apply keeps_ret
  | |- preserves _ (raise _) => apply keeps_raise
  | |- preserves _ (lift _) => apply keeps_lift
  | |- preserves _ (gets _) => apply keeps_gets
  | |- preserves _ (getattr _ _) => apply keeps_getattr
  | |- preserves _ (try_pass _) => apply keeps_try_pass
  | |- preserves _ (modify _) => apply keeps_modify; intros []; reflexivity
  | |- preserves _ (driver_call _ _) =>
      apply keeps_driver_call; intros [] ?; reflexivity
  | |- preserves _ (_get_observation _ _) => unfold _get_observation
  | |- preserves _ (_compute_reward _ _) => unfold _compute_reward
  | |- preserves _ update_smoothing => unfold update_smoothing
  | |- preserves _ wait_for_start_time => unfold wait_for_start_time
  | |- preserves _ (if ?b then _ else _) => destruct b
  | |- preserves _ (match ?x with _ => _ end) => destruct x
  end.

Ltac keeps_auto := repeat keeps_step.

Ltac wp_step :=
  lazymatch goal with
  | |- wp (bind _ _) _ _ => apply wp_bind
  | |- wp (gets _) _ _ => apply wp_gets
  | |- wp (modify _) _ _ => apply wp_modify
  | |- wp (ret _) _ _ => apply wp_ret
  | |- wp (lift _) _ _ => apply wp_lift; intros ? ?
  | |- wp (getattr _ _) _ _ => apply wp_getattr; intros ? ?
  | |- wp (driver_call _ _) _ _ =>
      let a := fresh "a" in
      apply wp_driver_call; intros a ? ?;
      lazymatch type of a with unit => destruct a | _ => idtac end
  end; cbv beta.

Ltac wp_auto := repeat wp_step.

Section Effects.
Context {R : Type} `{Backend R}.
Implicit Types self : FingerReach R.

Lemma bind_gets {A B} (f : FingerReach R -> A) (k : A -> M R B) self :
  bind (gets f) k self = k (f self) self.
Proof. reflexivity. Qed.

Lemma bind_modify {B} (g : FingerReach R -> FingerReach R) (k : unit -> M R B) self :
  bind (modify g) k self = k tt (g self).
Proof. reflexivity. Qed.

Lemma bind_ret {A B} (a : A) (k : A -> M R B) self : bind (ret a) k self = k a self.
Proof. reflexivity. Qed.

Lemma bind_try_pass {B} (m : M R unit) (k : unit -> M R B) self :
  bind (try_pass m) k self = k tt (snd (m self)).
Proof. reflexivity. Qed.

Lemma bind_assoc {A B C} (m : M R A) (k1 : A -> M R B) (k2 : B -> M R C) self :
  bind (bind m k1) k2 self = bind m (fun a => bind (k1 a) k2) self.
Proof. unfold bind. destruct (m self) as [[a|e] self']; reflexivity. Qed.

(** [update_smoothing] never raises; it moves the coefficient one step up
    the ramp when the episode count lies on it. *)
Lemma update_smoothing_run self :
  update_smoothing self =
    (Ok tt, emit (EvPrint (episode_count self) (next_alpha self))
              (set_smoothing_alpha (next_alpha self) self)).
Proof.
  unfold update_smoothing, next_alpha, on_ramp.
  rewrite !bind_gets.
  destruct ((smoothing_start_episode self <=? episode_count self)
            && before_stop (episode_count self) (smoothing_stop_episode self));
    destruct self; reflexivity.
Qed.

Lemma bind_update_smoothing {B} (k : unit -> M R B) self :
  bind update_smoothing k self =
    k tt (emit (EvPrint (episode_count self) (next_alpha self))
            (set_smoothing_alpha (next_alpha self) self)).
Proof. unfold bind at 1. now rewrite update_smoothing_run. Qed.

Lemma wait_for_start_time_keeps :
  preserves (keeps (fun self => (smoothing_state self, goal self)))
    wait_for_start_time.
Proof. keeps_auto. Qed.

Lemma wait_for_start_time_returns self : fst (wait_for_start_time self) = Ok tt.
Proof.
  unfold wait_for_start_time. rewrite bind_gets.
  destruct (next_start_time self); reflexivity.
Qed.

Lemma wait_for_start_time_run self :
  exists self', wait_for_start_time self = (Ok tt, self')
    /\ smoothing_state self' = smoothing_state self
    /\ goal self' = goal self.
Proof.
  exists (snd (wait_for_start_time self)).
  pose proof (wait_for_start_time_keeps self) as Hk. unfold keeps in Hk.
  apply pair_equal_spec in Hk as [Hs Hg].
  split; [|split; assumption].
  rewrite <- (wait_for_start_time_returns self). apply surjective_pairing.
Qed.

(** What every [reset] does to the smoothing state, whether it returns or a
    driver call raises further on. *)
Lemma reset_smoothing_state self :
  smoothing_state (snd (reset self)) =
    (configuration self, next_alpha self, episode_count self + 1, None).
Proof.
  unfold reset.
  destruct (wait_for_start_time_run self) as (self1 & E1 & Hs1 & _).
  unfold bind at 1. rewrite E1.
  rewrite bind_update_smoothing, bind_gets, !bind_modify.
  match goal with |- context [snd (?m ?s)] =>
    assert (Hk : preserves (keeps smoothing_state) m) by (keeps_auto);
    specialize (Hk s); unfold keeps in Hk; rewrite Hk
  end.
  unfold smoothing_state in Hs1.
  apply pair_equal_spec in Hs1 as [Hs1 Hsa].
  apply pair_equal_spec in Hs1 as [Hs1 Hc].
  apply pair_equal_spec in Hs1 as [Hcfg Ha].
  assert (Hn : next_alpha self1 = next_alpha self).
  { unfold next_alpha, on_ramp.
    unfold configuration in Hcfg. injection Hcfg as _ _ Hstart Hinc Hstop _ _ _.
    now rewrite Ha, Hc, Hstart, Hinc, Hstop. }
  rewrite <- Hn, <- Hc, <- Hcfg. destruct self1; reflexivity.
Qed.

Lemma reset_smoothing self :
  configuration (snd (reset self)) = configuration self
  /\ smoothing_alpha (snd (reset self)) = next_alpha self
  /\ episode_count (snd (reset self)) = episode_count self + 1
  /\ smoothed_action (snd (reset self)) = None.
Proof.
  pose proof (reset_smoothing_state self) as E. unfold smoothing_state in E.
  apply pair_equal_spec in E as [E Hsa].
  apply pair_equal_spec in E as [E Hc].
  apply pair_equal_spec in E as [Hcfg Ha].
  auto.
Qed.

(** *** [step] *)

Lemma control_loop_keeps n : forall observation,
  preserves (keeps (fun self => (episode_state self, smoothed_action self)))
    (control_loop n observation).
Proof.
  induction n as [|n IH]; intros observation; cbn [control_loop]; keeps_auto;
    apply IH.
Qed.

(** No [step] touches the configuration, the smoothing coefficient, the
    episode count or the goal, whether it returns or raises. *)
Lemma step_keeps action : preserves (keeps episode_state) (step action).
Proof.
  unfold step. keeps_auto.
  intros self.
  match goal with |- context [control_loop ?n ?o] =>
    pose proof (control_loop_keeps n o self) as Hk
  end.
  unfold keeps in *. now apply pair_equal_spec in Hk as [Hk _].
Qed.

Lemma render_keeps : preserves (keeps (fun self => (episode_state self, smoothed_action self))) render.
Proof. unfold render. keeps_auto. Qed.

(** What [_get_observation] returns, and what it logs. *)
Lemma get_observation_spec action log self :
  wp (_get_observation action log)
    (fun o self' =>
       exists g ee flat e2g,
         goal self = Some g
         /\ Np.concatenate
              (forward_kinematics (observation_position (finger self))) = Ok ee
         /\ Np.concatenate g = Ok flat
         /\ Np.subtract flat ee = Ok e2g
         /\ flatten_observation
              (observation_dict ee (observation_position (finger self))
                 (observation_velocity (finger self)) e2g flat action)
              (observations_keys self) = Ok o
         /\ self' =
              if log
              then emit (EvLoggerAppend
                           (observation_position (finger self)) ee) self
              else self)
    self.
Proof.
  unfold _get_observation. wp_auto.
  destruct log; wp_auto; eexists _, _, _, _; repeat split; eauto.
Qed.

(** What [_compute_reward] returns. *)
Lemma compute_reward_spec observation g self :
  wp (_compute_reward observation g)
    (fun rd self' =>
       self' = self /\ snd rd = false
       /\ exists o ip iv dist,
           observation = Some o
           /\ key_to_index (observations_keys self) (observations_sizes self)
                !! "joint_positions" = Some ip
           /\ key_to_index (observations_keys self) (observations_sizes self)
                !! "joint_velocities" = Some iv
           /\ compute_distance (forward_kinematics (Np.slice o ip)) g = Ok dist
           /\ fst rd =
                ((- dist - velocity_cost_factor self
                           * Np.linalg_norm (Np.slice o iv))
                 * float_of_Z (steps_per_control self))%float)
    self.
Proof.
  unfold _compute_reward. wp_auto.
  repeat match goal with
         | E : Ok _ = Ok _ |- _ => injection E as <-
         | E : match ?x with _ => _ end = Ok _ |- _ =>
             destruct x eqn:?; [|discriminate E]
         end.
  split; [reflexivity|]. split; [reflexivity|].
  eexists _, _, _, _. repeat split; eauto.
Qed.

(** The ticks of the control loop after the observation has been taken:
    the same command and a tick, [n] times, and the observation is kept. *)
Lemma control_loop_rest n : forall o sa self,
  smoothed_action self = Some sa ->
  wp (control_loop n (Some o))
    (fun res self' =>
       res = Some o
       /\ trace self' = trace self ++ concat (repeat (later_tick sa) n)
       /\ episode_state self' = episode_state self
       /\ smoothed_action self' = Some sa)
    self.
Proof.
  induction n as [|n IH]; intros o sa self Hsa; cbn [control_loop].
  - apply wp_ret. rewrite app_nil_r. auto.
  - wp_auto.
    match goal with E : smoothed_action self = Some ?a |- _ =>
      rewrite Hsa in E; injection E as <- end.
    cbn [is_none] in *.
    eapply wp_consequence; [apply (IH o sa); exact Hsa|].
    cbv beta. intros res self' (-> & Ht & He & Hs).
    split; [reflexivity|]. split; [|split; [|exact Hs]].
    + rewrite Ht. cbn. rewrite <- !app_assoc. reflexivity.
    + rewrite He. reflexivity.
Qed.

(** The first tick of the control loop: the command, a tick that waits for
    the observation, the observation, and then the remaining ticks. *)
Lemma control_loop_first n sa self :
  smoothed_action self = Some sa ->
  wp (control_loop (S n) None)
    (fun res self' =>
       exists driver0 driver1 g ee flat e2g o,
         set_action sa "position" (finger self) = (Ok tt, driver0)
         /\ step_robot true driver0 = (Ok tt, driver1)
         /\ goal self = Some g
         /\ Np.concatenate (forward_kinematics (observation_position driver1))
              = Ok ee
         /\ Np.concatenate g = Ok flat
         /\ Np.subtract flat ee = Ok e2g
         /\ flatten_observation
              (observation_dict ee (observation_position driver1)
                 (observation_velocity driver1) e2g flat sa)
              (observations_keys self) = Ok o
         /\ res = Some o
         /\ trace self' =
              trace self
              ++ [EvSetAction sa "position"; EvStepRobot true;
                  EvLoggerAppend (observation_position driver1) ee]
              ++ concat (repeat (later_tick sa) n)
         /\ episode_state self' = episode_state self
         /\ smoothed_action self' = Some sa)
    self.
Proof.
  intros Hsa. cbn [control_loop]. wp_auto.
  match goal with E : smoothed_action self = Some ?a |- _ =>
    rewrite Hsa in E; injection E as <- end.
  cbn [is_none] in *.
  match goal with E : smoothed_action (set_finger _ _) = Some ?a |- _ =>
    cbn in E; rewrite Hsa in E; injection E as <- end.
  eapply wp_consequence; [apply get_observation_spec|].
  cbv beta. intros o self1 (g & ee & flat & e2g & Hg & Hee & Hflat & He2g & Ho & ->).
  wp_auto.
  eapply wp_consequence; [apply (control_loop_rest n o sa); exact Hsa|].
  cbv beta. intros res self' (-> & Ht & He & Hs).
  cbn in *.
  eexists _, _, _, _, _, _, _. repeat split; eauto.
  rewrite Ht, <- !app_assoc. reflexivity.
Qed.

(** Every [step] that returns has the outcome described by
    [step_outcome]. *)
Lemma step_spec action self :
  wp (step action)
    (fun res self' =>
       exists sa driver1 g o ip iv dist,
         step_outcome self action res self' sa driver1 g o ip iv dist)
    self.
Proof.
  unfold step. wp_step. wp_step. wp_step. wp_step.
  set (u := unscale_action (num_fingers self) action).
  apply wp_bind.
  assert (Hbuf : exists self1,
    self1 = match smoothed_action self with
            | None => set_smoothed_action (Some u) self
            | Some _ => self
            end
    /\ smoothed_action self1 = Some (default u (smoothed_action self))
    /\ episode_state self1 = episode_state self
    /\ trace self1 = trace self /\ finger self1 = finger self).
  { eexists. split; [reflexivity|]. destruct (smoothed_action self) eqn:E; cbn; auto. }
  destruct Hbuf as (self1 & Eself1 & Hbuf & Hes1 & Htr1 & Hf1).
  assert (Hwp : forall Q : unit -> FingerReach R -> Prop, Q tt self1 ->
            wp (match smoothed_action self with
                | None => modify (set_smoothed_action (Some u))
                | Some _ => ret tt
                end) Q self).
  { intros Q HQ. rewrite Eself1 in HQ. destruct (smoothed_action self); exact HQ. }
  apply Hwp. clear Hwp Eself1.
  wp_auto.
  match goal with E : smoothed_action self1 = Some ?a |- _ =>
    rewrite Hbuf in E; injection E as <- end.
  match goal with E : Np.add _ _ = Ok ?a |- _ => rename a into sa, E into Hadd end.
  pose proof Hes1 as Hes1'. unfold episode_state, configuration in Hes1'.
  injection Hes1' as Hnf Hsteps _ _ _ Hkeys Hsizes Hvcf Halpha _ _ Hgoal.
  rewrite Halpha in Hadd.
  cbn [steps_per_control set_smoothed_action]. rewrite Hsteps.
  destruct (Z.to_nat (steps_per_control self)) as [|n] eqn:En.
  - cbn [control_loop]. wp_auto.
    eapply wp_consequence; [apply compute_reward_spec|].
    cbv beta. intros rd self' (_ & _ & o & ip & iv & dist & Hnone & _).
    discriminate Hnone.
  - eapply wp_consequence;
      [apply (control_loop_first n sa); reflexivity|].
    cbv beta.
    intros res self2
      (driver0 & driver1 & g & ee & flat & e2g & o & Hset & Htick & Hg & Hee
       & Hflat & He2g & Ho & -> & Htrace & Hes2 & Hsa2).
    cbn [finger goal observations_keys trace set_smoothed_action] in *.
    wp_auto.
    eapply wp_consequence; [apply compute_reward_spec|].
    cbv beta. intros [reward done] self3 (-> & Hdone & o' & ip & iv & dist & Ho' & Hip & Hiv & Hdist & Hreward).
    cbn [fst snd] in *. subst done. injection Ho' as <-.
    wp_auto.
    match goal with E : Ok o = Ok ?a |- _ => injection E as <- end.
    pose proof Hes2 as Hes2'. unfold episode_state, configuration in Hes2'.
    cbn in Hes2'.
    injection Hes2' as Hnf2 Hsteps2 _ _ _ Hkeys2 Hsizes2 Hvcf2 _ _ _ Hgoal2.
    match goal with E : goal self2 = Some ?a |- _ =>
      rewrite Hgoal2, Hg in E; injection E as <- end.
    exists sa, driver1, g, o, ip, iv, dist. unfold step_outcome.
    exists driver0, ee, flat, e2g.
    rewrite Hkeys2, Hsizes2, Hkeys, Hsizes in Hip, Hiv.
    rewrite Hvcf2, Hvcf, Hsteps2, Hsteps in Hreward.
    rewrite Hf1 in Hset. rewrite Hgoal in Hg. rewrite Hkeys in Ho.
    rewrite Htr1 in Htrace.
    repeat split; try assumption.
    + lia.
    + rewrite Hreward. reflexivity.
    + rewrite Htrace. repeat f_equal. lia.
    + rewrite Hes2. cbn. exact Hes1.
Qed.

End Effects.

(** * The constructor *)

Section Constructor.
Context {R : Type} `{Backend R}.
Implicit Types self : FingerReach R.

Lemma init_smoothing_training sp sm :
  sp !! "is_test" = None ->
  init_smoothing sp = Ok sm ->
  exists start stop increase,
    training_schedule sp start stop increase
    /\ sm = mkSmoothing start 0%float increase (StopAt stop).
Proof.
  intros Htest. unfold init_smoothing, getitem, float_of_int.
  rewrite Htest. rewrite bool_decide_eq_false_2 by (intros [? [=]]).
  destruct (sp !! "num_episodes") as [ne|] eqn:Ene; [|discriminate].
  destruct (sp !! "stop_after") as [so|] eqn:Eso; [|discriminate].
  cbn [result_bind].
  destruct (int_of_float (ne * so)) as [stop|] eqn:Estop; [|discriminate].
  cbn [result_bind].
  destruct (sp !! "start_after") as [sa|] eqn:Esa; [|discriminate].
  cbn [result_bind].
  destruct (int_of_float (ne * sa)) as [start|] eqn:Estart; [|discriminate].
  cbn [result_bind].
  destruct (sp !! "final_alpha") as [fa|] eqn:Efa; [|discriminate].
  cbn [result_bind].
  destruct (is_infinity (float_of_Z (stop - start))); [discriminate|].
  cbn [result_bind].
  destruct (truediv fa (float_of_Z (stop - start))) as [inc|] eqn:Einc;
    [|discriminate].
  cbn [result_bind]. intros [= <-].
  exists start, stop, inc. split; [|reflexivity].
  split; [assumption|]. exists ne, sa, so, fa. auto 10.
Qed.

(** The object just before the constructor calls [reset]. *)
Lemma before_reset_inv c ev ft sp vcf ss urr fcs sync self :
  before_reset c ev ft sp vcf ss urr fcs sync = Ok self ->
  exists steps sm,
    init_steps_per_control c = Ok steps
    /\ init_smoothing sp = Ok sm
    /\ configuration self =
         (if bool_decide (ft = "single") then 1 else 3, steps,
          sm_start_episode sm, sm_increase_step sm, sm_stop_episode sm,
          ["joint_positions"; "joint_velocities"; "goal_position";
           "action_joint_positions"],
          (let n := if bool_decide (ft = "single") then 1 else 3 in
           [3 * n; 3 * n; 3 * n; 3 * n]),
          vcf)
    /\ smoothing_alpha self = sm_alpha sm
    /\ episode_count self = 0
    /\ smoothed_action self = None
    /\ goal self = None.
Proof.
  unfold before_reset.
  destruct (init_steps_per_control c) as [steps|]; [|discriminate].
  destruct (init_smoothing sp) as [sm|]; [|discriminate].
  cbn [result_bind].
  destruct (finger_new urr ev ft ss fcs) as [driver|]; [|discriminate].
  cbn [result_bind].
  match goal with |- match ?m ?s with _ => _ end = _ -> _ =>
    assert (Hk : preserves (keeps (fun self => (smoothing_state self, goal self))) m)
      by (keeps_auto);
    specialize (Hk s); unfold keeps in Hk;
    destruct (m s) as [[[]|e] self']; [|discriminate]
  end.
  intros [= ->]. cbn [snd] in Hk.
  apply pair_equal_spec in Hk as [Hs Hg]. unfold smoothing_state in Hs.
  apply pair_equal_spec in Hs as [Hs Hsa].
  apply pair_equal_spec in Hs as [Hs Hc].
  apply pair_equal_spec in Hs as [Hcfg Ha].
  exists steps, sm. repeat split; assumption.
Qed.

(** The constructor returns the object that its call of [reset] leaves. *)
Lemma init_inv c ev ft sp vcf ss urr fcs sync self :
  __init__ c ev ft sp vcf ss urr fcs sync = Ok self ->
  exists self0 o,
    before_reset c ev ft sp vcf ss urr fcs sync = Ok self0
    /\ reset self0 = (Ok o, self).
Proof.
  unfold __init__.
  destruct (before_reset c ev ft sp vcf ss urr fcs sync) as [self0|];
    [|discriminate].
  cbn [result_bind].
  destruct (reset self0) as [[o|e] self'] eqn:E; [|discriminate].
  intros [= ->]. eauto.
Qed.

End Constructor.

(** * The smoothing ramp *)

Lemma leb_refl_nonneg (a : float) : (0 <=? a)%float = true -> (a <=? a)%float = true.
Proof.
  rewrite !FloatAxioms.leb_spec. change (Prim2SF 0) with (S754_zero false).
  destruct (Prim2SF a) as [s|[]| |[] m e]; try discriminate; intros _;
    try reflexivity.
  apply SFleb_refl_finite.
Qed.

(** With a non-negative increase the ramp never comes down. *)
Lemma ramp_nonneg increase k :
  (0 <=? increase)%float = true -> (0 <=? ramp increase k)%float = true.
Proof.
  intros Hinc. induction k as [|k IH]; [reflexivity|].
  cbn [ramp Nat.iter]. now apply add_nonneg.
Qed.

Lemma ramp_steps_0 start stop : ramp_steps start stop 0 = 0%nat.
Proof. unfold ramp_steps. lia. Qed.

Lemma ramp_steps_on start stop count :
  0 <= count -> start <= count < stop ->
  ramp_steps start stop (count + 1) = S (ramp_steps start stop count).
Proof.
  intros Hc Hon. unfold ramp_steps.
  rewrite !Z.min_l by lia.
  rewrite <- Z2Nat.inj_succ by lia. f_equal. lia.
Qed.

Lemma ramp_steps_off start stop count :
  ~ (start <= count < stop) ->
  ramp_steps start stop (count + 1) = ramp_steps start stop count.
Proof.
  intros Hoff. unfold ramp_steps.
  destruct (Z_lt_le_dec count start) as [Hlt|Hge].
  - rewrite !Z2Nat.nonpos by lia. reflexivity.
  - rewrite !Z.min_r by lia. reflexivity.
Qed.

Section Ramp.
Context {R : Type} `{Backend R}.
Implicit Types self : FingerReach R.

Lemma on_ramp_spec self start stop :
  smoothing_start_episode self = start ->
  smoothing_stop_episode self = StopAt stop ->
  on_ramp self = (start <=? episode_count self) && (episode_count self <? stop).
Proof. unfold on_ramp. now intros -> ->. Qed.

(** A reset moves an environment that is on schedule to the next episode,
    on schedule. *)
Lemma on_schedule_reset start stop increase self :
  on_schedule start stop increase self ->
  on_schedule start stop increase (snd (reset self))
  /\ episode_count (snd (reset self)) = episode_count self + 1.
Proof.
  intros (Hstart & Hstop & Hinc & Hc & Ha).
  destruct (reset_smoothing self) as (Hcfg & Ha' & Hc' & _).
  unfold configuration in Hcfg. injection Hcfg as _ _ Hstart' Hinc' Hstop' _ _ _.
  split; [|assumption].
  unfold on_schedule. rewrite Hstart', Hinc', Hstop', Hc', Ha'.
  repeat split; try assumption; try lia.
  unfold next_alpha. rewrite (on_ramp_spec self start stop Hstart Hstop), Ha, Hinc.
  destruct (Z.leb_spec start (episode_count self));
    destruct (Z.ltb_spec (episode_count self) stop); cbn [andb];
    first [ rewrite ramp_steps_on by lia; reflexivity
          | rewrite ramp_steps_off by lia; reflexivity ].
Qed.

Lemma on_schedule_keeps start stop increase self self' :
  episode_state self' = episode_state self ->
  on_schedule start stop increase self -> on_schedule start stop increase self'.
Proof.
  unfold episode_state, configuration, on_schedule.
  intros [= _ _ -> -> -> _ _ _ -> -> _ _]. trivial.
Qed.

Lemma episode_state_count self self' :
  episode_state self' = episode_state self ->
  episode_count self' = episode_count self.
Proof. intros E. exact (f_equal (fun t => snd (fst (fst t))) E). Qed.

(** Every environment of a training run is on the schedule that the
    constructor computed, in an episode numbered from 0. *)
Lemma reachable_on_schedule sp self :
  sp !! "is_test" = None ->
  reachable sp self ->
  exists start stop increase,
    training_schedule sp start stop increase
    /\ on_schedule start stop increase self
    /\ 1 <= episode_count self.
Proof.
  intros Htest Hreach.
  induction Hreach as [c ev ft vcf ss urr fcs sync self Hinit
                      |self Hreach IH|action self Hreach IH|self Hreach IH].
  - apply init_inv in Hinit as (self0 & o & H0 & Hreset).
    apply before_reset_inv in H0 as (steps & sm & _ & Hsm & Hcfg & Ha & Hc & _).
    apply (init_smoothing_training sp sm Htest) in Hsm
      as (start & stop & inc & Hsched & ->).
    cbn in Hcfg, Ha. unfold configuration in Hcfg.
    injection Hcfg as _ _ Hstart Hinc Hstop _ _ _.
    assert (H0 : on_schedule start stop inc self0).
    { unfold on_schedule. rewrite Hstart, Hstop, Hinc, Hc, Ha.
      repeat split; try lia.
      rewrite ramp_steps_0. reflexivity. }
    apply on_schedule_reset in H0 as [H1 Hc1].
    rewrite Hreset in H1, Hc1. cbn [snd] in H1, Hc1.
    exists start, stop, inc. split; [assumption|]. split; [assumption|]. lia.
  - destruct IH as (start & stop & inc & Hsched & Hon & Hc).
    apply on_schedule_reset in Hon as [Hon Hc'].
    exists start, stop, inc. split; [assumption|]. split; [assumption|]. lia.
  - destruct IH as (start & stop & inc & Hsched & Hon & Hc).
    pose proof (step_keeps action self) as Hk. unfold keeps in Hk.
    exists start, stop, inc. split; [assumption|]. split.
    + eapply on_schedule_keeps; eassumption.
    + now rewrite (episode_state_count _ _ Hk).
  - destruct IH as (start & stop & inc & Hsched & Hon & Hc).
    pose proof (render_keeps self) as Hk. unfold keeps in Hk.
    apply pair_equal_spec in Hk as [Hk _].
    exists start, stop, inc. split; [assumption|]. split.
    + eapply on_schedule_keeps; eassumption.
    + now rewrite (episode_state_count _ _ Hk).
Qed.

End Ramp.

(** * The claims *)

(** The sign of a rounded number is the sign that was given. *)
Lemma binary_round_aux_finite_sign (s : bool) m e l s' m' e' :
  binary_round_aux prec emax s m e l = S754_finite s' m' e' -> s' = s.
Proof.
  unfold binary_round_aux.
  destruct (shr_fexp prec emax m e l) as [mrs e1].
  destruct (shr_fexp prec emax _ e1 loc_Exact) as [mrs2 e2].
  destruct (shr_m mrs2); [|destruct (e2 <=? emax - prec)|]; congruence.
Qed.

(** The product of a positive float and a float that is not negative
    truncates to an integer that is not negative. *)
Lemma int_of_float_mul_nonneg (a b : float) n :
  (0 <? a)%float = true -> (0 <=? b)%float = true ->
  int_of_float (a * b) = Ok n -> 0 <= n.
Proof.
  unfold int_of_float.
  rewrite FloatAxioms.ltb_spec, FloatAxioms.leb_spec, FloatAxioms.mul_spec.
  change (Prim2SF 0) with (S754_zero false).
  destruct (Prim2SF a) as [sa|[]| |[] ma ea]; try discriminate;
    destruct (Prim2SF b) as [sb|[]| |[] mb eb]; try discriminate;
    intros _ _; try discriminate; try (intros [= <-]; lia).
  destruct (SF64mul _ _) as [s|s| |s m e] eqn:E; try discriminate.
  - intros [= <-]. lia.
  - intros [= <-]. apply binary_round_aux_finite_sign in E. subst s.
    unfold SFtrunc. cbn [cond_Zopp]. apply Z.shiftl_nonneg. lia.
Qed.

(** C1, as amended.  In a training run (no ["is_test"] entry) whose
    parameters satisfy [0 <= start_after < stop_after <= 1] and
    [num_episodes > 0], every environment that a program can hold is in an
    episode numbered [episode_count - 1 >= 0], the number that
    [update_smoothing] printed for it.  With [start = int(num_episodes *
    start_after)], which is not negative, [stop = int(num_episodes *
    stop_after)], which differs from it, and the fixed increase
    [final_alpha / (stop - start)]: the coefficient is the increase added to
    0 once for every episode so far that lies on the ramp [start <= j <
    stop]; it is 0 in every episode before [start]; from episode [stop - 1]
    on it stays at the sum [0 + increase + ... + increase] of [stop - start]
    terms; a reset adds the increase when the next episode is on the ramp
    and leaves the coefficient alone otherwise; and with an increase that
    is not negative the coefficient never decreases from one reset to the
    next. *)
Theorem smoothing_ramp_schedule {R : Type} `{Backend R}
    (smoothing_params : gmap string float) (self : FingerReach R)
    num_episodes start_after stop_after final_alpha :
  smoothing_params !! "is_test" = None ->
  smoothing_params !! "num_episodes" = Some num_episodes ->
  smoothing_params !! "start_after" = Some start_after ->
  smoothing_params !! "stop_after" = Some stop_after ->
  smoothing_params !! "final_alpha" = Some final_alpha ->
  (0 <=? start_after)%float = true ->
  (start_after <? stop_after)%float = true ->
  (stop_after <=? 1)%float = true ->
  (0 <? num_episodes)%float = true ->
  reachable smoothing_params self ->
  exists start stop,
    int_of_float (num_episodes * start_after) = Ok start
    /\ int_of_float (num_episodes * stop_after) = Ok stop
    /\ 0 <= start
    /\ start <> stop
    /\ let increase := (final_alpha / float_of_Z (stop - start))%float in
       let episode := episode_count self - 1 in
       smoothing_increase_step self = increase
       /\ 0 <= episode
       /\ smoothing_alpha self
          = ramp increase (ramp_steps start stop (episode + 1))
       /\ (episode < start -> smoothing_alpha self = 0%float)
       /\ (stop - 1 <= episode ->
           smoothing_alpha self = ramp increase (Z.to_nat (stop - start)))
       /\ episode_count (snd (reset self)) - 1 = episode + 1
       /\ smoothing_alpha (snd (reset self))
          = (if (start <=? episode + 1) && (episode + 1 <? stop)
             then (smoothing_alpha self + increase)%float
             else smoothing_alpha self)
       /\ ((0 <=? increase)%float = true ->
           (smoothing_alpha self <=? smoothing_alpha (snd (reset self)))%float
           = true).
Proof.
  intros Htest Hne Hsa Hso Hfa Hsa0 _ _ Hne0 Hreach.
  destruct (reachable_on_schedule _ _ Htest Hreach)
    as (start & stop & inc & Hsched & Hon & Hc).
  destruct (on_schedule_reset _ _ _ _ Hon) as [_ Hc'].
  destruct Hon as (Hstart & Hstop & Hinc & _ & Ha).
  destruct (reset_smoothing self) as (_ & Ha' & _ & _).
  destruct Hsched as (_ & ne & sa & so & fa & Hne' & Hsa' & Hso' & Hfa'
                      & Estart & Estop & Ediv).
  rewrite Hne in Hne'. injection Hne' as <-.
  rewrite Hsa in Hsa'. injection Hsa' as <-.
  rewrite Hso in Hso'. injection Hso' as <-.
  rewrite Hfa in Hfa'. injection Hfa' as <-.
  assert (Hstart0 : 0 <= start)
    by (eapply int_of_float_mul_nonneg; eassumption).
  unfold truediv in Ediv.
  destruct (float_of_Z (stop - start) =? 0)%float eqn:Ezero; [discriminate|].
  injection Ediv as Ediv.
  assert (Hdiff : start <> stop).
  { intros ->. rewrite Z.sub_diag in Ezero. discriminate Ezero. }
  exists start, stop.
  split; [assumption|]. split; [assumption|]. split; [assumption|].
  split; [assumption|].
  cbv zeta. rewrite Ediv.
  replace (episode_count self - 1 + 1) with (episode_count self) by lia.
  assert (Hnext : smoothing_alpha (snd (reset self))
                  = if (start <=? episode_count self) && (episode_count self <? stop)
                    then (smoothing_alpha self + inc)%float
                    else smoothing_alpha self).
  { rewrite Ha'. unfold next_alpha.
    now rewrite (on_ramp_spec self start stop Hstart Hstop), Hinc. }
  split; [assumption|]. split; [lia|]. split; [assumption|].
  split; [|split; [|split; [lia|split]]].
  - intros Hlt. rewrite Ha. unfold ramp_steps.
    rewrite Z2Nat.nonpos by lia. reflexivity.
  - intros Hge. rewrite Ha. unfold ramp_steps.
    now rewrite Z.min_r, Z.max_r by lia.
  - exact Hnext.
  - intros Hnonneg. rewrite Hnext.
    assert (H0 : (0 <=? smoothing_alpha self)%float = true)
      by (rewrite Ha; now apply ramp_nonneg).
    destruct ((start <=? episode_count self) && (episode_count self <? stop)).
    + now apply add_nonneg.
    + now apply leb_refl_nonneg.
Qed.

(** A training run with the ramp from episode 2 to episode 8 and the
    increase [0.9 / 6]: the constructed environment is in episode 0, before
    the ramp; after ten more resets the coefficient is the sum of six
    increases. *)
Lemma smoothing_ramp_schedule_witness :
  exists self,
    make 0.02 "single" (training_params 10 0.2 0.8 0.9) = Ok self
    /\ episode_count self - 1 = 0
    /\ smoothing_alpha self = 0%float
    /\ smoothing_increase_step self = (0.9 / 6)%float
    /\ let later := Nat.iter 10 (fun s => snd (reset s)) self in
       episode_count later - 1 = 10
       /\ smoothing_alpha later = ramp (0.9 / 6) 6
       /\ smoothing_alpha (snd (reset later)) = smoothing_alpha later.
Proof.
  eexists. split; [vm_compute; reflexivity|].
  lazymatch goal with
  | |- episode_count ?env - 1 = 0 /\ _ =>
      assert (Hreach : reachable (training_params 10 0.2 0.8 0.9) env)
        by (apply (reach_init _ 0.02%float false "single" 0%float "separated"
                     false "0" false);
            vm_compute; reflexivity);
      assert (Hlater : reachable (training_params 10 0.2 0.8 0.9)
                         (Nat.iter 10 (fun e => snd (reset e)) env))
        by (do 10 apply reach_reset; exact Hreach);
      pose proof (fun e => smoothing_ramp_schedule
                    (training_params 10 0.2 0.8 0.9) e
                    10%float 0.2%float 0.8%float 0.9%float
                    eq_refl eq_refl eq_refl eq_refl eq_refl
                    eq_refl eq_refl eq_refl eq_refl) as Hramp
  end.
  destruct (Hramp _ Hreach)
    as (start & stop & Estart & Estop & _ & _ & Hinc & _ & _ & Hbefore & _).
  vm_compute in Estart. injection Estart as <-.
  vm_compute in Estop. injection Estop as <-.
  split; [reflexivity|]. split; [apply Hbefore; reflexivity|].
  split; [exact Hinc|].
  destruct (Hramp _ Hlater)
    as (start & stop & Estart & Estop & _ & _ & _ & _ & _ & _ & Hafter & _
        & Hnext & _).
  vm_compute in Estart. injection Estart as <-.
  vm_compute in Estop. injection Estop as <-.
  cbv zeta. split; [reflexivity|].
  split; [apply Hafter; vm_compute; discriminate|].
  rewrite Hnext. vm_compute. reflexivity.
Defined.

(** C1 as stated fails.  With [num_episodes = 10], [start_after = 0],
    [stop_after = 1] and [final_alpha = 0.9], the coefficient of episode
    [10 = int(1 * 10)] is not [0.9]; and with [final_alpha = -0.9] each
    reset on the ramp lowers the coefficient. *)
Lemma smoothing_ramp_misses_final_alpha :
  ((0 <=? 0)%float && (0 <? 1)%float && (1 <=? 1)%float && (0 <? 10)%float
   = true)
  /\ (exists self,
        make 0.02 "single" (training_params 10 0 1 0.9) = Ok self
        /\ let later := Nat.iter 10 (fun s => snd (reset s)) self in
           episode_count later - 1 = 10
           /\ int_of_float (10 * 1) = Ok 10
           /\ smoothing_alpha later = 0.8999999999999998%float
           /\ (smoothing_alpha later =? 0.9)%float = false)
  /\ (exists self,
        make 0.02 "single" (training_params 10 0 1 (-0.9)) = Ok self
        /\ (smoothing_alpha (snd (reset self)) <? smoothing_alpha self)%float
           = true).
Proof.
  split; [reflexivity|]. split.
  - eexists. split; [vm_compute; reflexivity|].
    vm_compute. auto.
  - eexists. split; [vm_compute; reflexivity|].
    vm_compute. reflexivity.
Qed.

Lemma init_steps_per_control_inv c n :
  init_steps_per_control c = Ok n ->
  round (c / simulation_rate_s) = Ok n
  /\ (abs (c - float_of_Z n * simulation_rate_s) <=? 0.000001)%float = true.
Proof.
  unfold init_steps_per_control, truediv, float_of_int.
  change (simulation_rate_s =? 0)%float with false. cbn [result_bind].
  destruct (round (c / simulation_rate_s)) as [k|]; [|discriminate].
  cbn [result_bind].
  destruct (is_infinity (float_of_Z k)); [discriminate|]. cbn [result_bind].
  destruct (abs (c - float_of_Z k * simulation_rate_s) <=? 1e-06)%float eqn:E;
    [|discriminate].
  intros [= <-]. split; [reflexivity|exact E].
Qed.

Lemma init_steps_per_control_rejects c n :
  round (c / simulation_rate_s) = Ok n ->
  (0.000001 <? abs (c - float_of_Z n * simulation_rate_s))%float = true ->
  init_steps_per_control c = Raise AssertionError.
Proof.
  intros Hround Hlt.
  unfold init_steps_per_control, truediv, float_of_int.
  change (simulation_rate_s =? 0)%float with false. cbn [result_bind].
  rewrite Hround. cbn [result_bind].
  rewrite (finite_not_infinity _ (round_converts _ _ Hround)).
  cbn [result_bind]. now rewrite (ltb_not_leb _ _ Hlt).
Qed.

Section ConstructorClaims.
Context {R : Type} `{Backend R}.
Implicit Types self : FingerReach R.

(** The configuration of a constructed environment is the one that
    [before_reset] stored. *)
Lemma init_configuration c ev ft sp vcf ss urr fcs sync self :
  __init__ c ev ft sp vcf ss urr fcs sync = Ok self ->
  exists steps sm,
    init_steps_per_control c = Ok steps
    /\ init_smoothing sp = Ok sm
    /\ configuration self =
         (if bool_decide (ft = "single") then 1 else 3, steps,
          sm_start_episode sm, sm_increase_step sm, sm_stop_episode sm,
          ["joint_positions"; "joint_velocities"; "goal_position";
           "action_joint_positions"],
          (let n := if bool_decide (ft = "single") then 1 else 3 in
           [3 * n; 3 * n; 3 * n; 3 * n]),
          vcf).
Proof.
  intros Hinit. apply init_inv in Hinit as (self0 & o & H0 & Hreset).
  apply before_reset_inv in H0 as (steps & sm & Hsteps & Hsm & Hcfg & _).
  exists steps, sm. split; [assumption|]. split; [assumption|].
  destruct (reset_smoothing self0) as (Hcfg' & _).
  rewrite Hreset in Hcfg'. cbn [snd] in Hcfg'. now rewrite Hcfg'.
Qed.

(** A constructor whose first checks fail raises what they raise. *)
Lemma init_steps_raise c ev ft sp vcf ss urr fcs sync e :
  init_steps_per_control c = Raise e ->
  __init__ c ev ft sp vcf ss urr fcs sync = Raise e.
Proof. intros E. unfold __init__, before_reset. now rewrite E. Qed.


End ConstructorClaims.

(** C2.  The constructor stores [N = int(round(control_rate_s / 0.004))]
    and accepts it only if [|control_rate_s - N * 0.004| <= 1e-6]; whenever
    that distance exceeds [1e-6] the construction fails with the
    [AssertionError] of the check; and 0.004 gives [N = 1], 0.02 gives
    [N = 5], and 0.01 is rejected by the assertion. *)
Theorem control_rate_validation {R : Type} `{Backend R} :
  (forall c ev ft sp vcf ss urr fcs sync (self : FingerReach R),
     __init__ c ev ft sp vcf ss urr fcs sync = Ok self ->
     round (c / 0.004) = Ok (steps_per_control self)
     /\ (abs (c - float_of_Z (steps_per_control self) * 0.004) <=? 0.000001)%float
        = true)
  /\ (forall c ev ft sp vcf ss urr fcs sync n,
        round (c / 0.004) = Ok n ->
        (0.000001 <? abs (c - float_of_Z n * 0.004))%float = true ->
        __init__ (R := R) c ev ft sp vcf ss urr fcs sync = Raise AssertionError)
  /\ init_steps_per_control 0.004 = Ok 1
  /\ init_steps_per_control 0.02 = Ok 5
  /\ init_steps_per_control 0.01 = Raise AssertionError.
Proof.
  split; [|split; [|repeat split; vm_compute; reflexivity]].
  - intros c ev ft sp vcf ss urr fcs sync self Hinit.
    apply init_configuration in Hinit as (steps & sm & Hsteps & _ & Hcfg).
    unfold configuration in Hcfg. injection Hcfg as _ -> _ _ _ _ _ _.
    now apply init_steps_per_control_inv.
  - intros c ev ft sp vcf ss urr fcs sync n Hround Hlt.
    apply init_steps_raise. now apply (init_steps_per_control_rejects c n).
Qed.

(** The three control rates of the scenarios on the reference driver. *)
Lemma control_rate_validation_witness :
  (exists self, make 0.004 "single" (training_params 10 0.2 0.8 0.9) = Ok self
                /\ steps_per_control self = 1)
  /\ (exists self, make 0.02 "single" (training_params 10 0.2 0.8 0.9) = Ok self
                   /\ steps_per_control self = 5)
  /\ round (0.01 / 0.004) = Ok 2
  /\ (0.000001 <? abs (0.01 - float_of_Z 2 * 0.004))%float = true
  /\ make 0.01 "single" (training_params 10 0.2 0.8 0.9) = Raise AssertionError.
Proof.
  split; [|split; [|split; [|split]]].
  - eexists. split; vm_compute; reflexivity.
  - eexists. split; vm_compute; reflexivity.
  - vm_compute. reflexivity.
  - vm_compute. reflexivity.
  - apply (proj1 (proj2 (control_rate_validation (R := Kinematic.robot))))
      with (n := 2); vm_compute; reflexivity.
Defined.

Lemma init_smoothing_equal_thresholds sp ne sa so k :
  sp !! "is_test" = None ->
  sp !! "num_episodes" = Some ne ->
  sp !! "start_after" = Some sa ->
  sp !! "stop_after" = Some so ->
  int_of_float (ne * so) = Ok k ->
  int_of_float (ne * sa) = Ok k ->
  init_smoothing sp = Raise ZeroDivisionError
  \/ init_smoothing sp = Raise (KeyError "final_alpha").
Proof.
  intros Htest Hne Hsa Hso Hstop Hstart.
  unfold init_smoothing, getitem.
  rewrite Htest, bool_decide_eq_false_2 by (intros [? [=]]).
  rewrite Hne, Hso. cbn [result_bind]. rewrite Hstop. cbn [result_bind].
  rewrite Hsa. cbn [result_bind]. rewrite Hstart. cbn [result_bind].
  destruct (sp !! "final_alpha") as [fa|]; [left|right; reflexivity].
  cbn [result_bind]. rewrite Z.sub_diag, float_of_int_0. cbn [result_bind].
  rewrite truediv_zero by (left; reflexivity). reflexivity.
Qed.

(** C9.  In a training run the constructor divides [final_alpha] by the
    difference of the truncated thresholds, so whenever
    [int(num_episodes * stop_after)] and [int(num_episodes * start_after)]
    coincide the construction raises [ZeroDivisionError]; this happens for
    [num_episodes = 10], [start_after = 0.51], [stop_after = 0.55], which
    satisfies [0 <= start_after < stop_after <= 1] and [num_episodes > 0]. *)
Theorem truncated_thresholds_divide_by_zero :
  (forall (R : Type) (B : Backend R) c ev ft sp vcf ss urr fcs sync
          ne sa so fa steps k,
     sp !! "is_test" = None ->
     sp !! "num_episodes" = Some ne ->
     sp !! "start_after" = Some sa ->
     sp !! "stop_after" = Some so ->
     sp !! "final_alpha" = Some fa ->
     init_steps_per_control c = Ok steps ->
     int_of_float (ne * so) = Ok k ->
     int_of_float (ne * sa) = Ok k ->
     __init__ (R := R) c ev ft sp vcf ss urr fcs sync = Raise ZeroDivisionError)
  /\ ((0 <=? 0.51)%float && (0.51 <? 0.55)%float && (0.55 <=? 1)%float
      && (0 <? 10)%float = true)
  /\ int_of_float (10 * 0.51) = Ok 5
  /\ int_of_float (10 * 0.55) = Ok 5
  /\ make 0.02 "single" (training_params 10 0.51 0.55 0.9)
     = Raise ZeroDivisionError.
Proof.
  split; [|repeat split; vm_compute; reflexivity].
  intros R B c ev ft sp vcf ss urr fcs sync ne sa so fa steps k
    Htest Hne Hsa Hso Hfa Hsteps Hstop Hstart.
  destruct (init_smoothing_equal_thresholds sp ne sa so k Htest Hne Hsa Hso
              Hstop Hstart) as [E|E].
  - unfold __init__, before_reset. rewrite Hsteps. cbn [result_bind].
    rewrite E. reflexivity.
  - exfalso. revert E. unfold init_smoothing, getitem.
    rewrite Htest, bool_decide_eq_false_2 by (intros [? [=]]).
    rewrite Hne, Hso. cbn [result_bind]. rewrite Hstop. cbn [result_bind].
    rewrite Hsa. cbn [result_bind]. rewrite Hstart. cbn [result_bind].
    rewrite Hfa. cbn [result_bind]. rewrite Z.sub_diag, float_of_int_0.
    cbn [result_bind]. rewrite truediv_zero by (left; reflexivity). discriminate.
Qed.

(** The example of C9 through the general statement. *)
Lemma truncated_thresholds_divide_by_zero_witness :
  make 0.02 "single" (training_params 10 0.51 0.55 0.9) = Raise ZeroDivisionError.
Proof.
  apply (proj1 truncated_thresholds_divide_by_zero Kinematic.robot _
           0.02%float false "single" (training_params 10 0.51 0.55 0.9)
           0%float "separated" false "0" false
           10%float 0.51%float 0.55%float 0.9%float 5 5);
    vm_compute; reflexivity.
Defined.




(** C10.  Any [finger_type] other than ["single"] gives [num_fingers = 3],
    with observation blocks of nine values; the constructor does not look
    at [finger_type] in any other way, so it does with an unknown value
    exactly what it does with ["tri"] whenever the driver does. *)
Theorem unknown_finger_type_is_tri {R : Type} `{Backend R}
    c ev (ft : string) sp vcf ss urr fcs sync :
  ft <> "single" ->
  (forall self : FingerReach R,
     __init__ c ev ft sp vcf ss urr fcs sync = Ok self ->
     num_fingers self = 3 /\ observations_sizes self = [9; 9; 9; 9])
  /\ (finger_new urr ev ft ss fcs = finger_new urr ev "tri" ss fcs ->
      __init__ (R := R) c ev ft sp vcf ss urr fcs sync
      = __init__ c ev "tri" sp vcf ss urr fcs sync).
Proof.
  intros Hft. split.
  - intros self Hinit.
    apply init_configuration in Hinit as (steps & sm & _ & _ & Hcfg).
    rewrite bool_decide_eq_false_2 in Hcfg by assumption.
    unfold configuration in Hcfg. injection Hcfg as -> _ _ _ _ _ -> _.
    split; reflexivity.
  - intros Hdriver. unfold __init__, before_reset.
    rewrite Hdriver, bool_decide_eq_false_2 by assumption. reflexivity.
Qed.

(** An unknown finger type on the reference driver. *)
Lemma unknown_finger_type_is_tri_witness :
  (forall self,
     make 0.02 "quadruped" (training_params 10 0.2 0.8 0.9) = Ok self ->
     num_fingers self = 3 /\ observations_sizes self = [9; 9; 9; 9])
  /\ make 0.02 "quadruped" (training_params 10 0.2 0.8 0.9)
     = make 0.02 "tri" (training_params 10 0.2 0.8 0.9)
  /\ exists self, make 0.02 "quadruped" (training_params 10 0.2 0.8 0.9) = Ok self.
Proof.
  assert (Hft : "quadruped" <> "single") by discriminate.
  pose proof (unknown_finger_type_is_tri 0.02%float false "quadruped"
                (training_params 10 0.2 0.8 0.9) 0%float "separated" false "0"
                false Hft) as [Hnum Hsame].
  split; [exact Hnum|]. split; [apply Hsame; reflexivity|].
  eexists. vm_compute. reflexivity.
Defined.

Section StepClaims.
Context {R : Type} `{Backend R}.
Implicit Types self : FingerReach R.

(** A [step] that returned has the outcome of [step_spec]. *)
Lemma step_ok action self res self' :
  step action self = (Ok res, self') ->
  exists sa driver1 g o ip iv dist,
    step_outcome self action res self' sa driver1 g o ip iv dist.
Proof. intros E. exact (wp_ok _ _ _ _ _ (step_spec action self) E). Qed.

Lemma commands_app t1 t2 : commands (t1 ++ t2) = commands t1 ++ commands t2.
Proof. apply omap_app. Qed.

Lemma ticks_app t1 t2 : ticks (t1 ++ t2) = ticks t1 ++ ticks t2.
Proof. apply omap_app. Qed.

Lemma logged_observations_app t1 t2 :
  logged_observations (t1 ++ t2) = logged_observations t1 ++ logged_observations t2.
Proof. apply omap_app. Qed.

Lemma commands_later_ticks sa n :
  commands (concat (repeat (later_tick sa) n)) = repeat (sa, "position") n.
Proof. induction n as [|n IH]; [reflexivity|]. cbn. now rewrite <- IH. Qed.

Lemma ticks_later_ticks sa n :
  ticks (concat (repeat (later_tick sa) n)) = repeat false n.
Proof. induction n as [|n IH]; [reflexivity|]. cbn. now rewrite <- IH. Qed.

Lemma logged_observations_later_ticks sa n :
  logged_observations (concat (repeat (later_tick sa) n)) = [].
Proof. induction n as [|n IH]; [reflexivity|]. cbn. exact IH. Qed.

(** The commands of a [step] that returned: its smoothed action, once per
    tick. *)
Lemma step_commands action self res self' sa :
  step action self = (Ok res, self') ->
  smoothed_action self' = Some sa ->
  commands (trace self')
  = commands (trace self)
    ++ repeat (sa, "position") (Z.to_nat (steps_per_control self)).
Proof.
  intros E Hsa.
  apply step_ok in E as (sa' & driver1 & g & o & ip & iv & dist & Hout).
  destruct Hout as (driver0 & ee & flat & e2g & _ & Hsteps & _ & _ & _ & _ & _
                    & _ & _ & _ & _ & _ & _ & Htrace & _ & Hsa').
  rewrite Hsa in Hsa'. injection Hsa' as <-.
  rewrite Htrace, !commands_app, commands_later_ticks. cbn.
  replace (Z.to_nat (steps_per_control self))
    with (S (Z.to_nat (steps_per_control self) - 1)) at 2 by lia.
  reflexivity.
Qed.

End StepClaims.

(** C7.  Whatever the state of the environment, a [step] that returns
    returns [done = False] and [info['is_success'] = 0]. *)
Theorem step_never_done {R : Type} `{Backend R} (self : FingerReach R)
    action observation reward done is_success self' :
  step action self = (Ok (observation, reward, done, is_success), self') ->
  done = false /\ is_success = 0%float.
Proof.
  intros E.
  apply step_ok in E as (sa & driver1 & g & o & ip & iv & dist & Hout).
  destruct Hout as (driver0 & ee & flat & e2g & Hout).
  destruct Hout as (_ & _ & _ & _ & _ & _ & _ & _ & _ & _ & _ & _ & Hres & _).
  injection Hres as _ _ -> ->. split; reflexivity.
Qed.

(** A step of a constructed environment on the reference driver. *)
Lemma step_never_done_witness :
  exists self observation reward done is_success self',
    make 0.02 "single" (training_params 10 0.2 0.8 0.9) = Ok self
    /\ step [0.1; 0.2; 0.3]%float self
       = (Ok (observation, reward, done, is_success), self')
    /\ done = false /\ is_success = 0%float.
Proof.
  destruct (make 0.02 "single" (training_params 10 0.2 0.8 0.9))
    as [self|e] eqn:Emake; [|vm_compute in Emake; discriminate Emake].
  assert (Eself : make 0.02 "single" (training_params 10 0.2 0.8 0.9) = Ok self)
    by exact Emake.
  vm_compute in Eself. injection Eself as Eself.
  destruct (step [0.1; 0.2; 0.3]%float self)
    as [[[[[observation reward] done] is_success]|e] self'] eqn:Estep.
  - exists self, observation, reward, done, is_success, self'.
    split; [reflexivity|]. split; [exact Estep|].
    exact (step_never_done _ _ _ _ _ _ _ Estep).
  - exfalso. rewrite <- Eself in Estep. vm_compute in Estep. discriminate Estep.
Defined.

(** ** The weighted average of [step] *)

Lemma np_broadcast_same_length op (a b : Np.vec) :
  length a = length b -> Np.broadcast op a b = Ok (zip_with op a b).
Proof. intros E. unfold Np.broadcast. now rewrite E, Nat.eqb_refl. Qed.

Lemma zip_with_scaled alpha (previous raw : Np.vec) :
  zip_with PrimFloat.add (Np.scale alpha previous)
    (Np.scale (1 - alpha)%float raw)
  = zip_with (average alpha) previous raw.
Proof.
  revert raw. induction previous as [|p previous IH]; intros [|u raw];
    try reflexivity.
  cbn. now rewrite <- IH.
Qed.

Lemma zip_with_average_same alpha (raw : Np.vec) :
  zip_with (average alpha) raw raw = map (fun x => average alpha x x) raw.
Proof. induction raw as [|u raw IH]; [reflexivity|]. cbn. now rewrite IH. Qed.

(** The smoothed action when the buffer holds a vector of the length of the
    raw action. *)
Lemma np_add_scaled alpha (previous raw : Np.vec) :
  length previous = length raw ->
  Np.add (Np.scale alpha previous) (Np.scale (1 - alpha)%float raw)
  = Ok (zip_with (average alpha) previous raw).
Proof.
  intros E. unfold Np.add.
  rewrite np_broadcast_same_length
    by (unfold Np.scale; now rewrite !length_map).
  now rewrite zip_with_scaled.
Qed.





Section BeforeReset.
Context {R : Type} `{Backend R}.
Implicit Types self : FingerReach R.

Lemma wp_any {A} (m : M R A) (Q : A -> FingerReach R -> Prop) self :
  (forall a self', Q a self') -> wp m Q self.
Proof. intros HQ. unfold wp. destruct (m self) as [[a|e] self']; auto. Qed.

(** A [reset] that returns has defined the goal. *)
Lemma reset_defines_goal self o self' :
  reset self = (Ok o, self') -> exists g, goal self' = Some g.
Proof.
  intros E.
  refine (wp_ok reset (fun _ s => exists g, goal s = Some g) self o self' _ E).
  unfold reset.
  apply wp_bind, wp_any. intros _ s1.
  apply wp_bind, wp_any. intros _ s2.
  wp_auto.
  eapply wp_consequence; [apply get_observation_spec|].
  cbv beta. intros o1 s3 (g & _ & _ & _ & Hg & _ & _ & _ & _ & ->).
  wp_auto. eauto.
Qed.

Lemma bind_getattr_some {A B} name (f : FingerReach R -> option A)
    (k : A -> M R B) self a :
  f self = Some a -> bind (getattr name f) k self = k a self.
Proof. intros E. unfold bind, getattr. now rewrite E. Qed.

Lemma bind_getattr_none {A B} name (f : FingerReach R -> option A)
    (k : A -> M R B) self :
  f self = None ->
  bind (getattr name f) k self = (Raise (AttributeError name), self).
Proof. intros E. unfold bind, getattr. now rewrite E. Qed.

Lemma bind_lift_ok {A B} (r : result A) (k : A -> M R B) self a :
  r = Ok a -> bind (lift r) k self = k a self.
Proof. now intros ->. Qed.

Lemma bind_driver_call {A B} ev (op : R -> result A * R) (k : A -> M R B)
    self a driver :
  op (finger self) = (Ok a, driver) ->
  bind (driver_call ev op) k self = k a (set_finger driver (emit ev self)).
Proof. intros E. unfold bind, driver_call. now rewrite E. Qed.

(** A first step without a goal: the control loop is skipped, or its first
    tick goes through and the observation asks for the goal. *)
Lemma step_without_goal self action :
  goal self = None ->
  smoothed_action self = None ->
  let u := unscale_action (num_fingers self) action in
  let sa := map (fun x => average (smoothing_alpha self) x x) u in
  steps_per_control self <= 0
  \/ (exists driver0 driver1,
        set_action sa "position" (finger self) = (Ok tt, driver0)
        /\ step_robot true driver0 = (Ok tt, driver1)
        /\ forward_kinematics (observation_position driver1) <> []) ->
  fst (step action self) = Raise (AttributeError "goal").
Proof.
  intros Hgoal Hbuf u sa Hloop.
  unfold step. rewrite !bind_gets. rewrite Hbuf.
  rewrite bind_modify, bind_gets.
  rewrite (bind_getattr_some _ _ _ _ u) by reflexivity.
  fold u. cbn [smoothing_alpha set_smoothed_action].
  rewrite (bind_lift_ok _ _ _ sa)
    by (rewrite np_add_scaled by reflexivity;
        now rewrite zip_with_average_same).
  rewrite bind_modify, bind_gets.
  cbn [steps_per_control set_smoothed_action].
  destruct Hloop as [Hskip|(driver0 & driver1 & Hset & Htick & Hfk)].
  - rewrite Z2Nat.nonpos by assumption. cbn [control_loop].
    rewrite bind_ret. now rewrite bind_getattr_none by exact Hgoal.
  - destruct (Z.to_nat (steps_per_control self)) as [|n].
    + cbn [control_loop]. rewrite bind_ret.
      now rewrite bind_getattr_none by exact Hgoal.
    + cbn [control_loop]. rewrite !bind_assoc.
      rewrite (bind_getattr_some _ _ _ _ sa) by reflexivity.
      rewrite !bind_assoc.
      rewrite (bind_driver_call _ _ _ _ tt driver0) by exact Hset.
      rewrite !bind_assoc. cbn [is_none].
      rewrite (bind_driver_call _ _ _ _ tt driver1) by exact Htick.
      rewrite !bind_assoc.
      rewrite (bind_getattr_some _ _ _ _ sa) by reflexivity.
      unfold _get_observation. rewrite !bind_assoc, bind_gets.
      cbn [finger set_finger].
      destruct (forward_kinematics (observation_position driver1))
        as [|tip tips] eqn:Etips; [contradiction|].
      rewrite !bind_assoc.
      rewrite (bind_lift_ok _ _ _ (concat (tip :: tips))) by reflexivity.
      rewrite !bind_assoc, bind_gets, !bind_assoc, bind_gets, !bind_assoc.
      now rewrite bind_getattr_none by exact Hgoal.
Qed.

End BeforeReset.

(** C8.  A [step] on an environment without a goal never returns: it raises.
    The object that the constructor has built before its final call of
    [reset] has no goal and no buffer; the constructor returns what that
    call of [reset] leaves, and it has a goal.  On the object without goal
    the exception is [AttributeError] for the attribute [goal], provided
    the first command and tick of the control loop (if it runs) go through
    and the kinematics give a tip position. *)
Theorem step_before_reset_fails {R : Type} `{Backend R} :
  (forall (self : FingerReach R) action,
     goal self = None -> exists e, fst (step action self) = Raise e)
  /\ (forall c ev ft sp vcf ss urr fcs sync (self : FingerReach R),
        before_reset c ev ft sp vcf ss urr fcs sync = Ok self ->
        goal self = None /\ smoothed_action self = None)
  /\ (forall c ev ft sp vcf ss urr fcs sync (self : FingerReach R),
        __init__ c ev ft sp vcf ss urr fcs sync = Ok self ->
        exists self0 o g,
          before_reset c ev ft sp vcf ss urr fcs sync = Ok self0
          /\ reset self0 = (Ok o, self)
          /\ goal self = Some g)
  /\ (forall (self : FingerReach R) action,
        goal self = None ->
        smoothed_action self = None ->
        let u := unscale_action (num_fingers self) action in
        let sa := map (fun x => average (smoothing_alpha self) x x) u in
        steps_per_control self <= 0
        \/ (exists driver0 driver1,
              set_action sa "position" (finger self) = (Ok tt, driver0)
              /\ step_robot true driver0 = (Ok tt, driver1)
              /\ forward_kinematics (observation_position driver1) <> []) ->
        fst (step action self) = Raise (AttributeError "goal")).
Proof.
  split; [|split; [|split]].
  - intros self action Hgoal.
    destruct (step action self) as [[res|e] self'] eqn:E; [|eauto].
    apply step_ok in E as (sa & driver1 & g & o & ip & iv & dist & Hout).
    destruct Hout as (driver0 & ee & flat & e2g & _ & _ & _ & _ & Hg & _).
    congruence.
  - intros c ev ft sp vcf ss urr fcs sync self Hbefore.
    apply before_reset_inv in Hbefore
      as (steps & sm & _ & _ & _ & _ & _ & Hbuf & Hgoal).
    auto.
  - intros c ev ft sp vcf ss urr fcs sync self Hinit.
    apply init_inv in Hinit as (self0 & o & Hbefore & Hreset).
    destruct (reset_defines_goal _ _ _ Hreset) as [g Hg].
    exists self0, o, g. auto.
  - apply step_without_goal.
Qed.

(** The object that the constructor holds before its [reset], on the
    reference driver: a step raises the [AttributeError]. *)
Lemma step_before_reset_fails_witness :
  exists self,
    before_reset 0.02 false "single" (training_params 10 0.2 0.8 0.9) 0
      "separated" false "0" false = Ok self
    /\ (goal self = None /\ smoothed_action self = None)
    /\ (exists e, fst (step [0.1; 0.2; 0.3]%float self) = Raise e)
    /\ fst (step [0.1; 0.2; 0.3]%float self) = Raise (AttributeError "goal").
Proof.
  eexists. split; [vm_compute; reflexivity|].
  pose proof (step_before_reset_fails (R := Kinematic.robot))
    as (Hfails & Hbefore & _ & Hattr).
  split; [|split].
  - apply (Hbefore 0.02%float false "single"
             (training_params 10 0.2 0.8 0.9) 0%float "separated" false "0"
             false).
    vm_compute. reflexivity.
  - apply Hfails. reflexivity.
  - apply Hattr; [reflexivity|reflexivity|].
    right. eexists _, _. split; [vm_compute; reflexivity|].
    split; [vm_compute; reflexivity|]. vm_compute. discriminate.
Defined.

(** ** The reward *)

Lemma key_to_index_standard (n : Z) :
  let index :=
    key_to_index
      ["joint_positions"; "joint_velocities"; "goal_position";
       "action_joint_positions"] [n; n; n; n] in
  index !! "joint_positions" = Some (0, 0 + n)
  /\ index !! "joint_velocities" = Some (0 + n, 0 + n + n).
Proof.
  cbv zeta. unfold key_to_index. cbn [key_to_index_from].
  split.
  - rewrite !lookup_insert_ne by discriminate. apply lookup_insert_eq.
  - rewrite !lookup_insert_ne by discriminate. apply lookup_insert_eq.
Qed.

Lemma flatten_observation_standard ee jp jv e2g flat action :
  flatten_observation (observation_dict ee jp jv e2g flat action)
    ["joint_positions"; "joint_velocities"; "goal_position";
     "action_joint_positions"]
  = Ok (jp ++ jv ++ flat ++ action ++ []).
Proof.
  cbn [flatten_observation]. unfold observation_dict.
  repeat (first [ rewrite lookup_insert_eq
                | rewrite lookup_insert_ne by discriminate ]).
  reflexivity.
Qed.

Lemma slice_first (a rest : Np.vec) n :
  Z.of_nat (length a) = n -> Np.slice (a ++ rest) (0, 0 + n) = a.
Proof.
  intros <-. unfold Np.slice. cbn [fst snd].
  replace (Z.to_nat (0 + Z.of_nat (length a) - 0)) with (length a) by lia.
  change (Z.to_nat 0) with 0%nat. rewrite drop_0.
  now rewrite take_app_length.
Qed.

Lemma slice_second (a b rest : Np.vec) n :
  Z.of_nat (length a) = n -> Z.of_nat (length b) = n ->
  Np.slice (a ++ b ++ rest) (0 + n, 0 + n + n) = b.
Proof.
  intros Ha Hb. unfold Np.slice. cbn [fst snd].
  replace (Z.to_nat (0 + n + n - (0 + n))) with (length b) by lia.
  replace (Z.to_nat (0 + n)) with (length a) by lia.
  rewrite drop_app_length. now rewrite take_app_length.
Qed.

Lemma sum_squares_zero (v : Np.vec) :
  Forall zero_like v -> Np.sum_squares v = 0%float.
Proof.
  unfold Np.sum_squares. induction 1 as [|x v Hx _ IH]; [reflexivity|].
  cbn [fold_left]. destruct Hx as [->| ->]; exact IH.
Qed.

Lemma linalg_norm_zero (v : Np.vec) :
  Forall zero_like v -> Np.linalg_norm v = 0%float.
Proof. intros Hv. unfold Np.linalg_norm. now rewrite sum_squares_zero. Qed.

Lemma subtract_self (x : Np.vec) :
  Forall (fun a => finite a = true) x ->
  exists d, Np.subtract x x = Ok d /\ Forall zero_like d.
Proof.
  intros Hx. exists (zip_with PrimFloat.sub x x). split.
  - unfold Np.subtract. now rewrite np_broadcast_same_length.
  - induction Hx as [|a x Ha _ IH]; cbn [zip_with]; constructor; [|exact IH].
    left. now apply sub_diag_finite.
Qed.

(** The distance of finite positions to themselves is 0. *)
Lemma compute_distance_self (g : list Np.vec) :
  Forall (fun a => finite a = true) (concat g) ->
  compute_distance g g = Ok 0%float.
Proof.
  intros Hg. unfold compute_distance.
  destruct (subtract_self _ Hg) as (d & -> & Hd). cbn [result_bind].
  now rewrite linalg_norm_zero.
Qed.

(** The reward of [_compute_reward] at distance 0 and speed 0. *)
Lemma reward_at_rest factor steps :
  finite factor = true -> finite steps = true ->
  ((- 0 - factor * 0) * steps =? 0)%float = true.
Proof.
  intros Hfactor Hsteps. apply zero_like_eqb.
  apply zero_mul_finite; [assumption|].
  destruct (mul_zero_finite factor 0 Hfactor (or_introl eq_refl)) as [->| ->];
    [right|left]; reflexivity.
Qed.

Section Reward.
Context {R : Type} `{Backend R}.
Implicit Types self : FingerReach R.

Lemma layout_of_configuration self self' :
  configuration self' = configuration self ->
  standard_layout self
  /\ finite (float_of_Z (steps_per_control self)) = true ->
  standard_layout self'
  /\ finite (float_of_Z (steps_per_control self')) = true.
Proof.
  unfold configuration, standard_layout.
  intros [= -> -> _ _ _ -> -> _]. trivial.
Qed.

Lemma episode_state_configuration self self' :
  episode_state self' = episode_state self ->
  configuration self' = configuration self.
Proof. intros E. exact (f_equal (fun t => fst (fst (fst (fst t)))) E). Qed.

(** Every environment that a program can hold has the observation layout of
    the constructor and a repeat count that converts to a finite float. *)
Lemma reachable_layout sp self :
  reachable sp self ->
  standard_layout self
  /\ finite (float_of_Z (steps_per_control self)) = true.
Proof.
  induction 1 as [c ev ft vcf ss urr fcs sync self Hinit
                 |self _ IH|action self _ IH|self _ IH].
  - apply init_configuration in Hinit as (steps & sm & Hsteps & _ & Hcfg).
    unfold configuration in Hcfg.
    injection Hcfg as Hnf Hst _ _ _ Hkeys Hsizes _.
    unfold standard_layout. rewrite Hkeys, Hsizes, Hnf, Hst.
    split; [split; reflexivity|].
    eapply init_steps_per_control_finite; eassumption.
  - refine (layout_of_configuration _ _ _ IH). apply reset_smoothing.
  - refine (layout_of_configuration _ _ _ IH).
    apply episode_state_configuration, step_keeps.
  - refine (layout_of_configuration _ _ _ IH).
    apply episode_state_configuration.
    pose proof (render_keeps self) as Hk. unfold keeps in Hk.
    now apply pair_equal_spec in Hk as [Hk _].
Qed.

End Reward.

(** C3, as amended.  A [step] that returns on an environment that a
    program can hold, with a driver that reports [3 * num_fingers] joint
    positions and velocities, returns the reward
    [(-d - velocity_cost_factor * v) * N]: [d] is the Euclidean norm of the
    offset between the tip positions, which the kinematics give for the
    joint positions observed right after the first tick, and the goal of
    the episode; [v] is the Euclidean norm of the joint velocities observed
    there; [N] is the repeat count.  Both norms are [sqrt(x.dot(x))] with
    the fused accumulation of numpy.  When the tips are at the goal, with
    finite coordinates, the velocities are zero and the cost factor is
    finite, the reward is equal to 0. *)
Theorem step_reward {R : Type} `{Backend R} smoothing_params
    (self : FingerReach R) action observation reward done is_success self' :
  reachable smoothing_params self ->
  step action self = (Ok (observation, reward, done, is_success), self') ->
  exists sa g,
    smoothed_action self' = Some sa
    /\ goal self = Some g
    /\ let driver1 := first_tick sa (finger self) in
       let jp := observation_position driver1 in
       let jv := observation_velocity driver1 in
       let tips := concat (forward_kinematics jp) in
       let norm := fun x : Np.vec =>
         sqrt (fold_left (fun acc a => fma a a acc) x 0%float) in
       Z.of_nat (length jp) = 3 * num_fingers self ->
       Z.of_nat (length jv) = 3 * num_fingers self ->
       exists offset,
         Np.subtract tips (concat g) = Ok offset
         /\ (length tips = length (concat g) ->
             offset = zip_with PrimFloat.sub tips (concat g))
         /\ reward
            = ((- norm offset - velocity_cost_factor self * norm jv)
               * float_of_Z (steps_per_control self))%float
         /\ (forward_kinematics jp = g ->
             Forall (fun x => finite x = true) (concat g) ->
             Forall (fun v => (v =? 0)%float = true) jv ->
             finite (velocity_cost_factor self) = true ->
             (reward =? 0)%float = true).
Proof.
  intros Hreach E.
  destruct (reachable_layout _ _ Hreach) as [[Hkeys Hsizes] Hsteps].
  apply step_ok in E as (sa & driver1 & g & o & ip & iv & dist & Hout).
  destruct Hout as (driver0 & ee & flat & e2g & _ & _ & Hset & Htick & Hg & _
                    & _ & _ & Ho & Hip & Hiv & Hdist & Hres & _ & _ & Hsa).
  injection Hres as _ -> _ _.
  assert (Hfirst : first_tick sa (finger self) = driver1).
  { unfold first_tick. rewrite Hset. cbn [snd]. now rewrite Htick. }
  exists sa, g. split; [exact Hsa|]. split; [exact Hg|].
  cbv zeta. rewrite Hfirst. intros Hjp Hjv.
  rewrite Hkeys, flatten_observation_standard in Ho. injection Ho as <-.
  rewrite Hkeys, Hsizes in Hip, Hiv.
  destruct (key_to_index_standard (3 * num_fingers self)) as [Ep Ev].
  cbv zeta in Ep, Ev. rewrite Ep in Hip. rewrite Ev in Hiv.
  injection Hip as <-. injection Hiv as <-.
  rewrite slice_first in Hdist by exact Hjp.
  rewrite slice_second by assumption.
  pose proof Hdist as Hoffset. unfold compute_distance in Hoffset.
  destruct (Np.subtract (concat (forward_kinematics (observation_position driver1)))
              (concat g)) as [offset|] eqn:Eoff; [|discriminate Hoffset].
  cbn [result_bind] in Hoffset. injection Hoffset as Hnorm.
  exists offset. split; [reflexivity|]. split; [|split].
  - intros Hlen. unfold Np.subtract in Eoff.
    rewrite np_broadcast_same_length in Eoff by exact Hlen.
    now injection Eoff as <-.
  - rewrite <- Hnorm. reflexivity.
  - intros Hat Hfinite Hzero Hfactor.
    rewrite Hat, compute_distance_self in Hdist by exact Hfinite.
    injection Hdist as <-.
    rewrite linalg_norm_zero
      by (eapply Forall_impl; [exact Hzero|intros v; apply eqb_zero]).
    now apply reward_at_rest.
Qed.

(** Two runs on the reference driver with one finger and the velocity cost
    factor 0.5, the goal at [[0.1, 0.2, 0.3]].  A step towards
    [[0.2, 0.5, 0.4]]: the tips are off the goal by about [[0.1, 0.3, 0.1]]
    and the joints move at [[0.2, 0.5, 0.4]] per tick.  The second step
    towards the goal: the joints sit at the goal configuration, at rest,
    and the reward is 0. *)
Lemma step_reward_witness :
  exists self,
    __init__ (H := kinematic_backend) 0.02 false "single"
      (training_params 10 0.2 0.8 0.9) 0.5 "separated" false "0" false = Ok self
    /\ (exists res self',
          step [0.2; 0.5; 0.4]%float self = (Ok res, self')
          /\ snd (fst (fst res)) = (-3.3353633783025423)%float)
    /\ (exists res self',
          step [0.1; 0.2; 0.3]%float (snd (step [0.1; 0.2; 0.3]%float self))
          = (Ok res, self')
          /\ (snd (fst (fst res)) =? 0)%float = true).
Proof.
  eexists. split; [vm_compute; reflexivity|].
  lazymatch goal with
  | |- (exists res self', step _ ?s = _ /\ _) /\ _ =>
      assert (Hreach : reachable (training_params 10 0.2 0.8 0.9) s)
        by (apply (reach_init _ 0.02%float false "single" 0.5%float
                     "separated" false "0" false);
            vm_compute; reflexivity)
  end.
  split.
  - eexists _, _. split; [vm_compute; reflexivity|].
    lazymatch goal with
    | |- snd (fst (fst (?o, ?r, ?d, ?i))) = _ =>
        lazymatch type of Hreach with
        | reachable _ ?s =>
            assert (E : exists s', step [0.2; 0.5; 0.4]%float s
                                   = (Ok (o, r, d, i), s'))
              by (eexists; vm_compute; reflexivity)
        end
    end.
    destruct E as [s' E].
    destruct (step_reward _ _ _ _ _ _ _ _ Hreach E)
      as (sa & g & Hsa & Hg & Hreward).
    vm_compute in E. injection E as <-.
    vm_compute in Hsa. injection Hsa as <-.
    vm_compute in Hg. injection Hg as <-.
    destruct Hreward as (offset & _ & Hoffset & Hvalue & _);
      [vm_compute; reflexivity|vm_compute; reflexivity|].
    rewrite (Hoffset eq_refl) in Hvalue.
    etransitivity; [exact Hvalue|]. vm_compute. reflexivity.
  - eexists _, _. split; [vm_compute; reflexivity|].
    lazymatch goal with
    | |- (snd (fst (fst (?o, ?r, ?d, ?i))) =? 0)%float = true =>
        lazymatch type of Hreach with
        | reachable _ ?s =>
            assert (E : exists s',
                      step [0.1; 0.2; 0.3]%float
                        (snd (step [0.1; 0.2; 0.3]%float s))
                      = (Ok (o, r, d, i), s'))
              by (eexists; vm_compute; reflexivity)
        end
    end.
    destruct E as [s' E].
    destruct (step_reward _ _ _ _ _ _ _ _
                (reach_step _ [0.1; 0.2; 0.3]%float _ Hreach) E)
      as (sa & g & Hsa & Hg & Hreward).
    vm_compute in E. injection E as <-.
    vm_compute in Hsa. injection Hsa as <-.
    vm_compute in Hg. injection Hg as <-.
    destruct Hreward as (offset & _ & _ & _ & Hzero);
      [vm_compute; reflexivity|vm_compute; reflexivity|].
    apply Hzero.
    + vm_compute. reflexivity.
    + vm_compute. repeat constructor.
    + vm_compute. repeat constructor.
    + vm_compute. reflexivity.
Defined.

(** C3 as stated fails: with an infinite velocity cost factor, one finger,
    the tip exactly at the goal and the joints at rest, the reward is
    [-0.0 - inf * 0.0], which is NaN and not 0. *)
Lemma reward_nan_with_infinite_cost_factor :
  exists self res self',
    __init__ (H := kinematic_backend) 0.02 false "single"
      (training_params 10 0.2 0.8 0.9) infinity "separated" false "0" false
    = Ok self
    /\ num_fingers self = 1
    /\ step [0.1; 0.2; 0.3]%float (snd (step [0.1; 0.2; 0.3]%float self))
       = (Ok res, self')
    /\ goal (snd (step [0.1; 0.2; 0.3]%float self))
       = Some [[0.1; 0.2; 0.3]%float]
    /\ forward_kinematics
         (observation_position
            (first_tick [0.1; 0.2; 0.3]%float
               (finger (snd (step [0.1; 0.2; 0.3]%float self)))))
       = [[0.1; 0.2; 0.3]%float]
    /\ observation_velocity
         (first_tick [0.1; 0.2; 0.3]%float
            (finger (snd (step [0.1; 0.2; 0.3]%float self))))
       = [0; 0; 0]%float
    /\ smoothed_action self' = Some [0.1; 0.2; 0.3]%float
    /\ (snd (fst (fst res)) =? 0)%float = false
    /\ (snd (fst (fst res)) =? snd (fst (fst res)))%float = false.
Proof.
  eexists _, _, _.
  split; [vm_compute; reflexivity|].
  split; [reflexivity|].
  split; [vm_compute; reflexivity|].
  vm_compute. auto 10.
Qed.

(** * Further properties of the environment *)

(** ** Adding zero *)

Lemma SFadd_zero_r x :
  SF64add x (S754_zero false)
  = match x with S754_zero _ => S754_zero false | _ => x end.
Proof. destruct x as [[]|[]| |s m e]; reflexivity. Qed.

(** [x + 0] is [x], except that [-0.0 + 0] is [0.0]. *)
Lemma add_zero_r (x : float) : x <> (-0)%float -> (x + 0)%float = x.
Proof.
  intros Hx. apply Prim2SF_inj. rewrite FloatAxioms.add_spec.
  change (Prim2SF 0) with (S754_zero false). rewrite SFadd_zero_r.
  destruct (Prim2SF x) as [[]|s| |s m e] eqn:E; try reflexivity.
  exfalso. apply Hx. rewrite <- (SF2Prim_Prim2SF x), E. reflexivity.
Qed.

Lemma add_zero_twice (x : float) : (x + 0 + 0)%float = (x + 0)%float.
Proof.
  apply Prim2SF_inj. rewrite !FloatAxioms.add_spec.
  change (Prim2SF 0) with (S754_zero false). rewrite !SFadd_zero_r.
  destruct (Prim2SF x); reflexivity.
Qed.

Lemma add_zero_eqb (x : float) : (x =? x)%float = true -> (x + 0 =? x)%float = true.
Proof.
  rewrite !FloatAxioms.eqb_spec, FloatAxioms.add_spec.
  change (Prim2SF 0) with (S754_zero false). rewrite SFadd_zero_r.
  destruct (Prim2SF x) as [[]|s| |s m e]; trivial.
Qed.

(** ** Test mode *)

Section TestMode.
Context {R : Type} `{Backend R}.
Implicit Types self : FingerReach R.

Lemma init_smoothing_test sp flag sm :
  sp !! "is_test" = Some flag ->
  init_smoothing sp = Ok sm ->
  exists final_alpha,
    sp !! "final_alpha" = Some final_alpha
    /\ sm = mkSmoothing 0 final_alpha 0%float StopNever.
Proof.
  intros Htest. unfold init_smoothing, getitem. rewrite Htest.
  rewrite bool_decide_eq_true_2 by eauto.
  destruct (sp !! "final_alpha") as [fa|]; [|discriminate].
  cbn [result_bind]. intros [= <-]. eauto.
Qed.

(** The state of a test run: no ramp, and the coefficient at
    [final_alpha + 0]. *)
Lemma reachable_test_mode sp self flag :
  sp !! "is_test" = Some flag ->
  reachable sp self ->
  exists final_alpha,
    sp !! "final_alpha" = Some final_alpha
    /\ smoothing_increase_step self = 0%float
    /\ smoothing_alpha self = (final_alpha + 0)%float.
Proof.
  intros Htest Hreach.
  induction Hreach as [c ev ft vcf ss urr fcs sync self Hinit
                      |self Hreach IH|action self Hreach IH|self Hreach IH].
  - apply init_inv in Hinit as (self0 & o & H0 & Hreset).
    apply before_reset_inv in H0 as (steps & sm & _ & Hsm & Hcfg & Ha & Hc & _).
    apply (init_smoothing_test sp flag sm Htest) in Hsm as (fa & Hfa & ->).
    cbn in Hcfg, Ha. unfold configuration in Hcfg.
    injection Hcfg as _ _ Hstart Hinc Hstop _ _ _.
    destruct (reset_smoothing self0) as (Hcfg' & Ha' & _).
    rewrite Hreset in Hcfg', Ha'. cbn [snd] in Hcfg', Ha'.
    unfold configuration in Hcfg'. injection Hcfg' as _ _ _ Hinc' _ _ _ _.
    exists fa. split; [assumption|]. split; [congruence|].
    rewrite Ha'. unfold next_alpha, on_ramp.
    rewrite Hstart, Hc, Hstop, Ha, Hinc. reflexivity.
  - destruct IH as (fa & Hfa & Hinc & Ha).
    destruct (reset_smoothing self) as (Hcfg' & Ha' & _).
    unfold configuration in Hcfg'. injection Hcfg' as _ _ _ Hinc' _ _ _ _.
    exists fa. split; [assumption|]. split; [congruence|].
    rewrite Ha'. unfold next_alpha. rewrite Hinc, Ha.
    destruct (on_ramp self); [apply add_zero_twice|reflexivity].
  - destruct IH as (fa & Hfa & Hinc & Ha).
    pose proof (step_keeps action self) as Hk. unfold keeps in Hk.
    unfold episode_state, configuration in Hk.
    injection Hk as _ _ _ Hinc' _ _ _ _ Ha' _ _ _.
    exists fa. split; [assumption|]. split; congruence.
  - destruct IH as (fa & Hfa & Hinc & Ha).
    pose proof (render_keeps self) as Hk. unfold keeps in Hk.
    unfold episode_state, configuration in Hk.
    injection Hk as _ _ _ Hinc' _ _ _ _ Ha' _ _ _ _.
    exists fa. split; [assumption|]. split; congruence.
Qed.

End TestMode.

(** X1.  With an ["is_test"] entry in the smoothing parameters, whatever its
    value, the coefficient of every environment that a program can hold is
    [final_alpha + 0]: [final_alpha] itself unless that is [-0.0], and equal
    to it in Python's [==] unless it is NaN.  No reset changes it, and a
    step that returns in an episode whose buffer holds [previous] has
    commanded [a * previous + (1 - a) * u] for this coefficient [a] and the
    unscaled action [u], whatever the episode. *)
Theorem test_mode_pins_coefficient {R : Type} `{Backend R}
    (smoothing_params : gmap string float) (self : FingerReach R) flag :
  smoothing_params !! "is_test" = Some flag ->
  reachable smoothing_params self ->
  exists final_alpha,
    smoothing_params !! "final_alpha" = Some final_alpha
    /\ smoothing_alpha self = (final_alpha + 0)%float
    /\ (final_alpha <> (-0)%float -> smoothing_alpha self = final_alpha)
    /\ ((final_alpha =? final_alpha)%float = true ->
        (smoothing_alpha self =? final_alpha)%float = true)
    /\ smoothing_alpha (snd (reset self)) = smoothing_alpha self
    /\ (forall action res self' previous,
          step action self = (Ok res, self') ->
          smoothed_action self = Some previous ->
          exists sa,
            Np.add (Np.scale (final_alpha + 0) previous)
                   (Np.scale (1 - (final_alpha + 0))
                      (unscale_action (num_fingers self) action)) = Ok sa
            /\ commands (trace self')
               = commands (trace self)
                 ++ repeat (sa, "position") (Z.to_nat (steps_per_control self))).
Proof.
  intros Htest Hreach.
  destruct (reachable_test_mode _ _ _ Htest Hreach) as (fa & Hfa & Hinc & Ha).
  destruct (reachable_test_mode _ _ _ Htest (reach_reset _ _ Hreach))
    as (fa' & Hfa' & _ & Ha').
  rewrite Hfa in Hfa'. injection Hfa' as <-.
  exists fa. split; [assumption|]. split; [assumption|].
  split; [intros Hnz; rewrite Ha; now apply add_zero_r|].
  split; [intros Hnan; rewrite Ha; now apply add_zero_eqb|].
  split; [congruence|].
  intros action res self' previous Estep Hprev.
  pose proof Estep as Hout.
  apply step_ok in Hout as (sa & driver1 & g & o & ip & iv & dist & Hout).
  destruct Hout as (driver0 & ee & flat & e2g & Hadd & Hrest).
  assert (Hsa : smoothed_action self' = Some sa) by (repeat apply proj2 in Hrest; exact Hrest).
  rewrite Hprev, Ha in Hadd. cbn [default] in Hadd.
  exists sa. split; [exact Hadd|].
  eapply step_commands; eassumption.
Qed.

(** A set of training parameters with the entry [is_test = False] added is
    a test run: the coefficient is [final_alpha = 0.9] from the first
    episode. *)
Lemma test_mode_pins_coefficient_witness :
  exists self,
    make 0.02 "single"
      (<["is_test" := 0%float]> (training_params 10 0.2 0.8 0.9)) = Ok self
    /\ smoothing_alpha self = 0.9%float
    /\ smoothing_alpha (snd (reset self)) = smoothing_alpha self.
Proof.
  eexists. split; [vm_compute; reflexivity|].
  lazymatch goal with
  | |- smoothing_alpha ?s = _ /\ _ =>
      assert (Hreach : reachable
                (<["is_test" := 0%float]> (training_params 10 0.2 0.8 0.9)) s)
        by (apply (reach_init _ 0.02%float false "single" 0%float "separated"
                     false "0" false);
            vm_compute; reflexivity);
      assert (Htest : <["is_test" := 0%float]> (training_params 10 0.2 0.8 0.9)
                        !! "is_test" = Some 0%float)
        by (vm_compute; reflexivity);
      destruct (test_mode_pins_coefficient
                  (<["is_test" := 0%float]> (training_params 10 0.2 0.8 0.9))
                  s 0%float Htest Hreach)
        as (fa & Hfa & _ & Hsame & _ & Hreset & _)
  end.
  vm_compute in Hfa. injection Hfa as <-.
  split; [|exact Hreset].
  apply Hsame. vm_compute. discriminate.
Defined.

(** ** Schedules that never start *)

(** The smoothing parameters determine the schedule. *)
Lemma training_schedule_unique sp start stop increase start' stop' increase' :
  training_schedule sp start stop increase ->
  training_schedule sp start' stop' increase' ->
  start' = start /\ stop' = stop /\ increase' = increase.
Proof.
  intros (_ & ne & sa & so & fa & Hne & Hsa & Hso & Hfa & Hstart & Hstop & Hinc)
         (_ & ne' & sa' & so' & fa' & Hne' & Hsa' & Hso' & Hfa' & Hstart' & Hstop' & Hinc').
  rewrite Hne in Hne'. injection Hne' as <-.
  rewrite Hsa in Hsa'. injection Hsa' as <-.
  rewrite Hso in Hso'. injection Hso' as <-.
  rewrite Hfa in Hfa'. injection Hfa' as <-.
  rewrite Hstart in Hstart'. injection Hstart' as <-.
  rewrite Hstop in Hstop'. injection Hstop' as <-.
  rewrite Hinc in Hinc'. injection Hinc' as <-.
  auto.
Qed.

(** X2.  In a training run whose truncated stop threshold
    [int(num_episodes * stop_after)] is not above the truncated start
    threshold [int(num_episodes * start_after)], or is not above 0, the ramp
    is empty: the coefficient of every environment that a program can hold
    is 0 and stays 0 at every reset, whatever increase the constructor
    stored. *)
Theorem inverted_schedule_never_smooths {R : Type} `{Backend R}
    (smoothing_params : gmap string float) (self : FingerReach R)
    start stop increase :
  training_schedule smoothing_params start stop increase ->
  reachable smoothing_params self ->
  stop <= start \/ stop <= 0 ->
  smoothing_alpha self = 0%float
  /\ smoothing_alpha (snd (reset self)) = 0%float
  /\ smoothing_increase_step self = increase.
Proof.
  intros Hsched Hreach Hempty.
  assert (Htest : smoothing_params !! "is_test" = None) by apply Hsched.
  assert (Hzero : forall s : FingerReach R, reachable smoothing_params s ->
            smoothing_alpha s = 0%float /\ smoothing_increase_step s = increase).
  { intros s Hs.
    destruct (reachable_on_schedule _ _ Htest Hs)
      as (start' & stop' & inc' & Hsched' & Hon & _).
    destruct (training_schedule_unique _ _ _ _ _ _ _ Hsched Hsched')
      as (-> & -> & ->).
    destruct Hon as (_ & _ & Hinc & Hc & Ha). split; [|exact Hinc].
    rewrite Ha. unfold ramp_steps. rewrite Z2Nat.nonpos by lia. reflexivity. }
  destruct (Hzero self Hreach) as [Ha Hinc].
  destruct (Hzero _ (reach_reset _ _ Hreach)) as [Ha' _].
  auto.
Qed.

(** A ramp from episode 5 to episode 2: the increase is [0.9 / -3], and it
    is never added. *)
Lemma inverted_schedule_never_smooths_witness :
  exists self,
    make 0.02 "tri" (training_params 10 0.5 0.2 0.9) = Ok self
    /\ smoothing_alpha self = 0%float
    /\ smoothing_alpha (snd (reset self)) = 0%float
    /\ smoothing_increase_step self = (0.9 / -3)%float.
Proof.
  eexists. split; [vm_compute; reflexivity|].
  apply (inverted_schedule_never_smooths (training_params 10 0.5 0.2 0.9) _ 5 2).
  - split; [vm_compute; reflexivity|].
    exists 10%float, 0.5%float, 0.2%float, 0.9%float.
    repeat (split; [vm_compute; reflexivity|]). vm_compute. reflexivity.
  - apply (reach_init _ 0.02%float false "tri" 0%float "separated" false "0"
             false).
    vm_compute. reflexivity.
  - lia.
Defined.

(** ** Missing smoothing parameters *)

(** X3.  With a control rate that passes the assertion, a dictionary of
    smoothing parameters that lacks an entry makes the constructor raise
    [KeyError] for the first entry it reads and does not find: in a test run
    only ["final_alpha"] is read; in a training run ["num_episodes"],
    ["stop_after"], ["start_after"] and ["final_alpha"] are read in this
    order, the last one before the increase is computed, so that it is
    reported even when the two thresholds coincide. *)
Theorem missing_smoothing_key_raises {R : Type} `{Backend R}
    c ev ft (sp : gmap string float) vcf ss urr fcs sync steps :
  init_steps_per_control c = Ok steps ->
  (forall flag,
     sp !! "is_test" = Some flag -> sp !! "final_alpha" = None ->
     __init__ (R := R) c ev ft sp vcf ss urr fcs sync
     = Raise (KeyError "final_alpha"))
  /\ (sp !! "is_test" = None -> sp !! "num_episodes" = None ->
      __init__ (R := R) c ev ft sp vcf ss urr fcs sync
      = Raise (KeyError "num_episodes"))
  /\ (forall ne,
        sp !! "is_test" = None -> sp !! "num_episodes" = Some ne ->
        sp !! "stop_after" = None ->
        __init__ (R := R) c ev ft sp vcf ss urr fcs sync
        = Raise (KeyError "stop_after"))
  /\ (forall ne so stop,
        sp !! "is_test" = None -> sp !! "num_episodes" = Some ne ->
        sp !! "stop_after" = Some so ->
        int_of_float (ne * so) = Ok stop ->
        sp !! "start_after" = None ->
        __init__ (R := R) c ev ft sp vcf ss urr fcs sync
        = Raise (KeyError "start_after"))
  /\ (forall ne so sa stop start,
        sp !! "is_test" = None -> sp !! "num_episodes" = Some ne ->
        sp !! "stop_after" = Some so -> sp !! "start_after" = Some sa ->
        int_of_float (ne * so) = Ok stop ->
        int_of_float (ne * sa) = Ok start ->
        sp !! "final_alpha" = None ->
        __init__ (R := R) c ev ft sp vcf ss urr fcs sync
        = Raise (KeyError "final_alpha")).
Proof.
  intros Hsteps.
  assert (Hraise : forall e, init_smoothing sp = Raise e ->
            __init__ (R := R) c ev ft sp vcf ss urr fcs sync = Raise e).
  { intros e E. unfold __init__, before_reset. rewrite Hsteps. cbn [result_bind].
    now rewrite E. }
  split; [|split; [|split; [|split]]].
  - intros flag Htest Hfa. apply Hraise. unfold init_smoothing, getitem.
    rewrite Htest, Hfa. now rewrite bool_decide_eq_true_2 by eauto.
  - intros Htest Hne. apply Hraise. unfold init_smoothing, getitem.
    rewrite Htest, Hne. now rewrite bool_decide_eq_false_2 by (intros [? [=]]).
  - intros ne Htest Hne Hso. apply Hraise. unfold init_smoothing, getitem.
    rewrite Htest, Hne, Hso.
    now rewrite bool_decide_eq_false_2 by (intros [? [=]]).
  - intros ne so stop Htest Hne Hso Hstop Hsa. apply Hraise.
    unfold init_smoothing, getitem. rewrite Htest, Hne, Hso, Hsa.
    rewrite bool_decide_eq_false_2 by (intros [? [=]]).
    cbn [result_bind]. now rewrite Hstop.
  - intros ne so sa stop start Htest Hne Hso Hsa Hstop Hstart Hfa.
    apply Hraise. unfold init_smoothing, getitem.
    rewrite Htest, Hne, Hso, Hsa, Hfa.
    rewrite bool_decide_eq_false_2 by (intros [? [=]]).
    cbn [result_bind]. rewrite Hstop. cbn [result_bind]. now rewrite Hstart.
Qed.

(** An empty dictionary, a test run without [final_alpha], and a training
    run without [final_alpha] whose thresholds coincide. *)
Lemma missing_smoothing_key_raises_witness :
  make 0.02 "single" ∅ = Raise (KeyError "num_episodes")
  /\ make 0.02 "single" (<["is_test" := 1%float]> ∅)
     = Raise (KeyError "final_alpha")
  /\ make 0.02 "single"
       (<["num_episodes" := 10%float]> (<["stop_after" := 0.5%float]>
          (<["start_after" := 0.5%float]> ∅)))
     = Raise (KeyError "final_alpha").
Proof.
  split; [|split].
  - refine (proj1 (proj2 (missing_smoothing_key_raises (R := Kinematic.robot)
              0.02%float false "single" ∅ 0%float "separated" false "0" false 5
              _)) _ _); vm_compute; reflexivity.
  - refine (proj1 (missing_smoothing_key_raises (R := Kinematic.robot)
              0.02%float false "single" (<["is_test" := 1%float]> ∅) 0%float
              "separated" false "0" false 5 _) 1%float _ _);
      vm_compute; reflexivity.
  - refine (proj2 (proj2 (proj2 (proj2
              (missing_smoothing_key_raises (R := Kinematic.robot)
                 0.02%float false "single"
                 (<["num_episodes" := 10%float]> (<["stop_after" := 0.5%float]>
                    (<["start_after" := 0.5%float]> ∅)))
                 0%float "separated" false "0" false 5 _))))
              10%float 0.5%float 0.5%float 5 5 _ _ _ _ _ _ _);
      vm_compute; reflexivity.
Defined.

(** ** Relations that every statement of a body keeps *)

Section Preserved.
Context {R : Type} (P : FingerReach R -> FingerReach R -> Prop).
Hypothesis P_refl : forall self, P self self.
Hypothesis P_trans : forall a b c, P a b -> P b c -> P a c.

Lemma pres_ret {A} (a : A) : preserves P (ret a).
Proof. intros self. apply P_refl. Qed.

Lemma pres_lift {A} (r : result A) : preserves P (lift r).
Proof. intros self. apply P_refl. Qed.

Lemma pres_gets {A} (g : FingerReach R -> A) : preserves P (gets g).
Proof. intros self. apply P_refl. Qed.

Lemma pres_getattr {A} name (g : FingerReach R -> option A) :
  preserves P (getattr name g).
Proof. intros self. unfold getattr. destruct (g self); apply P_refl. Qed.

Lemma pres_modify (g : FingerReach R -> FingerReach R) :
  (forall self, P self (g self)) -> preserves P (modify g).
Proof. intros Hg self. apply Hg. Qed.

Lemma pres_driver_call {A} ev (op : R -> result A * R) :
  (forall self driver, P self (set_finger driver (emit ev self))) ->
  preserves P (driver_call ev op).
Proof.
  intros Hp self. unfold driver_call.
  destruct (op (finger self)) as [r driver]. apply Hp.
Qed.

Lemma pres_bind {A B} (m : M R A) (k : A -> M R B) :
  preserves P m -> (forall a, preserves P (k a)) -> preserves P (bind m k).
Proof.
  intros Hm Hk self. unfold bind. specialize (Hm self).
  destruct (m self) as [[a|e] self']; cbn [snd] in *.
  - eapply P_trans; [exact Hm|apply Hk].
  - exact Hm.
Qed.

Lemma pres_try_pass (m : M R unit) : preserves P m -> preserves P (try_pass m).
Proof. intros Hm self. apply Hm. Qed.

End Preserved.

(** Walks through a method body; [side] proves that an assignment or a
    driver call keeps the relation. *)
Ltac pres_step rt side :=
  lazymatch goal with
  | |- preserves _ (bind _ _) => apply pres_bind; [rt .. | | intros ?]
  | |- preserves _ (ret _) => apply pres_ret; rt
  | |- preserves _ (lift _) => apply pres_lift; rt
  | |- preserves _ (gets _) => apply pres_gets; rt
  | |- preserves _ (getattr _ _) => apply pres_getattr; rt
  | |- preserves _ (try_pass _) => apply pres_try_pass
  | |- preserves _ (modify _) => apply pres_modify; intros ?; side
  | |- preserves _ (driver_call _ _) => apply pres_driver_call; intros ? ?; side
  | |- preserves _ (_get_observation _ _) => unfold _get_observation
  | |- preserves _ (_compute_reward _ _) => unfold _compute_reward
  | |- preserves _ update_smoothing => unfold update_smoothing
  | |- preserves _ wait_for_start_time => unfold wait_for_start_time
  | |- preserves _ (if ?b then _ else _) => destruct b
  | |- preserves _ (match ?x with _ => _ end) => destruct x
  end.

Section Logs.
Context {R : Type} `{Backend R}.
Implicit Types self : FingerReach R.

Lemma extends_refl self : extends self self.
Proof. exists []. now rewrite app_nil_r. Qed.

Lemma extends_trans (a b c : FingerReach R) :
  extends a b -> extends b c -> extends a c.
Proof.
  intros [r1 E1] [r2 E2]. exists (r1 ++ r2). now rewrite E2, E1, app_assoc.
Qed.

Lemma goal_stays_refl self : goal_stays self self.
Proof. intros Hg. exact Hg. Qed.

Lemma goal_stays_trans (a b c : FingerReach R) :
  goal_stays a b -> goal_stays b c -> goal_stays a c.
Proof. unfold goal_stays. auto. Qed.

End Logs.

Ltac extends_side :=
  first [ apply extends_refl
        | eexists [_]; reflexivity
        | exists []; rewrite app_nil_r; reflexivity ].

Ltac extends_rt := first [exact extends_refl | exact extends_trans].

Ltac extends_auto := repeat pres_step extends_rt extends_side.

Ltac goal_stays_side :=
  first [ intros Hg; exact Hg | intros _; eexists; reflexivity ].

Ltac goal_stays_rt := first [exact goal_stays_refl | exact goal_stays_trans].

Ltac goal_stays_auto := repeat pres_step goal_stays_rt goal_stays_side.

Section Lifecycle.
Context {R : Type} `{Backend R}.
Implicit Types self : FingerReach R.

Lemma wp_run {A} (m : M R A) (Q : A -> FingerReach R -> Prop) self a self' :
  m self = (Ok a, self') -> Q a self' -> wp m Q self.
Proof. intros E HQ. unfold wp. now rewrite E. Qed.

Lemma wait_for_start_time_pair self :
  wait_for_start_time self = (Ok tt, snd (wait_for_start_time self)).
Proof.
  rewrite <- (wait_for_start_time_returns self) at 1. apply surjective_pairing.
Qed.

(** [reset] is its first block followed by the rest. *)
Lemma reset_after_wait self :
  reset self =
    (update_smoothing ;;
     let* count := gets episode_count in
     modify (set_episode_count (count + 1)) ;;
     modify (set_smoothed_action None) ;;
     let* action := driver_call EvResetFinger reset_finger in
     let* target_joint_config :=
       driver_call EvSampleJointPositions
         sample_random_joint_positions_for_reaching in
     modify (set_goal (Some (forward_kinematics target_joint_config))) ;;
     let* goal := getattr "goal" goal in
     modify (emit (EvLoggerNewEpisode target_joint_config goal)) ;;
     driver_call (EvResetGoalMarkers goal) (reset_goal_markers goal) ;;
     let* fingers := gets num_fingers in
     let* o := _get_observation action false in
     ret (scale_observation fingers o)) (snd (wait_for_start_time self)).
Proof.
  unfold reset at 1. unfold bind at 1.
  now rewrite wait_for_start_time_pair.
Qed.

Lemma wait_for_start_time_off self :
  next_start_time self = None -> snd (wait_for_start_time self) = self.
Proof. intros E. unfold wait_for_start_time. rewrite bind_gets, E. reflexivity. Qed.

(** The log only grows. *)
Lemma reset_extends : preserves extends reset.
Proof. unfold reset. extends_auto. Qed.

Lemma control_loop_extends n : forall observation,
  preserves extends (control_loop n observation).
Proof.
  induction n as [|n IH]; intros observation; cbn [control_loop]; extends_auto;
    apply IH.
Qed.

Lemma step_extends action : preserves extends (step action).
Proof. unfold step. extends_auto. apply control_loop_extends. Qed.

(** A goal, once defined, is never removed. *)
Lemma reset_goal_stays : preserves goal_stays reset.
Proof. unfold reset. goal_stays_auto. Qed.

Lemma reachable_goal sp self : reachable sp self -> is_Some (goal self).
Proof.
  induction 1 as [c ev ft vcf ss urr fcs sync self Hinit
                 |self _ IH|action self _ IH|self _ IH].
  - apply init_inv in Hinit as (self0 & o & _ & Hreset).
    destruct (reset_defines_goal _ _ _ Hreset) as [g Hg]. rewrite Hg. eauto.
  - now apply reset_goal_stays.
  - pose proof (f_equal snd (step_keeps action self)) as Hk.
    cbn [snd episode_state] in Hk. now rewrite Hk.
  - pose proof (f_equal (fun t => snd (fst t)) (render_keeps self)) as Hk.
    cbn [fst snd episode_state] in Hk. now rewrite Hk.
Qed.

End Lifecycle.

(** X4.  A [reset] that returns has, after its wait for the start time:
    printed the number of the episode and the updated coefficient; counted
    the episode and cleared the buffer; sent the driver to its reset pose;
    drawn one joint configuration from the sampler and made its tip
    positions the goal; told the data logger of the new episode and the
    driver of the new goal markers, in this order; and returned the scaled
    observation taken from the driver as those calls left it, with the
    reset pose in the place of the action and without logging it. *)
Theorem reset_starts_episode {R : Type} `{Backend R} (self : FingerReach R)
    o self' :
  reset self = (Ok o, self') ->
  let self1 := snd (wait_for_start_time self) in
  (next_start_time self = None -> self1 = self)
  /\ exists action driver1 target driver2 driver3 ee flat e2g raw,
    let g := forward_kinematics target in
    reset_finger (finger self1) = (Ok action, driver1)
    /\ sample_random_joint_positions_for_reaching driver1 = (Ok target, driver2)
    /\ reset_goal_markers g driver2 = (Ok tt, driver3)
    /\ finger self' = driver3
    /\ goal self' = Some g
    /\ episode_count self' = episode_count self + 1
    /\ smoothing_alpha self' = next_alpha self
    /\ smoothed_action self' = None
    /\ next_start_time self' = next_start_time self1
    /\ configuration self' = configuration self
    /\ trace self' =
         trace self1
         ++ [EvPrint (episode_count self) (next_alpha self); EvResetFinger;
             EvSampleJointPositions; EvLoggerNewEpisode target g;
             EvResetGoalMarkers g]
    /\ Np.concatenate (forward_kinematics (observation_position driver3)) = Ok ee
    /\ Np.concatenate g = Ok flat
    /\ Np.subtract flat ee = Ok e2g
    /\ flatten_observation
         (observation_dict ee (observation_position driver3)
            (observation_velocity driver3) e2g flat action)
         (observations_keys self) = Ok raw
    /\ o = scale_observation (num_fingers self) raw.
Proof.
  intros E self1. split; [apply wait_for_start_time_off|].
  rewrite reset_after_wait in E. fold self1 in E.
  destruct (wait_for_start_time_run self) as (s1 & E1 & Hs1 & Hg1).
  assert (s1 = self1) as -> by (unfold self1; now rewrite E1).
  unfold smoothing_state in Hs1.
  apply pair_equal_spec in Hs1 as [Hs1 _].
  apply pair_equal_spec in Hs1 as [Hs1 Hc].
  apply pair_equal_spec in Hs1 as [Hcfg Ha].
  assert (Hn : next_alpha self1 = next_alpha self).
  { unfold next_alpha, on_ramp.
    pose proof Hcfg as Hcfg'. unfold configuration in Hcfg'.
    injection Hcfg' as _ _ Hstart Hinc Hstop _ _ _.
    now rewrite Ha, Hc, Hstart, Hinc, Hstop. }
  assert (Hkeys : observations_keys self1 = observations_keys self).
  { unfold configuration in Hcfg. now injection Hcfg as _ _ _ _ _ -> _ _. }
  assert (Hnf : num_fingers self1 = num_fingers self).
  { unfold configuration in Hcfg. now injection Hcfg as -> _ _ _ _ _ _ _. }
  rewrite <- Hn, <- Hc, <- Hcfg, <- Hkeys, <- Hnf.
  clear Hn Hc Hcfg Hkeys Hnf Ha Hg1 E1.
  revert E. generalize self1. clear self1 self. intros self E.
  pattern o, self'.
  match goal with |- ?Q o self' => refine (wp_ok _ Q self o self' _ E) end.
  apply wp_bind. eapply wp_run; [apply update_smoothing_run|].
  wp_auto.
  eapply wp_consequence; [apply get_observation_spec|].
  cbv beta.
  intros raw s (g & ee & flat & e2g & Hg & Hee & Hflat & He2g & Hraw & ->).
  wp_auto.
  cbn in *.
  repeat match goal with E : Some _ = Some _ |- _ => injection E as <- end.
  eexists _, _, _, _, _, _, _, _, _.
  repeat (split; [first [eassumption|reflexivity]|]).
  split.
  - destruct self; cbn. rewrite <- !app_assoc. reflexivity.
  - repeat (split; [first [eassumption|reflexivity]|]). reflexivity.
Qed.

(** The second reset of an environment on the reference driver. *)
Lemma reset_starts_episode_witness :
  exists self o self',
    make 0.02 "single" (training_params 10 0.2 0.8 0.9) = Ok self
    /\ reset self = (Ok o, self')
    /\ episode_count self' = 2
    /\ smoothed_action self' = None
    /\ goal self' = Some [[0.5; -0.5; 0.25]%float]
    /\ o = [0; 0; 0; 0; 0; 0; 0.5; -0.5; 0.25; 0; 0; 0]%float.
Proof.
  eexists _, _, _.
  split; [vm_compute; reflexivity|].
  split; [vm_compute; reflexivity|].
  lazymatch goal with
  | |- episode_count ?s' = 2 /\ _ /\ _ /\ ?o = _ =>
      lazymatch type of s' with
      | FingerReach _ =>
          assert (E : exists s, make 0.02 "single" (training_params 10 0.2 0.8 0.9)
                                = Ok s /\ reset s = (Ok o, s'))
            by (eexists; split; vm_compute; reflexivity)
      end
  end.
  destruct E as (s & Emake & E). vm_compute in Emake. injection Emake as <-.
  destruct (reset_starts_episode _ _ _ E)
    as (_ & action & d1 & target & d2 & d3 & ee & flat & e2g & raw
        & _ & _ & _ & _ & _ & Hc & _ & Hbuf & _).
  split; [exact Hc|]. split; [exact Hbuf|]. split; reflexivity.
Defined.

Section Synchronized.
Context {R : Type} `{Backend R}.
Implicit Types self : FingerReach R.

(** What the first block of [reset] does when a start time is set. *)
Lemma wait_for_start_time_on self t :
  next_start_time self = Some t ->
  let position := observation_position (finger self) in
  let frozen := set_action position "position" (finger self) in
  next_start_time (snd (wait_for_start_time self)) = Some (t + 4)
  /\ trace (snd (wait_for_start_time self)) =
       trace self
       ++ [EvSetAction position "position"]
       ++ match fst frozen with
          | Ok _ => [EvStepRobot true]
          | Raise _ => []
          end
       ++ [EvSleepUntil t]
  /\ finger (snd (wait_for_start_time self)) =
       match fst frozen with
       | Ok _ => snd (step_robot true (snd frozen))
       | Raise _ => snd frozen
       end.
Proof.
  intros Ht. cbv zeta.
  unfold wait_for_start_time, bind, gets, modify, try_pass, driver_call.
  rewrite Ht. cbv beta.
  destruct (set_action (observation_position (finger self)) "position"
              (finger self)) as [[[]|e] d0]; cbn [fst snd finger set_finger emit].
  - destruct (step_robot true d0) as [r d1]. cbn.
    rewrite <- !app_assoc. auto.
  - cbn. rewrite <- !app_assoc. auto.
Qed.

Lemma reset_keeps_start_time self :
  next_start_time (snd (reset self))
  = next_start_time (snd (wait_for_start_time self)).
Proof.
  rewrite reset_after_wait.
  match goal with |- context [snd (?m ?s)] =>
    assert (Hk : preserves (keeps next_start_time) m) by (keeps_auto);
    exact (Hk s)
  end.
Qed.

Lemma reset_next_start_time self t :
  next_start_time self = Some t ->
  next_start_time (snd (reset self)) = Some (t + 4).
Proof.
  intros Ht. rewrite reset_keeps_start_time.
  now apply wait_for_start_time_on.
Qed.

Lemma reset_prints self :
  exists rest,
    trace (snd (reset self))
    = trace (snd (wait_for_start_time self))
      ++ EvPrint (episode_count self) (next_alpha self) :: rest.
Proof.
  rewrite reset_after_wait, bind_update_smoothing.
  destruct (wait_for_start_time_run self) as (s1 & E1 & Hs1 & _).
  rewrite E1. cbn [snd].
  assert (Hn : next_alpha s1 = next_alpha self
               /\ episode_count s1 = episode_count self).
  { unfold smoothing_state in Hs1.
    apply pair_equal_spec in Hs1 as [Hs1 _].
    apply pair_equal_spec in Hs1 as [Hs1 Hc].
    apply pair_equal_spec in Hs1 as [Hcfg Ha].
    split; [|exact Hc]. unfold next_alpha, on_ramp.
    unfold configuration in Hcfg. injection Hcfg as _ _ Hstart Hinc Hstop _ _ _.
    now rewrite Ha, Hc, Hstart, Hinc, Hstop. }
  destruct Hn as [-> ->].
  match goal with |- context [snd (?m ?s)] =>
    assert (Hk : preserves extends m) by (extends_auto);
    destruct (Hk s) as [rest Hrest]
  end.
  exists rest. rewrite Hrest. cbn [trace emit set_smoothing_alpha].
  now rewrite <- app_assoc.
Qed.

End Synchronized.

(** X5.  With a start time [t] set, a [reset] first tries to freeze the
    robot at its observed position; whether the command or the tick raises
    or not, it then waits until [t], moves the start time on by 4 seconds
    and carries on with the episode: the line of [update_smoothing] is
    printed next.  After [n] resets the start time is [t + 4 * n]. *)
Theorem synchronized_reset_survives_freeze {R : Type} `{Backend R}
    (self : FingerReach R) t :
  next_start_time self = Some t ->
  let position := observation_position (finger self) in
  let frozen := set_action position "position" (finger self) in
  let self1 := snd (wait_for_start_time self) in
  fst (wait_for_start_time self) = Ok tt
  /\ trace self1 =
       trace self
       ++ [EvSetAction position "position"]
       ++ match fst frozen with
          | Ok _ => [EvStepRobot true]
          | Raise _ => []
          end
       ++ [EvSleepUntil t]
  /\ (exists rest,
        trace (snd (reset self))
        = trace self1 ++ EvPrint (episode_count self) (next_alpha self) :: rest)
  /\ next_start_time (snd (reset self)) = Some (t + 4)
  /\ forall n,
       next_start_time (Nat.iter n (fun s => snd (reset s)) self)
       = Some (t + 4 * Z.of_nat n).
Proof.
  intros Ht. cbv zeta.
  split; [apply wait_for_start_time_returns|].
  split; [now apply wait_for_start_time_on|].
  split; [apply reset_prints|].
  split; [now apply reset_next_start_time|].
  induction n as [|n IH].
  - change (next_start_time self = Some (t + 4 * Z.of_nat 0)).
    rewrite Ht. f_equal. lia.
  - change (Nat.iter (S n) (fun s => snd (reset s)) self)
      with (snd (reset (Nat.iter n (fun s => snd (reset s)) self))).
    rewrite (reset_next_start_time _ _ IH). f_equal. lia.
Qed.

(** A synchronised environment on the driver out of order: the freeze
    raises at every reset, and the resets return all the same, 4 seconds
    apart. *)
Lemma synchronized_reset_survives_freeze_witness :
  exists self,
    __init__ (H := faulty_backend 1700000000) 0.02 false "single"
      (training_params 10 0.2 0.8 0.9) 0 "separated" false "0" true = Ok self
    /\ next_start_time self = Some 1700000044
    /\ fst (set_action (Backend := faulty_backend 1700000000)
              (Kinematic.position (finger self)) "position" (finger self))
       = Raise DriverFault
    /\ (exists o, fst (reset (H := faulty_backend 1700000000) self) = Ok o)
    /\ next_start_time (snd (reset (H := faulty_backend 1700000000) self))
       = Some 1700000048.
Proof.
  eexists. split; [vm_compute; reflexivity|].
  split; [reflexivity|]. split; [reflexivity|].
  split; [eexists; vm_compute; reflexivity|].
  refine (proj1 (proj2 (proj2 (proj2
    (synchronized_reset_survives_freeze (H := faulty_backend 1700000000)
       _ 1700000044 _))))).
  reflexivity.
Defined.

(** ** The start time of a synchronised environment *)

(** The start of the next minute, unless the minute is the last of its
    hour. *)
Lemma next_minute_spec now :
  match next_minute now with
  | Ok t => t mod 60 = 0 /\ now < t <= now + 60 /\ (now / 60) mod 60 <> 59
  | Raise e => e = ValueError /\ (now / 60) mod 60 = 59
  end.
Proof.
  unfold next_minute.
  pose proof (Z.div_mod now 60 ltac:(lia)) as Hdiv.
  pose proof (Z.mod_pos_bound now 60 ltac:(lia)) as Hmod.
  pose proof (Z.mod_pos_bound (now / 60) 60 ltac:(lia)) as Hmin.
  destruct (Z.leb_spec ((now / 60) mod 60 + 1) 59).
  - split; [|lia].
    replace (now / 60 * 60 + 60) with (0 + (now / 60 + 1) * 60) by lia.
    now rewrite Z.mod_add by lia.
  - split; [reflexivity|lia].
Qed.

Section SynchronizedStart.
Context {R : Type} `{Backend R}.
Implicit Types self : FingerReach R.

(** The last statements of the constructor before its [reset]. *)
Lemma before_reset_run c ev ft sp vcf ss urr fcs sync steps sm driver driver' :
  init_steps_per_control c = Ok steps ->
  init_smoothing sp = Ok sm ->
  finger_new urr ev ft ss fcs = Ok driver ->
  display_goal driver = (Ok tt, driver') ->
  before_reset c ev ft sp vcf ss urr fcs sync =
    let? start :=
      if sync
      then let? t := next_minute (datetime_now driver') in Ok (Some t)
      else Ok None in
    let fingers := if bool_decide (ft = "single") then 1 else 3 in
    Ok (mkFingerReach fingers steps (sm_start_episode sm) (sm_alpha sm)
          (sm_increase_step sm) (sm_stop_episode sm) None 0
          ["joint_positions"; "joint_velocities"; "goal_position";
           "action_joint_positions"]
          [3 * fingers; 3 * fingers; 3 * fingers; 3 * fingers]
          vcf start None driver' [EvDisplayGoal]).
Proof.
  intros Hsteps Hsm Hnew Hshow. unfold before_reset.
  rewrite Hsteps, Hsm. cbn [result_bind]. rewrite Hnew. cbn [result_bind].
  unfold bind at 1. unfold driver_call. cbn [finger]. rewrite Hshow.
  destruct sync.
  - rewrite bind_gets. cbn [finger set_finger emit].
    unfold bind, lift. destruct (next_minute (datetime_now driver')); reflexivity.
  - reflexivity.
Qed.

Lemma before_reset_driver c ev ft sp vcf ss urr fcs sync self :
  before_reset c ev ft sp vcf ss urr fcs sync = Ok self ->
  exists steps sm driver,
    init_steps_per_control c = Ok steps
    /\ init_smoothing sp = Ok sm
    /\ finger_new urr ev ft ss fcs = Ok driver
    /\ display_goal driver = (Ok tt, finger self).
Proof.
  intros E. pose proof E as E'. revert E'. unfold before_reset at 1.
  destruct (init_steps_per_control c) as [steps|] eqn:Hsteps; [|discriminate].
  destruct (init_smoothing sp) as [sm|] eqn:Hsm; [|discriminate].
  cbn [result_bind].
  destruct (finger_new urr ev ft ss fcs) as [driver|] eqn:Hnew; [|discriminate].
  cbn [result_bind]. intros _.
  destruct (display_goal driver) as [[[]|e] driver'] eqn:Hshow.
  - rewrite (before_reset_run _ _ _ _ _ _ _ _ _ _ _ _ _ Hsteps Hsm Hnew Hshow) in E.
    exists steps, sm, driver. repeat (split; [reflexivity|]).
    destruct (if sync then _ else _) as [start|]; [|discriminate].
    cbn [result_bind] in E. now injection E as <-.
  - exfalso. revert E. unfold before_reset.
    rewrite Hsteps, Hsm. cbn [result_bind]. rewrite Hnew. cbn [result_bind].
    unfold bind at 1. unfold driver_call. cbn [finger]. rewrite Hshow.
    discriminate.
Qed.

End SynchronizedStart.

(** X6.  A constructor called with [synchronize] reads the clock once the
    driver is built and shows its goal, and sets the start time of the first
    episode to the start of the next minute; its own [reset] waits for that
    time and leaves the start time 4 seconds later.  When the clock shows
    minute 59 of an hour the construction fails with [ValueError], as there
    is no minute 60.  Without [synchronize] no start time is set, and none
    ever will be. *)
Theorem synchronized_start_time {R : Type} `{Backend R}
    c ev ft sp vcf ss urr fcs :
  (forall self : FingerReach R,
     before_reset c ev ft sp vcf ss urr fcs true = Ok self ->
     let now := datetime_now (finger self) in
     exists t,
       next_start_time self = Some t
       /\ t mod 60 = 0 /\ now < t <= now + 60 /\ (now / 60) mod 60 <> 59)
  /\ (forall self : FingerReach R,
        __init__ c ev ft sp vcf ss urr fcs true = Ok self ->
        exists t, next_start_time self = Some (t + 4) /\ t mod 60 = 0
                  /\ In (EvSleepUntil t) (trace self))
  /\ (forall steps sm driver driver',
        init_steps_per_control c = Ok steps ->
        init_smoothing sp = Ok sm ->
        finger_new urr ev ft ss fcs = Ok driver ->
        display_goal driver = (Ok tt, driver') ->
        (datetime_now driver' / 60) mod 60 = 59 ->
        __init__ (R := R) c ev ft sp vcf ss urr fcs true = Raise ValueError)
  /\ (forall self : FingerReach R,
        __init__ c ev ft sp vcf ss urr fcs false = Ok self ->
        next_start_time self = None
        /\ next_start_time (snd (reset self)) = None).
Proof.
  assert (Hbefore : forall self : FingerReach R,
     before_reset c ev ft sp vcf ss urr fcs true = Ok self ->
     exists t,
       next_start_time self = Some t
       /\ t mod 60 = 0
       /\ datetime_now (finger self) < t <= datetime_now (finger self) + 60
       /\ (datetime_now (finger self) / 60) mod 60 <> 59).
  { intros self E.
    destruct (before_reset_driver _ _ _ _ _ _ _ _ _ _ E)
      as (steps & sm & driver & Hsteps & Hsm & Hnew & Hshow).
    rewrite (before_reset_run _ _ _ _ _ _ _ _ _ _ _ _ _ Hsteps Hsm Hnew Hshow) in E.
    pose proof (next_minute_spec (datetime_now (finger self))) as Hnext.
    destruct (next_minute (datetime_now (finger self))) as [t|]; [|discriminate].
    cbn [result_bind] in E. injection E as <-. cbn [next_start_time finger] in *.
    eauto. }
  split; [exact Hbefore|]. split; [|split].
  - intros self Hinit. apply init_inv in Hinit as (self0 & o & H0 & Hreset).
    destruct (Hbefore _ H0) as (t & Ht & Hmod & _).
    exists t. split; [|split; [exact Hmod|]].
    + pose proof (reset_next_start_time self0 t Ht) as Hn.
      now rewrite Hreset in Hn.
    + destruct (reset_prints self0) as [rest Hrest].
      rewrite Hreset in Hrest. cbn [snd] in Hrest. rewrite Hrest.
      destruct (wait_for_start_time_on self0 t Ht) as (_ & -> & _).
      rewrite !in_app_iff. left. right. right. right. left. reflexivity.
  - intros steps sm driver driver' Hsteps Hsm Hnew Hshow Hlate.
    unfold __init__.
    rewrite (before_reset_run _ _ _ _ _ _ _ _ _ _ _ _ _ Hsteps Hsm Hnew Hshow).
    pose proof (next_minute_spec (datetime_now driver')) as Hnext.
    destruct (next_minute (datetime_now driver')) as [t|e].
    + lia.
    + destruct Hnext as [-> _]. reflexivity.
  - intros self Hinit. apply init_inv in Hinit as (self0 & o & H0 & Hreset).
    assert (Hoff : next_start_time self0 = None).
    { destruct (before_reset_driver _ _ _ _ _ _ _ _ _ _ H0)
        as (steps & sm & driver & Hsteps & Hsm & Hnew & Hshow).
      rewrite (before_reset_run _ _ _ _ _ _ _ _ _ _ _ _ _ Hsteps Hsm Hnew Hshow) in H0.
      cbn [result_bind] in H0. now injection H0 as <-. }
    assert (Hkeep : forall s : FingerReach R, next_start_time s = None ->
              next_start_time (snd (reset s)) = None).
    { intros s Hs. rewrite reset_keeps_start_time.
      now rewrite wait_for_start_time_off. }
    pose proof (Hkeep _ Hoff) as Hself. rewrite Hreset in Hself.
    cbn [snd] in Hself. auto.
Qed.

(** At 22:13:20 the first episode is set to start at 22:14:00; at 22:59:20
    the constructor fails. *)
Lemma synchronized_start_time_witness :
  (exists self,
     __init__ (H := faulty_backend 1700000000) 0.02 false "single"
       (training_params 10 0.2 0.8 0.9) 0 "separated" false "0" true = Ok self
     /\ next_start_time self = Some (1700000040 + 4))
  /\ (1700002760 / 60) mod 60 = 59
  /\ __init__ (H := faulty_backend 1700002760) 0.02 false "single"
       (training_params 10 0.2 0.8 0.9) 0 "separated" false "0" true
     = Raise ValueError.
Proof.
  split; [eexists; split; vm_compute; reflexivity|].
  split; [reflexivity|].
  refine (proj1 (proj2 (proj2
    (synchronized_start_time (H := faulty_backend 1700002760)
       0.02%float false "single" (training_params 10 0.2 0.8 0.9) 0%float
       "separated" false "0")))
    5 _ _ _ _ _ _ _ _); vm_compute; reflexivity.
Defined.

(** X7.  Whether it returns or raises, a [step] leaves alone the goal, the
    episode count, the smoothing coefficient, the start time and the
    configuration, and only adds to the log; a [render] moreover leaves
    the buffer alone, makes the one call [connect_to_simulation(True)] and
    raises what that call raises. *)
Theorem step_and_render_leave_episode_alone {R : Type} `{Backend R}
    (self : FingerReach R) action :
  (let after := snd (step action self) in
   goal after = goal self
   /\ episode_count after = episode_count self
   /\ smoothing_alpha after = smoothing_alpha self
   /\ next_start_time after = next_start_time self
   /\ configuration after = configuration self
   /\ exists rest, trace after = trace self ++ rest)
  /\ (let after := snd (render self) in
      goal after = goal self
      /\ episode_count after = episode_count self
      /\ smoothing_alpha after = smoothing_alpha self
      /\ next_start_time after = next_start_time self
      /\ configuration after = configuration self
      /\ smoothed_action after = smoothed_action self
      /\ trace after = trace self ++ [EvConnect true]
      /\ render self
         = (fst (connect_to_simulation true (finger self)),
            set_finger (snd (connect_to_simulation true (finger self)))
              (emit (EvConnect true) self))).
Proof.
  split; cbv zeta.
  - pose proof (step_keeps action self) as Hk. unfold keeps, episode_state in Hk.
    apply pair_equal_spec in Hk as [Hk Hg].
    apply pair_equal_spec in Hk as [Hk Hn].
    apply pair_equal_spec in Hk as [Hk Hc].
    apply pair_equal_spec in Hk as [Hcfg Ha].
    repeat (split; [assumption|]). apply step_extends.
  - pose proof (render_keeps self) as Hk. unfold keeps, episode_state in Hk.
    apply pair_equal_spec in Hk as [Hk Hs].
    apply pair_equal_spec in Hk as [Hk Hg].
    apply pair_equal_spec in Hk as [Hk Hn].
    apply pair_equal_spec in Hk as [Hk Hc].
    apply pair_equal_spec in Hk as [Hcfg Ha].
    repeat (split; [assumption|]).
    unfold render, driver_call.
    destruct (connect_to_simulation true (finger self)) as [r d]. auto.
Qed.

(** ** The observation vector *)

Lemma broadcast_lengths op (a b d : Np.vec) :
  Np.broadcast op a b = Ok d ->
  length a = length b \/ length a = 1%nat \/ length b = 1%nat.
Proof.
  unfold Np.broadcast.
  destruct (Nat.eqb_spec (length a) (length b)); [auto|].
  destruct a as [|x [|? ?]]; [| auto |];
    destruct b as [|y [|? ?]]; cbn; auto; discriminate.
Qed.

(** X8.  In an environment that a program can hold, an observation that
    [_get_observation] returns is the joint positions, the joint
    velocities, the coordinates of the goal and the given action, in this
    order: the tip positions and their offset to the goal are computed but
    are not part of it.  They must be computable all the same: there is a
    goal, the kinematics give at least one tip, and the two have shapes
    that numpy can subtract.  With four blocks of [3 * num_fingers] values the
    observation has as many values as the declared sizes add up to.
    Nothing but the log changes, and the log only when asked. *)
Theorem observation_layout {R : Type} `{Backend R} smoothing_params
    (self : FingerReach R) action log o self' :
  reachable smoothing_params self ->
  _get_observation action log self = (Ok o, self') ->
  let jp := observation_position (finger self) in
  let jv := observation_velocity (finger self) in
  exists g ee,
    goal self = Some g
    /\ Np.concatenate (forward_kinematics jp) = Ok ee
    /\ g <> [] /\ forward_kinematics jp <> []
    /\ (length (concat g) = length ee \/ length (concat g) = 1%nat
        \/ length ee = 1%nat)
    /\ o = jp ++ jv ++ concat g ++ action
    /\ self' = (if log then emit (EvLoggerAppend jp ee) self else self)
    /\ (let n := 3 * num_fingers self in
        Z.of_nat (length jp) = n -> Z.of_nat (length jv) = n ->
        Z.of_nat (length (concat g)) = n -> Z.of_nat (length action) = n ->
        Z.of_nat (length o) = foldr Z.add 0 (observations_sizes self)).
Proof.
  intros Hreach E. cbv zeta.
  destruct (reachable_layout _ _ Hreach) as [[Hkeys Hsizes] _].
  pose proof (wp_ok _ _ _ _ _ (get_observation_spec action log self) E)
    as (g & ee & flat & e2g & Hg & Hee & Hflat & He2g & Ho & Hself).
  cbv beta in *.
  rewrite Hkeys, flatten_observation_standard in Ho. injection Ho as <-.
  assert (Hgne : g <> []) by (intros ->; discriminate Hflat).
  assert (Hflat' : flat = concat g).
  { destruct g; [contradiction|]. now injection Hflat as <-. }
  subst flat.
  exists g, ee. split; [assumption|]. split; [assumption|].
  split; [assumption|].
  split; [intros Habs; rewrite Habs in Hee; discriminate Hee|].
  split; [eapply broadcast_lengths; exact He2g|].
  split; [now rewrite app_nil_r|]. split; [assumption|].
  intros Hjp Hjv Hgl Hal. rewrite Hsizes. cbn [foldr].
  rewrite !length_app, !Nat2Z.inj_add. cbn [length]. lia.
Qed.

(** The observation that the constructor's [reset] takes on the reference
    driver. *)
Lemma observation_layout_witness :
  exists self o,
    make 0.02 "single" (training_params 10 0.2 0.8 0.9) = Ok self
    /\ _get_observation [1; 2; 3]%float false self = (Ok o, self)
    /\ o = [0; 0; 0; 0; 0; 0; 0.1; 0.2; 0.3; 1; 2; 3]%float
    /\ Z.of_nat (length o) = 12.
Proof.
  eexists _, _.
  split; [vm_compute; reflexivity|].
  split; [vm_compute; reflexivity|].
  lazymatch goal with
  | |- ?o = _ /\ _ =>
      assert (E : exists s,
                make 0.02 "single" (training_params 10 0.2 0.8 0.9) = Ok s
                /\ reachable (training_params 10 0.2 0.8 0.9) s
                /\ _get_observation [1; 2; 3]%float false s = (Ok o, s))
        by (eexists; split; [vm_compute; reflexivity|];
            split; [apply (reach_init _ 0.02%float false "single" 0%float
                             "separated" false "0" false);
                    vm_compute; reflexivity
                   |vm_compute; reflexivity])
  end.
  destruct E as (s & Emake & Hreach & E).
  vm_compute in Emake. injection Emake as <-.
  destruct (observation_layout _ _ _ _ _ _ Hreach E)
    as (g & ee & Hg & _ & _ & _ & _ & Ho & _ & Hlen).
  vm_compute in Hg. injection Hg as <-.
  split; [exact Ho|].
  apply Hlen; reflexivity.
Defined.

(** ** The control loop, tick by tick *)

Section Ticks.
Context {R : Type} `{Backend R}.
Implicit Types self : FingerReach R.

(** [step] up to its control loop: the buffer is updated, and the loop and
    the rest run on the object with the new buffer. *)
Lemma step_prefix action self sa :
  let u := unscale_action (num_fingers self) action in
  Np.add (Np.scale (smoothing_alpha self) (default u (smoothed_action self)))
         (Np.scale (1 - smoothing_alpha self)%float u) = Ok sa ->
  step action self =
    (let* observation :=
       control_loop (Z.to_nat (steps_per_control self)) None in
     let* goal := getattr "goal" goal in
     let* rd := _compute_reward observation goal in
     let '(reward, done) := rd in
     let is_success := if done then 1%float else 0%float in
     let* o := lift (match observation with
                     | Some o => Ok o
                     | None => Raise TypeError
                     end) in
     ret (scale_observation (num_fingers self) o, reward, done, is_success))
      (set_smoothed_action (Some sa) self).
Proof.
  intros u Hadd. unfold step. rewrite !bind_gets. fold u.
  destruct (smoothed_action self) as [previous|] eqn:Ebuf; cbn [default] in Hadd.
  - rewrite bind_ret, bind_gets.
    rewrite (bind_getattr_some _ _ _ _ previous) by exact Ebuf.
    rewrite (bind_lift_ok _ _ _ sa) by exact Hadd.
    rewrite bind_modify, bind_gets. reflexivity.
  - rewrite bind_modify, bind_gets.
    rewrite (bind_getattr_some _ _ _ _ u) by reflexivity.
    cbn [smoothing_alpha set_smoothed_action].
    rewrite (bind_lift_ok _ _ _ sa) by exact Hadd.
    rewrite bind_modify, bind_gets. reflexivity.
Qed.

(** The driver after the ticks that follow the first one. *)
Lemma control_loop_rest_driver n : forall o sa self,
  smoothed_action self = Some sa ->
  wp (control_loop n (Some o))
    (fun _ self' =>
       finger self' = Nat.iter n (later_tick_driver sa) (finger self))
    self.
Proof.
  induction n as [|n IH]; intros o sa self Hsa; cbn [control_loop].
  - apply wp_ret. reflexivity.
  - wp_auto.
    match goal with E : smoothed_action self = Some ?a |- _ =>
      rewrite Hsa in E; injection E as <- end.
    cbn [is_none] in *.
    eapply wp_consequence; [apply (IH o sa); exact Hsa|].
    cbv beta. intros _ self' ->. cbn [finger set_finger emit] in *.
    rewrite Nat.iter_succ_r. f_equal. unfold later_tick_driver.
    match goal with E : set_action _ _ _ = _ |- _ => rewrite E end.
    cbn [snd].
    match goal with E : step_robot _ _ = _ |- _ => now rewrite E end.
Qed.

(** The driver after a [step] that returned: one tick that waited for the
    observation, and [N - 1] more. *)
Lemma step_driver action self res self' sa :
  step action self = (Ok res, self') ->
  smoothed_action self' = Some sa ->
  finger self' =
    Nat.iter (Z.to_nat (steps_per_control self) - 1) (later_tick_driver sa)
      (first_tick sa (finger self)).
Proof.
  intros E Hsa'. pose proof E as Hout.
  apply step_ok in Hout as (sa0 & driver1 & g & o & ip & iv & dist & Hout).
  destruct Hout as (driver0 & ee & flat & e2g & Hadd & Hpos & Hset & Htick & Hrest).
  assert (sa0 = sa) as ->.
  { repeat apply proj2 in Hrest. congruence. }
  clear Hrest. rewrite (step_prefix action self sa Hadd) in E.
  clear Hsa'. pattern res, self'.
  match goal with |- ?Q res self' =>
    refine (wp_ok _ Q _ res self' _ E) end.
  cbn [steps_per_control set_smoothed_action].
  destruct (Z.to_nat (steps_per_control self)) as [|n] eqn:En; [lia|].
  cbn [control_loop]. wp_auto.
  cbn [smoothed_action set_smoothed_action finger set_finger emit is_none] in *.
  repeat match goal with E : Some _ = Some _ |- _ => injection E as <- end.
  eapply wp_consequence; [apply get_observation_spec|].
  cbv beta. intros o1 s1 (g1 & ee1 & flat1 & e2g1 & _ & _ & _ & _ & _ & ->).
  wp_auto.
  eapply wp_consequence; [apply (control_loop_rest_driver n o1 sa); reflexivity|].
  cbv beta. intros o2 s2 Hf. wp_auto.
  eapply wp_consequence; [apply compute_reward_spec|].
  cbv beta. intros [reward done] s3 (-> & _). wp_auto.
  rewrite Hf. cbn [finger set_finger emit]. f_equal; [lia|].
  unfold first_tick.
  match goal with E : set_action _ _ _ = _ |- _ => rewrite E end.
  cbn [snd].
  match goal with E : step_robot _ _ = _ |- _ => now rewrite E end.
Qed.

End Ticks.

(** C5.  A [step] that returns has commanded the driver exactly
    [N = steps_per_control] times (and [N >= 1]), every time with the same
    smoothed action in position mode and each command followed by one tick:
    the log shows these calls and no others, and the driver is in the state
    that the first command and tick and [N - 1] further commands and ticks
    leave.  The observation was taken, and logged, exactly once, right
    after the first tick, and the returned observation and the reward are
    computed from it. *)
Theorem step_control_loop {R : Type} `{Backend R} (self : FingerReach R)
    action res self' :
  step action self = (Ok res, self') ->
  exists sa ee o g,
    let n := Z.to_nat (steps_per_control self) in
    let driver1 := first_tick sa (finger self) in
    (1 <= n)%nat
    /\ smoothed_action self' = Some sa
    /\ finger self' = Nat.iter (n - 1) (later_tick_driver sa) driver1
    /\ trace self' =
       trace self
       ++ [EvSetAction sa "position"; EvStepRobot true;
           EvLoggerAppend (observation_position driver1) ee]
       ++ concat (repeat (later_tick sa) (n - 1))
    /\ commands (trace self')
       = commands (trace self) ++ repeat (sa, "position") n
    /\ ticks (trace self') = ticks (trace self) ++ true :: repeat false (n - 1)
    /\ logged_observations (trace self')
       = logged_observations (trace self)
         ++ [(observation_position driver1, ee)]
    /\ goal self = Some g
    /\ (exists flat e2g,
          Np.concatenate (forward_kinematics (observation_position driver1))
          = Ok ee
          /\ Np.concatenate g = Ok flat
          /\ Np.subtract flat ee = Ok e2g
          /\ flatten_observation
               (observation_dict ee (observation_position driver1)
                  (observation_velocity driver1) e2g flat sa)
               (observations_keys self) = Ok o)
    /\ fst (fst (fst res)) = scale_observation (num_fingers self) o
    /\ (exists ip iv dist,
          key_to_index (observations_keys self) (observations_sizes self)
            !! "joint_positions" = Some ip
          /\ key_to_index (observations_keys self) (observations_sizes self)
               !! "joint_velocities" = Some iv
          /\ compute_distance (forward_kinematics (Np.slice o ip)) g = Ok dist
          /\ snd (fst (fst res))
             = ((- dist - velocity_cost_factor self
                          * Np.linalg_norm (Np.slice o iv))
                * float_of_Z (steps_per_control self))%float).
Proof.
  intros E. pose proof E as Hstep.
  apply step_ok in E as (sa & driver1 & g & o & ip & iv & dist & Hout).
  destruct Hout as (driver0 & ee & flat & e2g & Hout).
  destruct Hout as (_ & Hsteps & Hset & Htick & Hg & Hee & Hflat & He2g & Ho
                    & Hip & Hiv & Hdist & -> & Htrace & _ & Hsa).
  assert (Hfirst : first_tick sa (finger self) = driver1).
  { unfold first_tick. rewrite Hset. cbn [snd]. now rewrite Htick. }
  exists sa, ee, o, g. cbv zeta. rewrite Hfirst.
  set (n := Z.to_nat (steps_per_control self)) in *.
  assert (Hn : (1 <= n)%nat) by (unfold n; lia).
  split; [exact Hn|]. split; [exact Hsa|].
  split; [rewrite <- Hfirst; exact (step_driver _ _ _ _ _ Hstep Hsa)|].
  split; [exact Htrace|].
  split; [|split; [|split; [|split; [exact Hg|split; [|split]]]]].
  - rewrite Htrace, !commands_app, commands_later_ticks. cbn.
    replace n with (S (n - 1)) at 2 by lia. reflexivity.
  - rewrite Htrace, !ticks_app, ticks_later_ticks. reflexivity.
  - rewrite Htrace, !logged_observations_app, logged_observations_later_ticks.
    reflexivity.
  - exists flat, e2g. auto.
  - reflexivity.
  - exists ip, iv, dist. auto.
Qed.

(** Five ticks for one step on the reference driver: the joints move at
    the first tick and are at rest after the fifth. *)
Lemma step_control_loop_witness :
  exists self res self',
    make 0.02 "single" (training_params 10 0.2 0.8 0.9) = Ok self
    /\ step [0.1; 0.2; 0.3]%float self = (Ok res, self')
    /\ exists sa,
        commands (trace self')
        = commands (trace self) ++ repeat (sa, "position") 5
        /\ ticks (trace self')
           = ticks (trace self) ++ [true; false; false; false; false]
        /\ finger self'
           = Nat.iter 4 (later_tick_driver sa) (first_tick sa (finger self))
        /\ Kinematic.velocity (first_tick sa (finger self))
           = [0.1; 0.2; 0.3]%float
        /\ Kinematic.velocity (finger self') = [0; 0; 0]%float.
Proof.
  eexists _, _, _.
  split; [vm_compute; reflexivity|].
  split; [vm_compute; reflexivity|].
  match goal with |- context [commands (trace ?s')] =>
    match goal with |- context [ticks (trace ?s) ++ _] =>
      assert (E : exists res, step [0.1; 0.2; 0.3]%float s = (Ok res, s'))
        by (eexists; vm_compute; reflexivity)
    end
  end.
  destruct E as [res E].
  destruct (step_control_loop _ _ _ _ E)
    as (sa & ee & o & g & _ & Hsa & Hdriver & _ & Hcommands & Hticks & _).
  exists sa. split; [exact Hcommands|]. split; [exact Hticks|].
  split; [exact Hdriver|].
  vm_compute in Hsa. injection Hsa as <-. split; reflexivity.
Defined.

(** X9.  The observation that a [step] returns on an environment that a
    program can hold is the scaled vector of the joint positions and
    velocities that the driver reported right after the first tick, the
    coordinates of the goal and the smoothed action (not the action that
    the caller passed); the driver itself has by then gone through
    [N - 1] more commands and ticks, which the observation does not
    show. *)
Theorem step_observation_after_first_tick {R : Type} `{Backend R}
    smoothing_params (self : FingerReach R) action res self' :
  reachable smoothing_params self ->
  step action self = (Ok res, self') ->
  exists sa g,
    smoothed_action self' = Some sa
    /\ goal self = Some g
    /\ let driver1 := first_tick sa (finger self) in
       fst (fst (fst res))
       = scale_observation (num_fingers self)
           (observation_position driver1 ++ observation_velocity driver1
            ++ concat g ++ sa)
       /\ finger self'
          = Nat.iter (Z.to_nat (steps_per_control self) - 1)
              (later_tick_driver sa) driver1.
Proof.
  intros Hreach E.
  destruct (reachable_layout _ _ Hreach) as [[Hkeys Hsizes] _].
  pose proof E as Hout.
  apply step_ok in Hout as (sa & driver1 & g & o & ip & iv & dist & Hout).
  destruct Hout as (driver0 & ee & flat & e2g & _ & _ & Hset & Htick & Hg & _
                    & Hflat & _ & Ho & _ & _ & _ & Hres & _ & _ & Hsa).
  exists sa, g. split; [exact Hsa|]. split; [exact Hg|].
  assert (Hfirst : first_tick sa (finger self) = driver1).
  { unfold first_tick. rewrite Hset. cbn [snd]. now rewrite Htick. }
  cbv zeta. split.
  - rewrite Hfirst, Hres. cbn [fst].
    rewrite Hkeys, flatten_observation_standard in Ho. injection Ho as <-.
    rewrite app_nil_r. destruct g; [discriminate Hflat|].
    now injection Hflat as <-.
  - eapply step_driver; eassumption.
Qed.

(** A step of five ticks on the reference driver: the observation shows the
    joints moving, as after the first tick; the driver has come to rest. *)
Lemma step_observation_after_first_tick_witness :
  exists self res self',
    make 0.02 "single" (training_params 10 0.2 0.8 0.9) = Ok self
    /\ step [0.1; 0.2; 0.3]%float self = (Ok res, self')
    /\ fst (fst (fst res))
       = [0.1; 0.2; 0.3; 0.1; 0.2; 0.3; 0.1; 0.2; 0.3; 0.1; 0.2; 0.3]%float
    /\ Kinematic.velocity (finger self') = [0; 0; 0]%float.
Proof.
  eexists _, _, _.
  split; [vm_compute; reflexivity|].
  split; [vm_compute; reflexivity|].
  lazymatch goal with
  | |- fst (fst (fst ?r)) = _ /\ Kinematic.velocity (finger ?s') = _ =>
      assert (E : exists s,
                make 0.02 "single" (training_params 10 0.2 0.8 0.9) = Ok s
                /\ reachable (training_params 10 0.2 0.8 0.9) s
                /\ step [0.1; 0.2; 0.3]%float s = (Ok r, s'))
        by (eexists; split; [vm_compute; reflexivity|];
            split; [apply (reach_init _ 0.02%float false "single" 0%float
                             "separated" false "0" false);
                    vm_compute; reflexivity
                   |vm_compute; reflexivity])
  end.
  destruct E as (s & Emake & Hreach & E).
  vm_compute in Emake. injection Emake as <-.
  destruct (step_observation_after_first_tick _ _ _ _ _ Hreach E)
    as (sa & g & Hsa & Hg & Ho & Hf).
  vm_compute in Hsa. injection Hsa as <-.
  vm_compute in Hg. injection Hg as <-.
  split; [exact Ho|]. reflexivity.
Defined.

(** ** Steps that fail *)

Section Failures.
Context {R : Type} `{Backend R}.
Implicit Types self : FingerReach R.

Lemma bind_lift_raise {A B} (k : A -> M R B) self e :
  bind (lift (Raise e)) k self = (Raise e, self).
Proof. reflexivity. Qed.

Lemma bind_driver_call_raise {A B} ev (op : R -> result A * R) (k : A -> M R B)
    self e driver :
  op (finger self) = (Raise e, driver) ->
  bind (driver_call ev op) k self = (Raise e, set_finger driver (emit ev self)).
Proof. intros E. unfold bind, driver_call. now rewrite E. Qed.

(** The smoothed action when the buffer is absent or has the length of the
    raw action. *)
Lemma smoothed_action_defined action self :
  let u := unscale_action (num_fingers self) action in
  (forall previous, smoothed_action self = Some previous ->
                    length previous = length u) ->
  Np.add (Np.scale (smoothing_alpha self) (default u (smoothed_action self)))
         (Np.scale (1 - smoothing_alpha self)%float u)
  = Ok (zip_with (average (smoothing_alpha self))
          (default u (smoothed_action self)) u).
Proof.
  intros u Hlen. apply np_add_scaled.
  destruct (smoothed_action self) as [previous|]; cbn [default]; auto.
Qed.

End Failures.

(** X10.  The constructor accepts a control rate that rounds to a repeat
    count of 0 or less (a rate of 0, or a negative multiple of the
    simulation rate); on such an environment every [step] whose buffer is
    absent or has the length of the action raises [TypeError]: the control
    loop does not run, no command reaches the driver, no observation is
    taken, and the reward is asked of [None].  The buffer has been updated
    all the same. *)
Theorem zero_repeat_count_step_fails {R : Type} `{Backend R} smoothing_params
    (self : FingerReach R) action :
  reachable smoothing_params self ->
  steps_per_control self <= 0 ->
  let u := unscale_action (num_fingers self) action in
  (forall previous, smoothed_action self = Some previous ->
                    length previous = length u) ->
  step action self
  = (Raise TypeError,
     set_smoothed_action
       (Some (zip_with (average (smoothing_alpha self))
                (default u (smoothed_action self)) u))
       self)
  /\ init_steps_per_control 0 = Ok 0
  /\ init_steps_per_control (-0.004) = Ok (-1).
Proof.
  intros Hreach Hsteps u Hlen.
  split; [|split; vm_compute; reflexivity].
  destruct (reachable_layout _ _ Hreach) as [[Hkeys Hsizes] _].
  destruct (reachable_goal _ _ Hreach) as [g Hg].
  rewrite (step_prefix action self _ (smoothed_action_defined action self Hlen)).
  fold u. rewrite Z2Nat.nonpos by assumption. cbn [control_loop].
  rewrite bind_ret.
  rewrite (bind_getattr_some _ _ _ _ g) by exact Hg.
  destruct (key_to_index_standard (3 * num_fingers self)) as [Ep _].
  cbv zeta in Ep.
  unfold _compute_reward, bind, gets, lift.
  cbn [observations_keys observations_sizes set_smoothed_action].
  rewrite Hkeys, Hsizes, Ep. reflexivity.
Qed.

(** A control rate of 0 on the reference driver. *)
Lemma zero_repeat_count_step_fails_witness :
  exists self,
    make 0 "single" (training_params 10 0.2 0.8 0.9) = Ok self
    /\ steps_per_control self = 0
    /\ fst (step [0.1; 0.2; 0.3]%float self) = Raise TypeError
    /\ trace (snd (step [0.1; 0.2; 0.3]%float self)) = trace self
    /\ exists self_neg,
         make (-0.004) "single" (training_params 10 0.2 0.8 0.9) = Ok self_neg
         /\ steps_per_control self_neg = -1.
Proof.
  eexists. split; [vm_compute; reflexivity|].
  split; [reflexivity|].
  lazymatch goal with
  | |- fst (step _ ?s) = _ /\ _ =>
      assert (E : step [0.1; 0.2; 0.3]%float s
                  = (Raise TypeError,
                     set_smoothed_action
                       (Some (zip_with (average (smoothing_alpha s))
                                (default [0.1; 0.2; 0.3]%float (smoothed_action s))
                                [0.1; 0.2; 0.3]%float)) s))
      ; [refine (proj1 (zero_repeat_count_step_fails
                          (training_params 10 0.2 0.8 0.9)
                          s [0.1; 0.2; 0.3]%float _ _ _))|]
  end.
  - apply (reach_init _ 0%float false "single" 0%float "separated" false "0"
             false).
    vm_compute. reflexivity.
  - vm_compute. discriminate.
  - intros previous Hprev. discriminate Hprev.
  - rewrite E. split; [reflexivity|]. split; [reflexivity|].
    eexists. split; [vm_compute; reflexivity|reflexivity].
Defined.

(** X11.  A driver fault in the control loop of a [step] reaches the caller
    as it is: when the first command, or the first tick, raises [e], the
    [step] raises [e].  By then the buffer holds the new smoothed action,
    and nothing else of the environment has changed but the driver and the
    log; no observation was taken. *)
Theorem driver_fault_in_step_propagates {R : Type} `{Backend R}
    (self : FingerReach R) action sa :
  let u := unscale_action (num_fingers self) action in
  Np.add (Np.scale (smoothing_alpha self) (default u (smoothed_action self)))
         (Np.scale (1 - smoothing_alpha self)%float u) = Ok sa ->
  0 < steps_per_control self ->
  let self1 := set_smoothed_action (Some sa) self in
  (forall e driver,
     set_action sa "position" (finger self) = (Raise e, driver) ->
     step action self
     = (Raise e, set_finger driver (emit (EvSetAction sa "position") self1)))
  /\ (forall driver0 e driver,
        set_action sa "position" (finger self) = (Ok tt, driver0) ->
        step_robot true driver0 = (Raise e, driver) ->
        step action self
        = (Raise e,
           set_finger driver
             (emit (EvStepRobot true)
                (set_finger driver0 (emit (EvSetAction sa "position") self1))))).
Proof.
  intros u Hadd Hsteps self1.
  rewrite (step_prefix action self sa Hadd). fold self1.
  destruct (Z.to_nat (steps_per_control self)) as [|n] eqn:En; [lia|].
  cbn [control_loop]. split.
  - intros e driver Hset. rewrite !bind_assoc.
    rewrite (bind_getattr_some _ _ _ _ sa) by reflexivity.
    rewrite !bind_assoc.
    now rewrite (bind_driver_call_raise _ _ _ _ e driver) by exact Hset.
  - intros driver0 e driver Hset Htick. rewrite !bind_assoc.
    rewrite (bind_getattr_some _ _ _ _ sa) by reflexivity.
    rewrite !bind_assoc.
    rewrite (bind_driver_call _ _ _ _ tt driver0) by exact Hset.
    rewrite !bind_assoc. cbn [is_none].
    now rewrite (bind_driver_call_raise _ _ _ _ e driver) by exact Htick.
Qed.

(** A step on the driver out of order. *)
Lemma driver_fault_in_step_propagates_witness :
  exists self,
    __init__ (H := faulty_backend 1700000000) 0.02 false "single"
      (training_params 10 0.2 0.8 0.9) 0 "separated" false "0" false = Ok self
    /\ fst (step (H := faulty_backend 1700000000) [0.1; 0.2; 0.3]%float self)
       = Raise DriverFault
    /\ smoothed_action
         (snd (step (H := faulty_backend 1700000000) [0.1; 0.2; 0.3]%float self))
       = Some [0.1; 0.2; 0.3]%float.
Proof.
  eexists. split; [vm_compute; reflexivity|].
  lazymatch goal with
  | |- fst (step _ ?s) = _ /\ _ =>
      pose proof (proj1 (driver_fault_in_step_propagates
                           (H := faulty_backend 1700000000) s
                           [0.1; 0.2; 0.3]%float [0.1; 0.2; 0.3]%float
                           eq_refl eq_refl)
                    DriverFault (finger s) eq_refl) as E
  end.
  rewrite E. split; reflexivity.
Defined.

(** ** Resets that fail *)

(** X12.  A driver fault during a [reset] reaches the caller as it is, and
    leaves the episode half started: the episode is counted, the
    coefficient updated and the buffer cleared in any case.  When the reset
    pose or the sampler raises, the goal is still the one of the episode
    before; when the goal markers raise, the goal is already the new one
    and the data logger has been told of the new episode. *)
Theorem failed_reset_keeps_old_goal {R : Type} `{Backend R}
    (self : FingerReach R) e driver :
  let self1 := snd (wait_for_start_time self) in
  let after := snd (reset self) in
  (episode_count after = episode_count self + 1
   /\ smoothing_alpha after = next_alpha self
   /\ smoothed_action after = None)
  /\ (reset_finger (finger self1) = (Raise e, driver) ->
      fst (reset self) = Raise e
      /\ goal after = goal self /\ finger after = driver)
  /\ (forall action driver1,
        reset_finger (finger self1) = (Ok action, driver1) ->
        sample_random_joint_positions_for_reaching driver1 = (Raise e, driver) ->
        fst (reset self) = Raise e
        /\ goal after = goal self /\ finger after = driver)
  /\ (forall action driver1 target driver2,
        reset_finger (finger self1) = (Ok action, driver1) ->
        sample_random_joint_positions_for_reaching driver1
        = (Ok target, driver2) ->
        reset_goal_markers (forward_kinematics target) driver2
        = (Raise e, driver) ->
        fst (reset self) = Raise e
        /\ goal after = Some (forward_kinematics target)
        /\ finger after = driver
        /\ In (EvLoggerNewEpisode target (forward_kinematics target))
              (trace after)).
Proof.
  cbv zeta.
  split; [destruct (reset_smoothing self) as (_ & ? & ? & ?); auto|].
  destruct (wait_for_start_time_run self) as (s1 & E1 & _ & Hg1).
  rewrite reset_after_wait, bind_update_smoothing, E1. cbn [snd].
  rewrite bind_gets, !bind_modify.
  match goal with |- context [bind _ _ ?s] => set (s2 := s) end.
  assert (Hf2 : finger s2 = finger s1) by reflexivity.
  assert (Hg2 : goal s2 = goal self) by (rewrite <- Hg1; reflexivity).
  clearbody s2. rewrite <- Hf2.
  split; [|split].
  - intros Hreset.
    rewrite (bind_driver_call_raise _ _ _ _ e driver) by exact Hreset.
    cbn [fst snd goal finger set_finger emit]. auto.
  - intros action driver1 Hreset Hsample.
    rewrite (bind_driver_call _ _ _ _ action driver1) by exact Hreset.
    rewrite (bind_driver_call_raise _ _ _ _ e driver) by exact Hsample.
    cbn [fst snd goal finger set_finger emit]. auto.
  - intros action driver1 target driver2 Hreset Hsample Hmarkers.
    rewrite (bind_driver_call _ _ _ _ action driver1) by exact Hreset.
    rewrite (bind_driver_call _ _ _ _ target driver2) by exact Hsample.
    rewrite bind_modify.
    rewrite (bind_getattr_some _ _ _ _ (forward_kinematics target))
      by reflexivity.
    rewrite bind_modify.
    rewrite (bind_driver_call_raise _ _ _ _ e driver) by exact Hmarkers.
    cbn [fst snd goal finger trace set_finger set_goal emit].
    split; [reflexivity|]. split; [reflexivity|]. split; [reflexivity|].
    rewrite !in_app_iff. left. right. left. reflexivity.
Qed.

(** The reference driver with a sampler that has run out: the reset raises
    the fault of the sampler, and the goal of the first episode stays. *)
Lemma failed_reset_keeps_old_goal_witness :
  exists self,
    make 0.02 "single" (training_params 10 0.2 0.8 0.9) = Ok self
    /\ let worn :=
         set_finger
           (Kinematic.mkRobot [0; 0; 0]%float [0; 0; 0]%float [0; 0; 0]%float []
              1700000000) self in
       fst (reset worn) = Raise DriverFault
       /\ goal (snd (reset worn)) = Some [[0.1; 0.2; 0.3]%float]
       /\ episode_count (snd (reset worn)) = 2.
Proof.
  eexists. split; [vm_compute; reflexivity|]. cbv zeta.
  lazymatch goal with
  | |- fst (reset ?s) = _ /\ _ =>
      pose proof (failed_reset_keeps_old_goal s DriverFault
                    (Kinematic.mkRobot [0; 0; 0]%float [0; 0; 0]%float
                       [0; 0; 0]%float [] 1700000000))
        as [(Hc & _) (_ & Hsample & _)];
      destruct (Hsample [0; 0; 0]%float
                  (Kinematic.mkRobot [0; 0; 0]%float [0; 0; 0]%float
                     [0; 0; 0]%float [] 1700000000) eq_refl eq_refl)
        as (Hraise & Hgoal & _)
  end.
  split; [exact Hraise|]. split; [exact Hgoal|exact Hc].
Defined.

(** ** The sign of the reward *)

Lemma binary_round_aux_sign (s : bool) m e l :
  (if s then SFnot_positive (binary_round_aux prec emax s m e l)
   else SFnot_negative (binary_round_aux prec emax s m e l)) = true.
Proof.
  unfold binary_round_aux.
  destruct (shr_fexp prec emax m e l) as [mrs e'].
  destruct (shr_fexp prec emax _ e' loc_Exact) as [mrs'' e''].
  destruct (shr_m mrs''); [|destruct (e'' <=? emax - prec)|];
    destruct s; reflexivity.
Qed.

Lemma SFsqrt_sign x : SFnot_negative (SF64sqrt x) = true.
Proof.
  destruct x as [s|[]| |[] m e]; try reflexivity.
  unfold SF64sqrt, SFsqrt.
  destruct (SFsqrt_core_binary prec emax (Zpos m) e) as [[mz ez] lz].
  apply (binary_round_aux_sign false).
Qed.

Lemma SFopp_sign x : SFnot_negative x = true -> SFnot_positive (SFopp x) = true.
Proof. destruct x as [s|[]| |[] m e]; try discriminate; reflexivity. Qed.

Lemma SFmul_sign x y :
  SFnot_negative y = true ->
  (SFnot_negative x = true -> SFnot_negative (SF64mul x y) = true)
  /\ (SFnot_positive x = true -> SFnot_positive (SF64mul x y) = true).
Proof.
  intros Hy.
  destruct y as [sy|[]| |[] my ey]; try discriminate Hy;
    destruct x as [sx|[]| |[] mx ex]; split; intros Hx;
    try discriminate Hx; try reflexivity;
    try (destruct sx; try destruct sy; reflexivity);
    try (destruct sy; reflexivity).
  - apply (binary_round_aux_sign true).
  - apply (binary_round_aux_sign false).
Qed.

Lemma SFsub_sign x y :
  SFnot_positive x = true -> SFnot_negative y = true ->
  SFnot_positive (SF64sub x y) = true.
Proof.
  intros Hx Hy.
  destruct x as [sx|[]| |[] mx ex]; try discriminate Hx;
    destruct y as [sy|[]| |[] my ey]; try discriminate Hy;
    try reflexivity;
    try (destruct sx; try destruct sy; reflexivity).
  unfold SF64sub, SFsub. cbn [cond_Zopp].
  set (a := fst (shl_align mx ex (Z.min ex ey))).
  set (b := fst (shl_align my ey (Z.min ex ey))).
  destruct (- Zpos a - Zpos b) as [|p|p] eqn:E; try lia.
  cbn [binary_normalize]. unfold binary_round.
  destruct (shl_align p _ _) as [mz ez].
  apply (binary_round_aux_sign true).
Qed.

Lemma SFleb_zero_sign x :
  SFleb (S754_zero false) x = true -> SFnot_negative x = true.
Proof. destruct x as [s|[]| |[] m e]; try discriminate; reflexivity. Qed.

Lemma SFltb_zero_sign x :
  SFnot_positive x = true -> SFltb (S754_zero false) x = false.
Proof. destruct x as [s|[]| |[] m e]; try discriminate; reflexivity. Qed.

(** The float of a repeat count that is not negative is not negative. *)
Lemma round_converts_sign x n :
  round x = Ok n -> 0 <= n -> SFnot_negative (Prim2SF (float_of_Z n)) = true.
Proof.
  unfold round, float_of_Z. pose proof (Prim2SF_valid x) as V.
  destruct (Prim2SF x) as [s|s| |s m e]; try discriminate; intros [= <-].
  - reflexivity.
  - cbn [valid_binary] in V. unfold SFround_half_even.
    assert (Hm : Zpos m < 2 ^ 53).
    { pose proof V as V'. unfold bounded, canonical_mantissa in V'.
      apply andb_prop in V' as [Hcan _]. apply Z.eqb_eq in Hcan.
      rewrite fexp_spec in Hcan. destruct (digits2_bounds m) as [_ Hhi].
      apply Z.lt_le_trans with (2 ^ Zpos (digits2_pos m)); [assumption|].
      apply Z.pow_le_mono_r; lia. }
    assert (Hsmall : forall a, 0 <= a < 2 ^ 53 -> 0 <= cond_Zopp s a ->
              SFnot_negative
                (Prim2SF (SF2Prim (binary_normalize prec emax (cond_Zopp s a) 0 false)))
              = true).
    { intros [|a|a] Ha Hsign; try lia.
      - destruct s; reflexivity.
      - destruct s; [cbn in Hsign; lia|].
        destruct (binary_round_small false a ltac:(lia)) as (m' & e' & E & Hb).
        cbn [cond_Zopp binary_normalize]. rewrite E.
        now rewrite Prim2SF_SF2Prim by exact Hb. }
    destruct e as [|p|k].
    + rewrite Z.shiftl_0_r. apply Hsmall. lia.
    + rewrite Z.shiftl_mul_pow2 by lia. intros Hsign.
      rewrite binary_normalize_integer by (assumption || lia).
      rewrite Prim2SF_SF2Prim by exact V.
      destruct s; [|reflexivity]. cbn [cond_Zopp] in Hsign.
      assert (0 < Zpos m * 2 ^ Zpos p)
        by (apply Z.mul_pos_pos; [|apply Z.pow_pos_nonneg]; lia).
      lia.
    + apply Hsmall.
      assert (Hq : 0 <= Z.shiftr (Zpos m) (Zpos k) < 2 ^ 52).
      { rewrite Z.shiftr_div_pow2 by lia. split.
        - apply Z.div_pos; [lia|apply Z.pow_pos_nonneg; lia].
        - apply Z.div_lt_upper_bound; [apply Z.pow_pos_nonneg; lia|].
          apply Z.lt_le_trans with (2 ^ 1 * 2 ^ 52); [simpl; lia|].
          apply Z.mul_le_mono_nonneg_r; [lia|].
          apply Z.pow_le_mono_r; lia. }
      change (2 ^ 53) with (2 * 2 ^ 52).
      destruct (_ ?= _); [destruct (Z.even _)| |]; lia.
Qed.

(** A reward of the form that [_compute_reward] returns is not above 0. *)
Lemma reward_sign (sumd factor sumv steps : float) :
  (0 <=? factor)%float = true ->
  SFnot_negative (Prim2SF steps) = true ->
  (0 <? (- sqrt sumd - factor * sqrt sumv) * steps)%float = false.
Proof.
  rewrite FloatAxioms.leb_spec, FloatAxioms.ltb_spec, FloatAxioms.mul_spec,
    FloatAxioms.sub_spec, FloatAxioms.opp_spec, FloatAxioms.mul_spec,
    !FloatAxioms.sqrt_spec.
  change (Prim2SF 0) with (S754_zero false).
  intros Hf Hsteps. apply SFltb_zero_sign.
  apply (SFmul_sign _ _ Hsteps). apply SFsub_sign.
  - apply SFopp_sign, SFsqrt_sign.
  - apply (SFmul_sign _ _ (SFsqrt_sign _)). now apply SFleb_zero_sign.
Qed.

Section RewardSign.
Context {R : Type} `{Backend R}.
Implicit Types self : FingerReach R.

(** The repeat count of an environment that a program can hold is a rounded
    float. *)
Lemma reachable_steps sp self :
  reachable sp self -> exists q, round q = Ok (steps_per_control self).
Proof.
  induction 1 as [c ev ft vcf ss urr fcs sync self Hinit
                 |self _ IH|action self _ IH|self _ IH].
  - apply init_configuration in Hinit as (steps & sm & Hsteps & _ & Hcfg).
    apply init_steps_per_control_inv in Hsteps as [Hround _].
    unfold configuration in Hcfg. injection Hcfg as _ -> _ _ _ _ _ _. eauto.
  - destruct (reset_smoothing self) as (Hcfg & _).
    unfold configuration in Hcfg. now injection Hcfg as _ -> _ _ _ _ _ _.
  - pose proof (episode_state_configuration _ _ (step_keeps action self)) as Hcfg.
    unfold configuration in Hcfg. now injection Hcfg as _ -> _ _ _ _ _ _.
  - pose proof (f_equal fst (render_keeps self)) as Hk. cbn [fst] in Hk.
    apply episode_state_configuration in Hk as Hcfg.
    unfold configuration in Hcfg. now injection Hcfg as _ -> _ _ _ _ _ _.
Qed.

End RewardSign.

(** X13.  With a velocity cost factor that is not negative, no [step] of an
    environment that a program can hold returns a reward above 0: the reward
    is negative, a zero, or NaN. *)
Theorem reward_never_positive {R : Type} `{Backend R} smoothing_params
    (self : FingerReach R) action observation reward done is_success self' :
  reachable smoothing_params self ->
  step action self = (Ok (observation, reward, done, is_success), self') ->
  (0 <=? velocity_cost_factor self)%float = true ->
  (0 <? reward)%float = false.
Proof.
  intros Hreach E Hfactor.
  destruct (reachable_steps _ _ Hreach) as [q Hq].
  apply step_ok in E as (sa & driver1 & g & o & ip & iv & dist & Hout).
  destruct Hout as (driver0 & ee & flat & e2g & _ & Hpos & _ & _ & _ & _
                    & _ & _ & _ & _ & _ & Hdist & Hres & _).
  injection Hres as _ -> _ _.
  unfold compute_distance in Hdist.
  destruct (Np.subtract _ _) as [d|]; [|discriminate Hdist].
  cbn [result_bind] in Hdist. injection Hdist as <-.
  unfold Np.linalg_norm. apply reward_sign; [exact Hfactor|].
  apply (round_converts_sign q); [exact Hq|lia].
Qed.

(** A step on the reference driver with the velocity cost factor 0.5: the
    tip reaches the goal at the first tick, and the speed of the joints
    costs [0.5 * 0.374... * 5]. *)
Lemma reward_never_positive_witness :
  exists self res self',
    __init__ (H := kinematic_backend) 0.02 false "single"
      (training_params 10 0.2 0.8 0.9) 0.5 "separated" false "0" false = Ok self
    /\ step [0.1; 0.2; 0.3]%float self = (Ok res, self')
    /\ (0 <? snd (fst (fst res)))%float = false
    /\ (snd (fst (fst res)) <? 0)%float = true.
Proof.
  eexists _, _, _.
  split; [vm_compute; reflexivity|].
  split; [vm_compute; reflexivity|].
  split; [|vm_compute; reflexivity].
  lazymatch goal with
  | |- (0 <? snd (fst (fst (?o, ?r, ?d, ?i))))%float = false =>
      refine (reward_never_positive (training_params 10 0.2 0.8 0.9)
                _ [0.1; 0.2; 0.3]%float o r d i _ _ _ _)
  end.
  - apply (reach_init _ 0.02%float false "single" 0.5%float "separated" false
             "0" false).
    vm_compute. reflexivity.
  - vm_compute. reflexivity.
  - vm_compute. reflexivity.
Defined.

(** ** What the constructor leaves *)

(** X14.  A constructed environment is in its first episode: the
    constructor has shown the goal of the driver, then (after the wait
    for the start time, if synchronised) printed the line of episode 0,
    sent the driver to its reset pose, sampled the first goal, and told the
    logger and the goal markers, and made no other call; the episode count
    is 1, the buffer is absent, the coefficient is the one that
    [update_smoothing] computes for episode 0, and no observation has been
    logged. *)
Theorem constructed_environment_is_in_first_episode {R : Type} `{Backend R}
    c ev ft sp vcf ss urr fcs sync (self : FingerReach R) :
  __init__ c ev ft sp vcf ss urr fcs sync = Ok self ->
  exists self0 wait target,
    before_reset c ev ft sp vcf ss urr fcs sync = Ok self0
    /\ trace self0 = [EvDisplayGoal]
    /\ (sync = false -> wait = [])
    /\ trace self =
         [EvDisplayGoal] ++ wait
         ++ [EvPrint 0 (smoothing_alpha self); EvResetFinger;
             EvSampleJointPositions;
             EvLoggerNewEpisode target (forward_kinematics target);
             EvResetGoalMarkers (forward_kinematics target)]
    /\ smoothing_alpha self = next_alpha self0
    /\ goal self = Some (forward_kinematics target)
    /\ episode_count self = 1
    /\ smoothed_action self = None
    /\ velocity_cost_factor self = vcf
    /\ num_fingers self = (if bool_decide (ft = "single") then 1 else 3)
    /\ logged_observations (trace self) = []
    /\ commands (trace self) = commands wait.
Proof.
  intros Hinit. pose proof Hinit as Hcfg.
  apply init_configuration in Hcfg as (steps & sm & _ & _ & Hcfg).
  apply init_inv in Hinit as (self0 & o & H0 & Hreset).
  pose proof H0 as Hinv.
  apply before_reset_inv in Hinv as (_ & _ & _ & _ & _ & _ & Hc0 & _ & _).
  destruct (before_reset_driver _ _ _ _ _ _ _ _ _ _ H0)
    as (steps' & sm' & driver & Hsteps & Hsm & Hnew & Hshow).
  pose proof H0 as Hrun.
  rewrite (before_reset_run _ _ _ _ _ _ _ _ _ _ _ _ _ Hsteps Hsm Hnew Hshow)
    in Hrun.
  assert (Htrace0 : trace self0 = [EvDisplayGoal]
                    /\ (sync = false -> next_start_time self0 = None)).
  { destruct (if sync then _ else _) as [start|] eqn:Estart; [|discriminate].
    cbn [result_bind] in Hrun. injection Hrun as <-. split; [reflexivity|].
    intros ->. now injection Estart as <-. }
  destruct Htrace0 as [Htrace0 Hoff].
  destruct (reset_starts_episode _ _ _ Hreset)
    as (Hwait & action & d1 & target & d2 & d3 & ee & flat & e2g & raw
        & _ & _ & _ & _ & Hg & Hc & Ha & Hbuf & _ & _ & Htr & _).
  cbv zeta in *.
  destruct (wait_for_start_time_run self0) as (s1 & E1 & _ & _).
  pose proof (wait_for_start_time_keeps self0) as _.
  assert (Hext : exists wait,
            trace (snd (wait_for_start_time self0)) = trace self0 ++ wait
            /\ (next_start_time self0 = None -> wait = [])
            /\ logged_observations wait = []).
  { destruct (next_start_time self0) as [t|] eqn:Et.
    - destruct (wait_for_start_time_on self0 t Et) as (_ & Hw & _).
      eexists. split; [exact Hw|]. split; [discriminate|].
      destruct (fst _); reflexivity.
    - rewrite (wait_for_start_time_off _ Et). exists [].
      rewrite app_nil_r. auto. }
  destruct Hext as (wait & Hw & Hnil & Hlog).
  exists self0, wait, target.
  split; [assumption|]. split; [assumption|]. split; [auto|].
  rewrite Hw, Htrace0, Hc0 in Htr. rewrite <- Ha in Htr.
  split; [rewrite Htr; now rewrite <- app_assoc|].
  split; [assumption|]. split; [assumption|]. split; [lia|].
  split; [assumption|].
  unfold configuration in Hcfg. injection Hcfg as Hnf _ _ _ _ _ _ Hvcf.
  split; [assumption|]. split; [assumption|].
  rewrite Htr. unfold logged_observations, commands in *.
  rewrite !omap_app, Hlog. cbn. rewrite app_nil_r. auto.
Qed.

(** The constructor on the reference driver. *)
Lemma constructed_environment_is_in_first_episode_witness :
  exists self,
    make 0.02 "single" (training_params 10 0.2 0.8 0.9) = Ok self
    /\ episode_count self = 1
    /\ smoothed_action self = None
    /\ commands (trace self) = [].
Proof.
  eexists. split; [vm_compute; reflexivity|].
  lazymatch goal with
  | |- episode_count ?s = 1 /\ _ =>
      destruct (constructed_environment_is_in_first_episode
                  (R := Kinematic.robot) 0.02%float false "single"
                  (training_params 10 0.2 0.8 0.9) 0%float "separated" false
                  "0" false s)
        as (self0 & wait & target & _ & _ & Hwait & _ & _ & _ & Hc & Hbuf & _
            & _ & _ & Hcmd);
        [vm_compute; reflexivity|]
  end.
  split; [exact Hc|]. split; [exact Hbuf|].
  rewrite Hcmd, (Hwait eq_refl). reflexivity.
Defined.
